(** * Custom-layer kernel descriptors of the VPU graph transformer

    A shallow embedding of
      - [vpu/frontend/custom_layer/custom_kernel.hpp]
      - [frontend/custom_layer/custom_kernel.cpp]
      - [frontend/custom_layer/custom_cl_kernel.cpp]
    and the properties of the descriptor parser stated over it.

    Conventions.
      - [std::string] is [string] (a list of 8-bit characters), so a kernel
        binary read from disk is a [string] as well.
      - C++ [int] is a [Z]; conversions that can leave the 32-bit range are
        written out.
      - A function that can throw returns a [result]; every constructor of
        [exception] stands for one throw site of the sources (or of the
        standard library), and [kind_of] files it under the error kinds the
        specification talks about.
      - Reads the C++ code performs outside an object (undefined behaviour)
        are outcomes of their own, [VectorIndexOutOfRange] and
        [MemoryReadOutOfRange]: nothing is promised about them.
      - What the sources take from elsewhere is a parameter of the
        embedding: the integer conversion of XMLParseUtils, the files on
        disk, the metadata-query object of ShaveElfMetadataParser.h and its
        flag bit for generated arguments.
      - Storage is taken to be there for what the descriptor itself makes
        the code allocate.  The one request whose size the kernel binary
        dictates, [arguments.reserve(argCount)], asks the allocator, a
        parameter of the embedding as well, and fails when it declines.

    Names.  The specification's parseDimensionSource, parseLayoutFormat,
    parseSizeRule, loadKernelBinary and parseParametersBlock are
    [parseDimSource], [formatFromString], [parseSizeRule],
    [loadKernelBinary] and [processParametersNode]; its Native and Compiled
    variants are [CustomCppKernel] and [CustomClKernel]; its layout
    ChannelsFirst3D is [BFYX]. *)

From Stdlib Require Import ZArith List String Ascii Bool Lia.
From Stdlib Require Import DecimalString DecimalNat.
Import ListNotations.

Local Open Scope string_scope.
Local Open Scope Z_scope.

(* ================================================================== *)
(** ** Exceptions and the error monad *)

Inductive exception : Type :=
  (* custom_kernel.cpp *)
  | InvalidDimSource (source : string)      (* "Invalid dim source argument" *)
  | InvalidFormat (str : string)            (* "Tensor node has an invalid format" *)
  | KernelFileNotOpened (fileName : string) (* "Couldn't open kernel file " *)
  | KernelBinaryNotFound                    (* "Kernel binary not found" *)
  | InvalidNodeType (node typeStr : string) (* "<node> node has an invalid type" *)
  | DataNoSourceOrDim                       (* "Data node has no source or dim" *)
  | DataSourceAndDim                        (* "Data node can only have source or dim" *)
  (* custom_cl_kernel.cpp *)
  | AssertionFailed (what : string)         (* IE_ASSERT *)
  | SectionNotFound (section : string)      (* "Couldn't find <section> section" *)
  | KernelNameNotFound (entry : string)     (* "Failed to find kernel with name" *)
  | KernelCountNotOne (entry : string) (count : Z)
                                            (* "binary should contain only one kernel, but contains" *)
  | ArgumentParseError                      (* "Error while parsing custom layer elf file." *)
  (* XMLParseUtils *)
  | MissingAttribute (node attr : string)
  (* std::stoi *)
  | StoiInvalidArgument
  | StoiOutOfRange
  (* std::vector::reserve: std::length_error or std::bad_alloc *)
  | ReserveFailed (n : Z)
  (* undefined behaviour *)
  | VectorIndexOutOfRange
  | MemoryReadOutOfRange.

(** The error kinds of the specification, and four more for the failures
    it does not name: a failed [IE_ASSERT], an exception of [std::stoi],
    storage that cannot be had, and undefined behaviour. *)
Inductive ErrorKind : Type :=
  | FileNotFound
  | InvalidDescriptor
  | MalformedBinary
  | BinaryMismatch
  | MetadataParserFailure
  | InternalAssertion
  | NumericConversion
  | AllocationFailure
  | UndefinedBehaviour.

Definition kind_of (e : exception) : ErrorKind :=
  match e with
  | KernelFileNotOpened _ => FileNotFound
  | InvalidDimSource _ | InvalidFormat _ | KernelBinaryNotFound
  | InvalidNodeType _ _ | DataNoSourceOrDim | DataSourceAndDim
  | MissingAttribute _ _ => InvalidDescriptor
  | SectionNotFound _ => MalformedBinary
  | KernelNameNotFound _ | KernelCountNotOne _ _ => BinaryMismatch
  | ArgumentParseError => MetadataParserFailure
  | AssertionFailed _ => InternalAssertion
  | StoiInvalidArgument | StoiOutOfRange => NumericConversion
  | ReserveFailed _ => AllocationFailure
  | VectorIndexOutOfRange | MemoryReadOutOfRange => UndefinedBehaviour
  end.

Inductive result (A : Type) : Type :=
  | OK (a : A)
  | Throw (e : exception).

Arguments OK {A} a.
Arguments Throw {A} e.

Definition bind {A B : Type} (r : result A) (k : A -> result B) : result B :=
  match r with
  | OK a => k a
  | Throw e => Throw e
  end.

Notation "x <- c ;; k" := (bind c (fun x => k))
  (at level 61, c at next level, right associativity).
Notation "' pat <- c ;; k" := (bind c (fun x => match x with pat => k end))
  (at level 61, pat pattern, c at next level, right associativity).

(** [fails_with r k]: [r] is a throw whose exception is of kind [k]. *)
Definition fails_with {A : Type} (r : result A) (k : ErrorKind) : Prop :=
  exists e, r = Throw e /\ kind_of e = k.

Definition succeeds {A : Type} (r : result A) : bool :=
  match r with OK _ => true | Throw _ => false end.

(* ================================================================== *)
(** ** Enumerations and records of custom_kernel.hpp *)

Module CustomParamType.
Inductive t : Type :=
  | Input | Output | Data | LocalData | InputBuffer | OutputBuffer | Int | Float.

Definition eqb (a b : t) : bool :=
  match a, b with
  | Input, Input | Output, Output | Data, Data | LocalData, LocalData
  | InputBuffer, InputBuffer | OutputBuffer, OutputBuffer
  | Int, Int | Float, Float => true
  | _, _ => false
  end.
End CustomParamType.

(** BYXF is NHWC (channels last), BFYX is NCHW (channels first); YXF and FYX
    are their batch-less forms. *)
Module CustomDataFormat.
Inductive t : Type :=
  | BYXF | BFYX | YXF | FYX | BF | Any | None.
End CustomDataFormat.

Module CustomDimSource.
Inductive t : Type :=
  | Input | Output.
End CustomDimSource.

(** [CustomKernel::KernelParam].  The member [dimSource] has no initialiser
    in the class: [None] is the member nobody has assigned yet. *)
Record KernelParam : Type := mkKernelParam {
  type : CustomParamType.t;
  format : CustomDataFormat.t;
  argName : string;
  portIndex : Z;
  irSource : string;
  bufferSizeRule : string;
  dimSource : option CustomDimSource.t;
  dimIdx : Z
}.

(** The default-constructed [KernelParam kp;]. *)
Definition KernelParam_default : KernelParam :=
  {| type := CustomParamType.Input;
     format := CustomDataFormat.Any;
     argName := "";
     portIndex := -1;
     irSource := "";
     bufferSizeRule := "";
     dimSource := None;
     dimIdx := -1 |}.

Definition set_type (kp : KernelParam) (v : CustomParamType.t) : KernelParam :=
  mkKernelParam v (format kp) (argName kp) (portIndex kp) (irSource kp)
                (bufferSizeRule kp) (dimSource kp) (dimIdx kp).
Definition set_format (kp : KernelParam) (v : CustomDataFormat.t) : KernelParam :=
  mkKernelParam (type kp) v (argName kp) (portIndex kp) (irSource kp)
                (bufferSizeRule kp) (dimSource kp) (dimIdx kp).
Definition set_argName (kp : KernelParam) (v : string) : KernelParam :=
  mkKernelParam (type kp) (format kp) v (portIndex kp) (irSource kp)
                (bufferSizeRule kp) (dimSource kp) (dimIdx kp).
Definition set_portIndex (kp : KernelParam) (v : Z) : KernelParam :=
  mkKernelParam (type kp) (format kp) (argName kp) v (irSource kp)
                (bufferSizeRule kp) (dimSource kp) (dimIdx kp).
Definition set_irSource (kp : KernelParam) (v : string) : KernelParam :=
  mkKernelParam (type kp) (format kp) (argName kp) (portIndex kp) v
                (bufferSizeRule kp) (dimSource kp) (dimIdx kp).
Definition set_bufferSizeRule (kp : KernelParam) (v : string) : KernelParam :=
  mkKernelParam (type kp) (format kp) (argName kp) (portIndex kp) (irSource kp)
                v (dimSource kp) (dimIdx kp).
(** [std::tie(kp.dimSource, kp.dimIdx) = ...] *)
Definition set_dim (kp : KernelParam) (v : CustomDimSource.t * Z) : KernelParam :=
  mkKernelParam (type kp) (format kp) (argName kp) (portIndex kp) (irSource kp)
                (bufferSizeRule kp) (Some (fst v)) (snd v).

(* ================================================================== *)
(** ** Strings: the std::string and <cctype> operations the parser uses *)

(** [s.find_first_of(c)]; [None] is [std::string::npos]. *)
Fixpoint find_first_of (s : string) (c : ascii) : option nat :=
  match s with
  | EmptyString => None
  | String a s' =>
      if Ascii.eqb a c then Some 0%nat else option_map S (find_first_of s' c)
  end.

(** [s.substr(pos, count)] for [pos <= s.size()]; a count of [None] is
    [npos], the rest of the string. *)
Definition substr (s : string) (pos : nat) (count : option nat) : string :=
  match count with
  | Some n => substring pos n s
  | None => substring pos (String.length s - pos) s
  end.

(** [std::tolower] in the "C" locale. *)
Definition tolower (c : ascii) : ascii :=
  let n := nat_of_ascii c in
  if ((65 <=? n) && (n <=? 90))%nat then ascii_of_nat (n + 32) else c.

(** [std::equal(begin(a), end(a), begin(b), pred)] with the predicate of
    [CaselessEq]; the caller has checked that the sizes agree. *)
Fixpoint std_equal_tolower (a b : string) : bool :=
  match a with
  | EmptyString => true
  | String x a' =>
      match b with
      | EmptyString => false
      | String y b' => Ascii.eqb (tolower x) (tolower y) && std_equal_tolower a' b'
      end
  end.

(** [ie::details::CaselessEq<std::string>] *)
Definition CaselessEq (a b : string) : bool :=
  (String.length a =? String.length b)%nat && std_equal_tolower a b.

(** [ie::details::CaselessLess<std::string>], a lexicographical comparison
    of the lower-cased characters: the order of a [caseless_map].  Only the
    equivalence it induces matters to [find], and that one does not depend
    on the signedness of [char]. *)
Fixpoint CaselessLess (a b : string) : bool :=
  match a, b with
  | _, EmptyString => false
  | EmptyString, String _ _ => true
  | String x a', String y b' =>
      let lx := nat_of_ascii (tolower x) in
      let ly := nat_of_ascii (tolower y) in
      if (lx <? ly)%nat then true
      else if (ly <? lx)%nat then false
      else CaselessLess a' b'
  end.

(** [caseless_map::find]: the entry whose key is equivalent to [k] under the
    map's order (neither is less than the other). *)
Fixpoint caseless_map_find {V : Type} (m : list (string * V)) (k : string) : option V :=
  match m with
  | [] => None
  | (key, v) :: m' =>
      if negb (CaselessLess key k) && negb (CaselessLess k key) then Some v
      else caseless_map_find m' k
  end.

Definition isspace (c : ascii) : bool :=
  let n := nat_of_ascii c in
  ((n =? 32) || ((9 <=? n) && (n <=? 13)))%nat.

Definition isdigit (c : ascii) : bool :=
  let n := nat_of_ascii c in
  ((48 <=? n) && (n <=? 57))%nat.

Fixpoint skip_spaces (s : string) : string :=
  match s with
  | String c s' => if isspace c then skip_spaces s' else s
  | EmptyString => s
  end.

(** The decimal digits at the front of [s], accumulated onto [acc]; [seen]
    records whether a digit was read. *)
Fixpoint read_digits (s : string) (acc : Z) (seen : bool) : Z * bool :=
  match s with
  | String c s' =>
      if isdigit c
      then read_digits s' (10 * acc + (Z.of_nat (nat_of_ascii c) - 48)) true
      else (acc, seen)
  | EmptyString => (acc, seen)
  end.

Definition INT_MIN : Z := - 2 ^ 31.
Definition INT_MAX : Z := 2 ^ 31 - 1.

(** [std::stoi(str)] (base 10): white space, an optional sign, then digits;
    what follows the digits is ignored.  No digits is
    [std::invalid_argument], a value outside [int] is [std::out_of_range]. *)
Definition stoi (str : string) : result Z :=
  let s := skip_spaces str in
  let '(negative, s1) :=
    match s with
    | String c r =>
        if Ascii.eqb c "-"%char then (true, r)
        else if Ascii.eqb c "+"%char then (false, r)
        else (false, s)
    | EmptyString => (false, s)
    end in
  match read_digits s1 0 false with
  | (_, false) => Throw StoiInvalidArgument
  | (v, true) =>
      let v := if negative then - v else v in
      if (INT_MIN <=? v) && (v <=? INT_MAX) then OK v else Throw StoiOutOfRange
  end.

(* ================================================================== *)
(** ** custom_kernel.cpp: the leaf parsers *)

(** [CustomKernel::parseDimSource] *)
Definition parseDimSource (dims : string) : result (CustomDimSource.t * Z) :=
  let pos := find_first_of dims ","%char in
  let source := substr dims 0 pos in
  dimSource <-
    (if CaselessEq source "input" then OK CustomDimSource.Input
     else if CaselessEq source "output" then OK CustomDimSource.Output
     else Throw (InvalidDimSource source)) ;;
  idx <-
    match pos with
    | None => OK (-1)
    | Some p => stoi (substr dims (p + 1) None)
    end ;;
  OK (dimSource, idx).

Definition FormatNameToType : list (string * CustomDataFormat.t) :=
  [ ("BFYX", CustomDataFormat.BFYX);
    ("BYXF", CustomDataFormat.BYXF);
    ("FYX", CustomDataFormat.FYX);
    ("YXF", CustomDataFormat.YXF);
    ("BF", CustomDataFormat.BF);
    ("ANY", CustomDataFormat.Any) ].

(** [CustomKernel::formatFromString] *)
Definition formatFromString (str : string) : result CustomDataFormat.t :=
  match caseless_map_find FormatNameToType str with
  | Some f => OK f
  | None => Throw (InvalidFormat str)
  end.

(** A [std::stringstream] being read: the characters not yet extracted and
    the two state bits the loop of [parseSizeRule] depends on. *)
Record istream : Type := mkIstream {
  pending : string;
  eofbit : bool;
  failbit : bool
}.

(** Extraction up to the delimiter: the characters before it and, when the
    delimiter was found (and dropped), what follows it; [None] when the end
    of the stream was reached first. *)
Fixpoint read_until (delim : ascii) (s : string) : string * option string :=
  match s with
  | EmptyString => (EmptyString, None)
  | String c s' =>
      if Ascii.eqb c delim then (EmptyString, Some s')
      else let '(line, rest) := read_until delim s' in (String c line, rest)
  end.

(** [std::getline(is, str, delim)]: fails at once on a stream that is not
    good; sets [eofbit] when it runs into the end, and [failbit] when it
    extracted nothing at all (not even a delimiter). *)
Definition getline (strm : istream) (delim : ascii) : istream * string :=
  if eofbit strm || failbit strm then (mkIstream (pending strm) (eofbit strm) true, EmptyString)
  else
    match read_until delim (pending strm) with
    | (line, Some rest) => (mkIstream rest false false, line)
    | (line, None) =>
        (mkIstream EmptyString true (String.length line =? 0)%nat, line)
    end.

(** [while (std::getline(sizeRules, bufferSize, ',')) result.push_back(bufferSize);] *)
Fixpoint parseSizeRule_loop (fuel : nat) (sizeRules : istream) (result : list string)
  : list string :=
  match fuel with
  | O => result
  | S fuel' =>
      let '(sizeRules', bufferSize) := getline sizeRules ","%char in
      if failbit sizeRules' then result
      else parseSizeRule_loop fuel' sizeRules' (result ++ [bufferSize])
  end.

(** [CustomKernel::parseSizeRule].  Every round of the loop but the last
    two extracts a comma, so [size.size() + 2] rounds are enough
    ([parseSizeRule_loop_fuel]). *)
Definition parseSizeRule (size : string) : list string :=
  parseSizeRule_loop (String.length size + 2) (mkIstream size false false) [].


(* ================================================================== *)
(** ** The XML tree and XMLParseUtils *)

(** A pugixml element: its name, its attributes and its child elements, both
    in document order. *)
#[warnings="-register-all"]
Inductive xml_node : Type :=
  | XmlNode (name : string) (attributes : list (string * string))
            (children : list xml_node).

Definition node_name (n : xml_node) : string :=
  match n with XmlNode name _ _ => name end.
Definition node_attributes (n : xml_node) : list (string * string) :=
  match n with XmlNode _ attributes _ => attributes end.
Definition node_children (n : xml_node) : list xml_node :=
  match n with XmlNode _ _ children => children end.

(** A [pugi::xml_node] handle; [None] is the null handle, for which
    [empty()] holds and every query answers null. *)
Definition xml_handle : Type := option xml_node.

(** [h.child(name)]: the first child element called [name]. *)
Definition child (h : xml_handle) (name : string) : xml_handle :=
  match h with
  | Some n => find (fun c => String.eqb (node_name c) name) (node_children n)
  | None => None
  end.

Definition children_of (h : xml_handle) : list xml_node :=
  match h with
  | Some n => node_children n
  | None => []
  end.

Definition handle_name (h : xml_handle) : string :=
  match h with
  | Some n => node_name n
  | None => ""
  end.

(** [h.attribute(name)]: the value of the first attribute called [name];
    [None] is the null attribute. *)
Definition attribute (h : xml_handle) (name : string) : option string :=
  match h with
  | Some n =>
      option_map snd (find (fun a => String.eqb (fst a) name) (node_attributes n))
  | None => None
  end.

(** [for (auto x = parent.child(name); !x.empty(); x = x.next_sibling(name))]
    run over the children [siblings] of [parent]: the body sees, in document
    order, the elements called [name]; an exception ends the loop. *)
Fixpoint for_each_named {S : Type} (name : string) (siblings : list xml_node)
    (body : xml_node -> S -> result S) (st : S) : result S :=
  match siblings with
  | [] => OK st
  | x :: rest =>
      if String.eqb (node_name x) name
      then st' <- body x st ;; for_each_named name rest body st'
      else for_each_named name rest body st
  end.

(** [XMLParseUtils::GetStrAttr(node, str)]: the attribute is mandatory. *)
Definition GetStrAttr (h : xml_handle) (str : string) : result string :=
  match attribute h str with
  | Some v => OK v
  | None => Throw (MissingAttribute (handle_name h) str)
  end.

(** [XMLParseUtils::GetStrAttr(node, str, def)] *)
Definition GetStrAttr_def (h : xml_handle) (str def : string) : string :=
  match attribute h str with
  | Some v => v
  | None => def
  end.

(** [_inputDataCount = std::count_if(...)]: the count, and its conversion
    to [int]. *)
Fixpoint count_if {A : Type} (p : A -> bool) (l : list A) : Z :=
  match l with
  | [] => 0
  | x :: l' => (if p x then 1 else 0) + count_if p l'
  end.

Definition to_int (z : Z) : Z := (z + 2 ^ 31) mod 2 ^ 32 - 2 ^ 31.

(** [v[i]] on a vector: the access is defined only below [v.size()]. *)
Definition vector_at {A : Type} (v : list A) (i : nat) : result A :=
  match nth_error v i with
  | Some x => OK x
  | None => Throw VectorIndexOutOfRange
  end.

(* ================================================================== *)
(** ** The kernel classes *)

(** The data members of [CustomKernel]. *)
Record CustomKernel : Type := mkCustomKernel {
  _kernelBinary : string;
  _kernelParams : list KernelParam;
  _parameters : list string;
  _wgDimSource : CustomDimSource.t;
  _wgDimIdx : Z;
  _maxShaves : Z;
  _inputDataCount : Z
}.

(** The members as their initialisers in the class leave them. *)
Definition CustomKernel_init : CustomKernel :=
  {| _kernelBinary := "";
     _kernelParams := [];
     _parameters := [];
     _wgDimSource := CustomDimSource.Input;
     _wgDimIdx := -1;
     _maxShaves := 0;
     _inputDataCount := 0 |}.

Definition set_kernelBinary (k : CustomKernel) (v : string) : CustomKernel :=
  mkCustomKernel v (_kernelParams k) (_parameters k) (_wgDimSource k) (_wgDimIdx k)
                 (_maxShaves k) (_inputDataCount k).
Definition set_kernelParams (k : CustomKernel) (v : list KernelParam) : CustomKernel :=
  mkCustomKernel (_kernelBinary k) v (_parameters k) (_wgDimSource k) (_wgDimIdx k)
                 (_maxShaves k) (_inputDataCount k).
Definition set_parameters (k : CustomKernel) (v : list string) : CustomKernel :=
  mkCustomKernel (_kernelBinary k) (_kernelParams k) v (_wgDimSource k) (_wgDimIdx k)
                 (_maxShaves k) (_inputDataCount k).
Definition set_wgDim (k : CustomKernel) (v : CustomDimSource.t * Z) : CustomKernel :=
  mkCustomKernel (_kernelBinary k) (_kernelParams k) (_parameters k) (fst v) (snd v)
                 (_maxShaves k) (_inputDataCount k).
Definition set_maxShaves (k : CustomKernel) (v : Z) : CustomKernel :=
  mkCustomKernel (_kernelBinary k) (_kernelParams k) (_parameters k) (_wgDimSource k)
                 (_wgDimIdx k) v (_inputDataCount k).
Definition set_inputDataCount (k : CustomKernel) (v : Z) : CustomKernel :=
  mkCustomKernel (_kernelBinary k) (_kernelParams k) (_parameters k) (_wgDimSource k)
                 (_wgDimIdx k) (_maxShaves k) v.

(** [CustomClKernel]: the base members and its own. *)
Record CustomClKernel : Type := mkCustomClKernel {
  base : CustomKernel;
  _globalGridSizeRules : list string;
  _localGridSizeRules : list string;
  _kernelId : Z
}.

Definition CustomClKernel_init : CustomClKernel :=
  {| base := CustomKernel_init;
     _globalGridSizeRules := [];
     _localGridSizeRules := [];
     _kernelId := 0 |}.

Definition set_base (k : CustomClKernel) (v : CustomKernel) : CustomClKernel :=
  mkCustomClKernel v (_globalGridSizeRules k) (_localGridSizeRules k) (_kernelId k).

(** The lambda [isInputData] of both constructors. *)
Definition isInputData (param : KernelParam) : bool :=
  CustomParamType.eqb (type param) CustomParamType.Input
  || CustomParamType.eqb (type param) CustomParamType.InputBuffer
  || CustomParamType.eqb (type param) CustomParamType.Data.

(* ================================================================== *)
(** ** The metadata-query object and the ELF walk *)

(** What [deduceKernelParameters] reads of a kernel descriptor and of an
    argument record of ShaveElfMetadataParser.h; [kernel_ref] and [arg_ref]
    identify the record inside the metadata. *)
Record md_kernel_descriptor_t : Type := {
  arg_count : Z;   (* unsigned, 32 bits *)
  kernel_ref : Z
}.

Record md_kernel_argument_t : Type := {
  flags : Z;
  arg_ref : Z
}.

(** The queries of [md_parser_t] the sources call.  [get_kernel] and
    [get_argument] answer a pointer, [None] being [nullptr]. *)
Record md_parser_t : Type := {
  get_kernel_id : string -> Z;
  get_kernel_count : Z;
  get_kernel : Z -> option md_kernel_descriptor_t;
  get_argument : md_kernel_descriptor_t -> Z -> option md_kernel_argument_t;
  get_name : md_kernel_argument_t -> string
}.

(** One byte of the kernel binary at offset [addr] from [elf_data].  The
    buffer is the [std::string]'s, so the byte at [size()] is the
    terminating zero; any other address outside it is not the string's. *)
Definition load_u8 (elf_data : string) (addr : Z) : result Z :=
  if addr <? 0 then Throw MemoryReadOutOfRange
  else
    match String.get (Z.to_nat addr) elf_data with
    | Some c => OK (Z.of_N (N_of_ascii c))
    | None =>
        if addr =? Z.of_nat (String.length elf_data) then OK 0
        else Throw MemoryReadOutOfRange
    end.

(** Packed little-endian fields. *)
Definition load_u16 (elf_data : string) (addr : Z) : result Z :=
  b0 <- load_u8 elf_data addr ;;
  b1 <- load_u8 elf_data (addr + 1) ;;
  OK (Z.lor b0 (Z.shiftl b1 8)).

Definition load_u32 (elf_data : string) (addr : Z) : result Z :=
  b0 <- load_u8 elf_data addr ;;
  b1 <- load_u8 elf_data (addr + 1) ;;
  b2 <- load_u8 elf_data (addr + 2) ;;
  b3 <- load_u8 elf_data (addr + 3) ;;
  OK (Z.lor b0 (Z.lor (Z.shiftl b1 8) (Z.lor (Z.shiftl b2 16) (Z.shiftl b3 24)))).

(** Field offsets of the packed structures. *)
Definition Elf32Ehdr_ePhoff : Z := 28.
Definition Elf32Ehdr_eShoff : Z := 32.
Definition Elf32Ehdr_eShnum : Z := 48.
Definition Elf32Ehdr_eShstrndx : Z := 50.
Definition Elf32Shdr_shName : Z := 0.
Definition Elf32Shdr_shOffset : Z := 16.
Definition Elf32Shdr_shSize : Z := 20.
Definition sizeof_Elf32Shdr : Z := 40.

(** [0 == strcmp(elf_data + addr, section_name)]: the bytes are compared
    up to the first difference or the common terminator. *)
Fixpoint strcmp_eq (elf_data : string) (addr : Z) (section_name : string) : result bool :=
  match section_name with
  | EmptyString => b <- load_u8 elf_data addr ;; OK (b =? 0)
  | String c rest =>
      b <- load_u8 elf_data addr ;;
      if b =? Z.of_N (N_of_ascii c) then strcmp_eq elf_data (addr + 1) rest
      else OK false
  end.

(** The [for] loop of [get_elf_section_with_name], [n] rounds from index
    [i]; the answer is the offset of the section header found, [None] for
    [nullptr]. *)
Fixpoint section_loop (elf_data : string) (shdr firstStr : Z) (section_name : string)
    (n : nat) (i : Z) : result (option Z) :=
  match n with
  | O => OK None
  | S n' =>
      let entry := shdr + sizeof_Elf32Shdr * i in
      shName <- load_u32 elf_data (entry + Elf32Shdr_shName) ;;
      same <- strcmp_eq elf_data (firstStr + shName) section_name ;;
      if same then OK (Some entry)
      else section_loop elf_data shdr firstStr section_name n' (i + 1)
  end.

(** [get_elf_section_with_name].  The address of an array element is never
    null, so the test of [strShdr] is not a branch. *)
Definition get_elf_section_with_name (elf_data : string) (section_name : string)
  : result (option Z) :=
  eShoff <- load_u32 elf_data Elf32Ehdr_eShoff ;;
  if eShoff =? 0 then Throw (AssertionFailed "0 != ehdr->eShoff") else
  ePhoff <- load_u32 elf_data Elf32Ehdr_ePhoff ;;
  if ePhoff =? 0 then Throw (AssertionFailed "0 != ehdr->ePhoff") else
  let shdr := eShoff in
  eShstrndx <- load_u16 elf_data Elf32Ehdr_eShstrndx ;;
  let strShdr := shdr + sizeof_Elf32Shdr * eShstrndx in
  firstStr <- load_u32 elf_data (strShdr + Elf32Shdr_shOffset) ;;
  eShnum <- load_u16 elf_data Elf32Ehdr_eShnum ;;
  section_loop elf_data shdr firstStr section_name (Z.to_nat eShnum) 0.

(** The byte range of the section whose header is at [shdr]:
    [elf + shdr->shOffset] and [shdr->shSize]. *)
Definition section_range (elf_data : string) (shdr : Z) : result (Z * Z) :=
  off <- load_u32 elf_data (shdr + Elf32Shdr_shOffset) ;;
  size <- load_u32 elf_data (shdr + Elf32Shdr_shSize) ;;
  OK (off, size).

Section Embedding.

(** The integer conversion of [XMLParseUtils::GetIntAttr] applied to an
    attribute's text. *)
Variable attr_to_int : string -> result Z.

(** The files that [std::ifstream] can open, and their contents. *)
Variable fs : string -> option string.

(** The flag bit of a hoisted argument (ShaveElfMetadataParser.h). *)
Variable md_arg_flags_generated_prepost : Z.

(** [md_parser_t{neoMetadata, neoMetadataSize, neoMetadataStr,
    neoMetadataStrSize}] over the binary: the two section offsets and
    sizes. *)
Variable md_parser_new : string -> Z -> Z -> Z -> Z -> md_parser_t.

(** Whether the allocator has the storage for [n] strings at once. *)
Variable allocates : Z -> bool.

(** [XMLParseUtils::GetIntAttr(node, str)] *)
Definition GetIntAttr (h : xml_handle) (str : string) : result Z :=
  match attribute h str with
  | Some v => attr_to_int v
  | None => Throw (MissingAttribute (handle_name h) str)
  end.

(** [XMLParseUtils::GetIntAttr(node, str, def)] *)
Definition GetIntAttr_def (h : xml_handle) (str : string) (def : Z) : result Z :=
  match attribute h str with
  | Some _ => GetIntAttr h str
  | None => OK def
  end.

(** [CustomKernel::loadKernelBinary].  The body of its loop leaves the
    function in the first round, so only [node.child("Source")] is ever
    looked at. *)
Definition loadKernelBinary (node : xml_node) (configDir : string) : result string :=
  match child (Some node) "Source" with
  | Some source =>
      let fileName := configDir ++ "/" ++ GetStrAttr_def (Some source) "filename" "" in
      match fs fileName with
      | None => Throw (KernelFileNotOpened fileName)
      | Some content => OK content
      end
  | None => Throw KernelBinaryNotFound
  end.

(** The body of the [Tensor] loop of [processParametersNode]. *)
Definition parseTensor (tensor : xml_node) : result KernelParam :=
  let kp := KernelParam_default in
  typeStr <- GetStrAttr (Some tensor) "type" ;;
  kp <- (if CaselessEq typeStr "input" then OK (set_type kp CustomParamType.Input)
         else if CaselessEq typeStr "output" then OK (set_type kp CustomParamType.Output)
         else if CaselessEq typeStr "input_buffer"
              then OK (set_type kp CustomParamType.InputBuffer)
         else if CaselessEq typeStr "output_buffer"
              then OK (set_type kp CustomParamType.OutputBuffer)
         else if CaselessEq typeStr "data" then OK (set_type kp CustomParamType.Data)
         else Throw (InvalidNodeType "Tensor" typeStr)) ;;
  kp <- (if CustomParamType.eqb (type kp) CustomParamType.InputBuffer
            || CustomParamType.eqb (type kp) CustomParamType.OutputBuffer
         then
           sizeRule <- GetStrAttr (Some tensor) "size" ;;
           first <- vector_at (parseSizeRule sizeRule) 0 ;;
           let kp := set_bufferSizeRule kp first in
           dimString <- GetStrAttr (Some tensor) "dim" ;;
           d <- parseDimSource dimString ;;
           OK (set_dim kp d)
         else OK kp) ;;
  fmt <- formatFromString (GetStrAttr_def (Some tensor) "format" "BFYX") ;;
  let kp := set_format kp fmt in
  name <- GetStrAttr (Some tensor) "arg-name" ;;
  let kp := set_argName kp name in
  port <- GetIntAttr (Some tensor) "port-index" ;;
  OK (set_portIndex kp port).

(** The body of the [Data] loop. *)
Definition parseData (data : xml_node) : result KernelParam :=
  let kp := KernelParam_default in
  typeStr <- GetStrAttr (Some data) "type" ;;
  kp <- (if CaselessEq typeStr "data" then OK (set_type kp CustomParamType.Data)
         else if CaselessEq typeStr "local_data"
              then OK (set_type kp CustomParamType.LocalData)
         else Throw (InvalidNodeType "Data" typeStr)) ;;
  name <- GetStrAttr (Some data) "arg-name" ;;
  let kp := set_argName kp name in
  let kp := set_irSource kp (GetStrAttr_def (Some data) "source" "") in
  let dimString := GetStrAttr_def (Some data) "dim" "" in
  if String.eqb (irSource kp) "" && String.eqb dimString ""
  then Throw DataNoSourceOrDim else
  if negb (String.eqb (irSource kp) "") && negb (String.eqb dimString "")
  then Throw DataSourceAndDim else
  if CustomParamType.eqb (type kp) CustomParamType.LocalData then
    let bufferSize := GetStrAttr_def (Some data) "size" "" in
    let kp := set_bufferSizeRule kp bufferSize in
    if negb (String.eqb dimString "")
    then d <- parseDimSource dimString ;; OK (set_dim kp d)
    else OK kp
  else OK kp.

(** The body of the [Scalar] loop. *)
Definition parseScalar (scalar : xml_node) : result KernelParam :=
  let kp := KernelParam_default in
  typeStr <- GetStrAttr (Some scalar) "type" ;;
  kp <- (if CaselessEq typeStr "int" then OK (set_type kp CustomParamType.Int)
         else if CaselessEq typeStr "float" then OK (set_type kp CustomParamType.Float)
         else Throw (InvalidNodeType "Scalar" typeStr)) ;;
  name <- GetStrAttr (Some scalar) "arg-name" ;;
  let kp := set_argName kp name in
  port <- GetIntAttr_def (Some scalar) "port-index" (-1) ;;
  let kp := set_portIndex kp port in
  OK (set_irSource kp (GetStrAttr_def (Some scalar) "source" "")).

(** [_kernelParams.push_back(std::move(kp))] after a loop body. *)
Definition push_param (parse : xml_node -> result KernelParam)
    (x : xml_node) (this : CustomKernel) : result CustomKernel :=
  kp <- parse x ;;
  OK (set_kernelParams this (_kernelParams this ++ [kp])).

(** [CustomKernel::processParametersNode] *)
Definition processParametersNode (node : xml_node) (this : CustomKernel)
  : result CustomKernel :=
  let parameters := child (Some node) "Parameters" in
  this <- for_each_named "Tensor" (children_of parameters) (push_param parseTensor) this ;;
  this <- for_each_named "Data" (children_of parameters) (push_param parseData) this ;;
  for_each_named "Scalar" (children_of parameters) (push_param parseScalar) this.

(** [CustomCppKernel::processWorkSizesNode] *)
Definition CustomCppKernel_processWorkSizesNode (node : xml_node) (this : CustomKernel)
  : result CustomKernel :=
  let workSizes := child (Some node) "WorkSizes" in
  dims <- GetStrAttr workSizes "dim" ;;
  d <- parseDimSource dims ;;
  OK (set_wgDim this d).

(** [CustomClKernel::processWorkSizesNode] *)
Definition CustomClKernel_processWorkSizesNode (node : xml_node) (this : CustomClKernel)
  : result CustomClKernel :=
  let workSizes := child (Some node) "WorkSizes" in
  dims <- GetStrAttr workSizes "dim" ;;
  d <- parseDimSource dims ;;
  let this := set_base this (set_wgDim (base this) d) in
  gwgs <- GetStrAttr workSizes "global" ;;
  let this := mkCustomClKernel (base this) (parseSizeRule gwgs)
                               (_localGridSizeRules this) (_kernelId this) in
  lwgs <- GetStrAttr workSizes "local" ;;
  OK (mkCustomClKernel (base this) (_globalGridSizeRules this)
                       (parseSizeRule lwgs) (_kernelId this)).

(** [CustomCppKernel::CustomCppKernel] *)
Definition CustomCppKernel_new (node : xml_node) (configDir : string)
  : result CustomKernel :=
  let this := CustomKernel_init in
  maxShaves <- GetIntAttr_def (Some node) "max-shaves" 0 ;;
  let this := set_maxShaves this maxShaves in
  binary <- loadKernelBinary node configDir ;;
  let this := set_kernelBinary this binary in
  this <- processParametersNode node this ;;
  this <- CustomCppKernel_processWorkSizesNode node this ;;
  let this := set_inputDataCount this (to_int (count_if isInputData (_kernelParams this))) in
  OK (set_parameters this (_parameters this ++ map argName (_kernelParams this))).

(** The loop of [deduceKernelParameters]: [n] rounds from index [i]. *)
Fixpoint deduce_loop (parser : md_parser_t) (kernelDesc : md_kernel_descriptor_t)
    (n : nat) (i : Z) (arguments : list string) : result (list string) :=
  match n with
  | O => OK arguments
  | S n' =>
      match get_argument parser kernelDesc i with
      | None => Throw ArgumentParseError
      | Some arg =>
          if negb (Z.land (flags arg) md_arg_flags_generated_prepost =? 0)
          then deduce_loop parser kernelDesc n' (i + 1) arguments
          else deduce_loop parser kernelDesc n' (i + 1) (arguments ++ [get_name parser arg])
      end
  end.

(** [kernelDesc->arg_count - 1], an unsigned 32-bit subtraction. *)
Definition argCount (kernelDesc : md_kernel_descriptor_t) : Z :=
  (arg_count kernelDesc - 1) mod 2 ^ 32.

(** [arguments.reserve(n)] on the empty vector: no storage is asked for
    when [n] is 0; otherwise the request is refused with [std::length_error]
    or fails with [std::bad_alloc] when the allocator does not have it. *)
Definition reserve (n : Z) : result unit :=
  if (n =? 0) || allocates n then OK tt else Throw (ReserveFailed n).

(** [deduceKernelParameters] *)
Definition deduceKernelParameters (parser : md_parser_t) (kernelId : Z)
  : result (list string) :=
  match get_kernel parser kernelId with
  | None => Throw (AssertionFailed "kernelDesc != nullptr")
  | Some kernelDesc =>
      _ <- reserve (argCount kernelDesc) ;;
      deduce_loop parser kernelDesc (Z.to_nat (argCount kernelDesc)) 0 []
  end.

(** [CustomClKernel::CustomClKernel], lines 107 to 120: the descriptor
    is read and the entry name fetched. *)
Definition CustomClKernel_read (node : xml_node) (configDir : string)
  : result (CustomClKernel * string) :=
  let this := CustomClKernel_init in
  maxShaves <- GetIntAttr_def (Some node) "max-shaves" 0 ;;
  let this := set_base this (set_maxShaves (base this) maxShaves) in
  binary <- loadKernelBinary node configDir ;;
  let this := set_base this (set_kernelBinary (base this) binary) in
  b <- processParametersNode node (base this) ;;
  let this := set_base this b in
  this <- CustomClKernel_processWorkSizesNode node this ;;
  let this :=
    set_base this (set_inputDataCount (base this)
                     (to_int (count_if isInputData (_kernelParams (base this))))) in
  kernelEntryName <- GetStrAttr (Some node) "entry" ;;
  OK (this, kernelEntryName).

(** Lines 122 to 136: both metadata sections are located and the
    metadata-query object is built over them. *)
Definition CustomClKernel_metadata (elf : string) : result md_parser_t :=
  neoMetadataShdr <- get_elf_section_with_name elf ".neo_metadata" ;;
  match neoMetadataShdr with
  | None => Throw (SectionNotFound ".neo_metadata")
  | Some shdr =>
      ' (neoMetadata, neoMetadataSize) <- section_range elf shdr ;;
      neoMetadataStrShdr <- get_elf_section_with_name elf ".neo_metadata.str" ;;
      match neoMetadataStrShdr with
      | None => Throw (SectionNotFound ".neo_metadata.str")
      | Some strShdr =>
          ' (neoMetadataStr, neoMetadataStrSize) <- section_range elf strShdr ;;
          OK (md_parser_new elf neoMetadata neoMetadataSize
                            neoMetadataStr neoMetadataStrSize)
      end
  end.

(** Lines 137 to 145: the kernel is resolved, the kernel count checked
    and the argument names deduced. *)
Definition CustomClKernel_resolve (this : CustomClKernel) (kernelEntryName : string)
    (parser : md_parser_t) : result CustomClKernel :=
  let this := mkCustomClKernel (base this) (_globalGridSizeRules this)
                               (_localGridSizeRules this)
                               (get_kernel_id parser kernelEntryName) in
  if _kernelId this =? -1 then Throw (KernelNameNotFound kernelEntryName) else
  if negb (get_kernel_count parser =? 1)
  then Throw (KernelCountNotOne kernelEntryName (get_kernel_count parser)) else
  names <- deduceKernelParameters parser (_kernelId this) ;;
  OK (set_base this (set_parameters (base this) names)).

(** [CustomClKernel::CustomClKernel] *)
Definition CustomClKernel_new (node : xml_node) (configDir : string)
  : result CustomClKernel :=
  ' (this, kernelEntryName) <- CustomClKernel_read node configDir ;;
  parser <- CustomClKernel_metadata (_kernelBinary (base this)) ;;
  CustomClKernel_resolve this kernelEntryName parser.

End Embedding.

(* ================================================================== *)
(** ** Vocabulary of the statements *)

(** The split of the specification's wording: a text with [n] commas has
    [n + 1] components, the characters between the commas. *)
Fixpoint split_on_commas_spec (text : string) : list string :=
  match text with
  | EmptyString => [EmptyString]
  | String c text' =>
      if Ascii.eqb c ","%char then EmptyString :: split_on_commas_spec text'
      else
        match split_on_commas_spec text' with
        | piece :: pieces => String c piece :: pieces
        | [] => [String c EmptyString]
        end
  end.

(** A list of components without its last one when that one is empty. *)
Fixpoint drop_empty_tail (l : list string) : list string :=
  match l with
  | [] => []
  | x :: l' =>
      match l' with
      | [] => if String.eqb x "" then [] else [x]
      | _ :: _ => x :: drop_empty_tail l'
      end
  end.

(** The text lower-cased character by character. *)
Fixpoint lower (s : string) : string :=
  match s with
  | EmptyString => EmptyString
  | String c s' => String (tolower c) (lower s')
  end.

(** The children of a node called [name], in document order. *)
Definition children_named (name : string) (siblings : list xml_node) : list xml_node :=
  filter (fun c => String.eqb (node_name c) name) siblings.

(** The elements of the three groups of a descriptor's [Parameters] block. *)
Definition parameter_elements (name : string) (node : xml_node) : list xml_node :=
  children_named name (children_of (child (Some node) "Parameters")).

(** One parser run over a list of elements, stopping at the first
    exception. *)
Fixpoint parse_all (parse : xml_node -> result KernelParam) (l : list xml_node)
  : result (list KernelParam) :=
  match l with
  | [] => OK []
  | x :: l' => kp <- parse x ;; kps <- parse_all parse l' ;; OK (kp :: kps)
  end.

(** The type tokens each element kind accepts. *)
Definition type_tokens (element : string) : list string :=
  if String.eqb element "Tensor"
  then ["input"; "output"; "input_buffer"; "output_buffer"; "data"]
  else if String.eqb element "Data" then ["data"; "local_data"]
  else if String.eqb element "Scalar" then ["int"; "float"]
  else [].

(** [x] carries a [type] attribute that is none of its kind's tokens. *)
Definition unrecognized_type (x : xml_node) (typeStr : string) : Prop :=
  attribute (Some x) "type" = Some typeStr
  /\ forallb (fun token => negb (CaselessEq typeStr token)) (type_tokens (node_name x)) = true.

(** The number of parameters of one kind. *)
Definition count_of_type (ty : CustomParamType.t) (params : list KernelParam) : Z :=
  Z.of_nat (List.length (filter (fun p => CustomParamType.eqb (type p) ty) params)).

(** An argument the dispatcher sees: not flagged as generated. *)
Definition visible (md_arg_flags_generated_prepost : Z) (arg : md_kernel_argument_t) : bool :=
  Z.land (flags arg) md_arg_flags_generated_prepost =? 0.

(** The body that [processParametersNode] runs on an element, by the
    element's name. *)
Definition parse_element (attr_to_int : string -> result Z) (x : xml_node)
  : result KernelParam :=
  if String.eqb (node_name x) "Tensor" then parseTensor attr_to_int x
  else if String.eqb (node_name x) "Data" then parseData x
  else parseScalar attr_to_int x.

(** The elements of a [Parameters] block in the order the parser visits
    them: the tensors, the data elements, the scalars. *)
Definition parameter_sequence (node : xml_node) : list xml_node :=
  (parameter_elements "Tensor" node ++ parameter_elements "Data" node
   ++ parameter_elements "Scalar" node)%list.

(** The arguments a kernel declares at the indices below [n], as
    [get_argument] answers them. *)
Definition declared_arguments (parser : md_parser_t) (kernelDesc : md_kernel_descriptor_t)
    (n : nat) : list (option md_kernel_argument_t) :=
  map (fun j => get_argument parser kernelDesc (Z.of_nat j)) (seq 0 n).

(** [k] holds the parameters parsed from [node], and its [_inputDataCount]
    is the number of those of kind Input, InputBuffer or Data. *)
Definition input_data_counted (attr_to_int : string -> result Z) (node : xml_node)
    (k : CustomKernel) : Prop :=
  let inputs := count_of_type CustomParamType.Input (_kernelParams k)
                + count_of_type CustomParamType.InputBuffer (_kernelParams k)
                + count_of_type CustomParamType.Data (_kernelParams k) in
  (exists this0 this1,
      _kernelParams this0 = []
      /\ processParametersNode attr_to_int node this0 = OK this1
      /\ _kernelParams k = _kernelParams this1)
  /\ _inputDataCount k = to_int inputs
  /\ (Z.of_nat (List.length (_kernelParams k)) < 2 ^ 31 -> _inputDataCount k = inputs).

(** The text [std::stoi] reads its digits from: what follows the optional
    sign. *)
Definition after_sign (s : string) : string :=
  match s with
  | String c r =>
      if Ascii.eqb c "-"%char then r
      else if Ascii.eqb c "+"%char then r
      else s
  | EmptyString => s
  end.

(** Whether a digit comes first. *)
Definition starts_with_digit (s : string) : bool :=
  match s with
  | String c _ => isdigit c
  | EmptyString => false
  end.

(* ================================================================== *)
(** ** Sample descriptors, files and binaries *)

Module Samples.

(** An integer conversion for [GetIntAttr]: [std::stoi] on the text. *)
Definition attr_to_int (v : string) : result Z := stoi v.

Definition prepost : Z := 4.

(** An allocator with room for 2^20 strings. *)
Definition allocates (n : Z) : bool := n <=? 1048576.

Definition byte (z : Z) : ascii := ascii_of_N (Z.to_N (z mod 256)).
Definition le16 (z : Z) : string :=
  String (byte z) (String (byte (z / 256)) EmptyString).
Definition le32 (z : Z) : string := le16 z ++ le16 (z / 65536).
Fixpoint zeros (n : nat) : string :=
  match n with
  | O => EmptyString
  | S n' => String zero (zeros n')
  end.

Definition shdr (shName shOffset shSize : Z) : string :=
  le32 shName ++ zeros 12 ++ le32 shOffset ++ le32 shSize ++ zeros 16.

Definition strtab : string :=
  String zero ".neo_metadata" ++ String zero ".neo_metadata.str" ++ String zero "".

(** A 52-byte ELF header, three section headers (the string table, then
    the two metadata sections), the string table and eight bytes of
    section contents. *)
Definition elf_with (contents : string) : string :=
  zeros 28 ++ le32 52 ++ le32 52 ++ zeros 12 ++ le16 3 ++ le16 0
  ++ shdr 0 172 33 ++ shdr 1 205 4 ++ shdr 15 209 4
  ++ strtab ++ contents.

Definition elf : string := elf_with "MDATMSTR".

(** A binary whose metadata describes two kernels. *)
Definition elf_two_kernels : string := elf_with "NDATMSTR".

(** The same binary without the [.neo_metadata] section header. *)
Definition elf_no_metadata : string :=
  zeros 28 ++ le32 52 ++ le32 52 ++ zeros 12 ++ le16 2 ++ le16 0
  ++ shdr 0 132 33 ++ shdr 15 165 4
  ++ strtab ++ "MSTR".

Definition fs (path : string) : option string :=
  if String.eqb path "/cfg/kernel.elf" then Some elf
  else if String.eqb path "/cfg/bare.elf" then Some elf_no_metadata
  else if String.eqb path "/cfg/two.elf" then Some elf_two_kernels
  else None.

Definition kernel_args : list (string * Z) :=
  [ ("A", 0); ("tmp_hoisted", 4); ("B", 1); ("", 0) ].

(** A metadata-query object with [count] kernels, of which kernel 0 is
    called ["entry_kernel"] and reports four arguments: [A], a hoisted
    buffer, [B] and the trailing extra one. *)
Definition parser (count : Z) : md_parser_t :=
  {| get_kernel_id := fun name => if String.eqb name "entry_kernel" then 0 else -1;
     get_kernel_count := count;
     get_kernel := fun id =>
       if id =? 0 then Some {| arg_count := 4; kernel_ref := 0 |} else None;
     get_argument := fun kd i =>
       match nth_error kernel_args (Z.to_nat i) with
       | Some (_, f) => if i <? 0 then None else Some {| flags := f; arg_ref := i |}
       | None => None
       end;
     get_name := fun arg =>
       match nth_error kernel_args (Z.to_nat (arg_ref arg)) with
       | Some (n, _) => n
       | None => ""
       end |}.

(** The number of kernels is the first byte of the metadata section less
    the code of ['L']: one for [elf]. *)
Definition md_parser_new (binary : string) (md mdSize str strSize : Z) : md_parser_t :=
  match load_u8 binary md with
  | OK b => parser (b - 76)
  | Throw _ => parser 0
  end.

Definition tensor (ty name port : string) : xml_node :=
  XmlNode "Tensor" [("type", ty); ("arg-name", name); ("port-index", port)] [].

(** The descriptor of the end-to-end scenario: one input tensor [A], one
    output tensor [B], three-dimensional work sizes. *)
Definition descriptor (file entry : string) : xml_node :=
  XmlNode "CustomLayer" [("entry", entry)]
    [ XmlNode "Source" [("filename", file)] [];
      XmlNode "Parameters" []
        [ tensor "input" "A" "0"; tensor "output" "B" "0" ];
      XmlNode "WorkSizes" [("dim", "input,0"); ("global", "B,H,W"); ("local", "1,1,1")] [] ].

(** A [Data] element of type [data] whose value comes from a [dim]. *)
Definition data_with_dim : xml_node :=
  XmlNode "Data" [("type", "data"); ("arg-name", "shape"); ("dim", "input,2")] [].

Definition local_data_with_dim : xml_node :=
  XmlNode "Data" [("type", "local_data"); ("arg-name", "buf"); ("size", "64");
                  ("dim", "output,1")] [].

Definition data_with_source : xml_node :=
  XmlNode "Data" [("type", "data"); ("arg-name", "weights"); ("source", "I.blob")] [].

(** A block whose groups are interleaved in the document. *)
Definition mixed_parameters : xml_node :=
  XmlNode "CustomLayer" []
    [ XmlNode "Parameters" []
        [ XmlNode "Scalar" [("type", "int"); ("arg-name", "n"); ("source", "I.n")] [];
          data_with_source;
          tensor "output" "dst" "0";
          XmlNode "Comment" [] [];
          local_data_with_dim;
          tensor "input" "src" "0";
          XmlNode "Scalar" [("type", "FLOAT"); ("arg-name", "scale"); ("port-index", "3")] [] ] ].

Definition buffer_tensor (size : string) : xml_node :=
  XmlNode "Tensor" [("type", "input_buffer"); ("arg-name", "tmp"); ("port-index", "1");
                    ("size", size); ("dim", "output,0")] [].

End Samples.


(* ================================================================== *)
(** ** Vocabulary of the further statements *)

(** [std::count(begin(size), end(size), ',')] *)
Fixpoint count_char (c : ascii) (s : string) : nat :=
  match s with
  | EmptyString => O
  | String a s' => ((if Ascii.eqb a c then 1 else 0) + count_char c s')%nat
  end.

(** The argument of [result.reserve] in [parseSizeRule]. *)
Definition parseSizeRule_reserved (size : string) : nat :=
  (count_char ","%char size + 1)%nat.

(** A text without its last character when that one is a comma. *)
Fixpoint chop_comma (s : string) : string :=
  match s with
  | EmptyString => EmptyString
  | String c s' =>
      match s' with
      | EmptyString => if Ascii.eqb c ","%char then EmptyString else s
      | String _ _ => String c (chop_comma s')
      end
  end.

(** The bytes of the binary from [addr] on are the characters of [name]
    and a terminating zero. *)
Fixpoint c_string_at (elf_data : string) (addr : Z) (name : string) : Prop :=
  match name with
  | EmptyString => load_u8 elf_data addr = OK 0
  | String c rest =>
      load_u8 elf_data addr = OK (Z.of_N (N_of_ascii c))
      /\ c_string_at elf_data (addr + 1) rest
  end.

(** Section header [i] of the table at [shdr] is called [name] in the
    string table at [firstStr]. *)
Definition section_named (elf_data : string) (shdr firstStr : Z) (i : Z) (name : string)
  : Prop :=
  exists shName,
    load_u32 elf_data (shdr + sizeof_Elf32Shdr * i + Elf32Shdr_shName) = OK shName
    /\ c_string_at elf_data (firstStr + shName) name.

(** What the section walk reads of the header: the offset of the section
    header table, the offset of the section-name string table and the
    number of sections. *)
Definition section_table (elf_data : string) (shdr firstStr eShnum : Z) : Prop :=
  load_u32 elf_data Elf32Ehdr_eShoff = OK shdr
  /\ (exists eShstrndx,
         load_u16 elf_data Elf32Ehdr_eShstrndx = OK eShstrndx
         /\ load_u32 elf_data (shdr + sizeof_Elf32Shdr * eShstrndx + Elf32Shdr_shOffset)
            = OK firstStr)
  /\ load_u16 elf_data Elf32Ehdr_eShnum = OK eShnum.

Definition is_buffer (kp : KernelParam) : bool :=
  CustomParamType.eqb (type kp) CustomParamType.InputBuffer
  || CustomParamType.eqb (type kp) CustomParamType.OutputBuffer.

(** The sources of a parameter's value do not overlap: a parameter with
    an [irSource] has no dimension source, one without a dimension source
    has the index -1, the index is an [int], and only buffers and local
    data carry a dimension source or a buffer size rule. *)
Definition dimension_consistent (kp : KernelParam) : Prop :=
  (irSource kp <> "" -> dimSource kp = None)
  /\ (dimSource kp = None -> dimIdx kp = -1)
  /\ INT_MIN <= dimIdx kp <= INT_MAX
  /\ (dimSource kp <> None \/ bufferSizeRule kp <> "" ->
      is_buffer kp = true \/ type kp = CustomParamType.LocalData).

(** The format is one of the table's, and a buffer has a dimension
    source, no [irSource] and a size rule free of commas. *)
Definition buffer_complete (kp : KernelParam) : Prop :=
  format kp <> CustomDataFormat.None
  /\ (is_buffer kp = true ->
      dimSource kp <> None /\ irSource kp = ""
      /\ find_first_of (bufferSizeRule kp) ","%char = None).

(** The decimal numeral of a natural number. *)
Definition decimal (n : nat) : string := NilZero.string_of_uint (Nat.to_uint n).

Module MoreSamples.

Definition scalar_default : xml_node :=
  XmlNode "Scalar" [("type", "Float"); ("arg-name", "alpha")] [].

Definition scalar_full : xml_node :=
  XmlNode "Scalar" [("type", "int"); ("arg-name", "axis"); ("port-index", "2");
                    ("source", "I.axis")] [].

(** A descriptor whose kernel file is missing and whose [Parameters] block
    is broken as well. *)
Definition missing_file : xml_node :=
  XmlNode "CustomLayer" [("max-shaves", "4")]
    [ XmlNode "Source" [("filename", "missing.cl")] [];
      XmlNode "Parameters" [] [Samples.tensor "bogus" "A" "0"] ].

(** A native-kernel descriptor: no [entry], no [global] and [local]. *)
Definition native : xml_node :=
  XmlNode "CustomLayer" [("max-shaves", "4")]
    [ XmlNode "Source" [("filename", "kernel.elf")] [];
      XmlNode "Parameters" []
        [ XmlNode "Scalar" [("type", "int"); ("arg-name", "G"); ("source", "I.group")] [];
          Samples.tensor "input" "src" "0";
          Samples.local_data_with_dim;
          Samples.tensor "output" "dst" "0" ];
      XmlNode "WorkSizes" [("dim", "output,1")] [] ].

(** Two [Parameters] blocks: the second one is broken. *)
Definition two_blocks : xml_node :=
  XmlNode "CustomLayer" []
    [ XmlNode "Parameters" [] [Samples.tensor "input" "src" "0"];
      XmlNode "Parameters" [] [Samples.tensor "bogus" "A" "0"] ].

(** A metadata-query object whose only kernel reports an argument count
    of zero. *)
Definition parser_zero_args : md_parser_t :=
  {| get_kernel_id := fun _ => 0;
     get_kernel_count := 1;
     get_kernel := fun _ => Some {| arg_count := 0; kernel_ref := 0 |};
     get_argument := fun _ _ => None;
     get_name := fun _ => "" |}.

End MoreSamples.

(* ================================================================== *)
(** ** custom_cpp_kernels/shuffle_channels.cpp *)

Module ShuffleChannels.

(** Arithmetic on [int]: a result outside the type and a division by zero
    are undefined, [None]. *)
Definition int_of (z : Z) : option Z :=
  if (INT_MIN <=? z) && (z <=? INT_MAX) then Some z else None.

Definition idiv (a b : Z) : option Z :=
  if b =? 0 then None else int_of (Z.quot a b).

Definition irem (a b : Z) : option Z :=
  if b =? 0 then None
  else match int_of (Z.quot a b) with
       | Some _ => Some (Z.rem a b)
       | None => None
       end.

Definition obind {A B : Type} (o : option A) (k : A -> option B) : option B :=
  match o with
  | Some a => k a
  | None => None
  end.

Notation "'let?' x ':=' c 'in' k" := (obind c (fun x => k))
  (at level 10, x name, c at level 100, k at level 200).

Definition NUM_SHAVES : Z := 16.

(** The channels [start, end) that the lane [shave_id] works on: the first
    statements of [ShuffleChannel]. *)
Definition lane_range (C shave_id : Z) : option (Z * Z) :=
  let? chunk := idiv C NUM_SHAVES in
  let? chunk :=
    (if shave_id =? NUM_SHAVES - 1
     then let? r := irem C NUM_SHAVES in int_of (chunk + r)
     else Some chunk) in
  let? start := int_of (shave_id * chunk) in
  let? end_ := int_of (start + chunk) in
  Some (start, end_).

(** [cy*CX*H*W] and [cx*H*W], the two products of the source offset, and
    [cx*CY*H*W] and [cy*H*W], those of the destination offset. *)
Definition product3 (a b c d : Z) : option Z :=
  let? t := int_of (a * b) in
  let? t := int_of (t * c) in
  int_of (t * d).

Definition product2 (a b c : Z) : option Z :=
  let? t := int_of (a * b) in
  int_of (t * c).

Section Kernel.

(** The element type, a 16-bit float the kernel only moves. *)
Variable half : Type.

(** A buffer, by element index from its pointer. *)
Definition buffer : Type := Z -> half.

Definition store (m : buffer) (i : Z) (v : half) : buffer :=
  fun j => if j =? i then v else m j.

(** [dst_line[i] = src_line[i]] on [half8] lines that start at the element
    offsets [doff] and [soff]: eight elements move. *)
Definition copy_half8 (src dst : buffer) (soff doff i : Z) : buffer :=
  fold_left (fun m k => store m (doff + 8 * i + k) (src (soff + 8 * i + k)))
            [0; 1; 2; 3; 4; 5; 6; 7] dst.

(** [for (int i = 0; i < W*H/8; i++) dst_line[i] = src_line[i];], [n]
    rounds from [i]. *)
Fixpoint vector_loop (n : nat) (i : Z) (src dst : buffer) (soff doff : Z) : buffer :=
  match n with
  | O => dst
  | S n' => vector_loop n' (i + 1) src (copy_half8 src dst soff doff i) soff doff
  end.

(** [for (int i = W*H/8*8; i < W*H; i++)
       dst_data[cx*CY*H*W + cy*H*W + i] = src_data[cy*CX*H*W + cx*H*W + i];],
    [n] rounds from [i]. *)
Fixpoint tail_loop (n : nat) (i : Z) (src dst : buffer) (CX CY cx cy H W : Z)
  : option buffer :=
  match n with
  | O => Some dst
  | S n' =>
      let? d1 := product3 cx CY H W in
      let? d2 := product2 cy H W in
      let? d := int_of (d1 + d2) in
      let? d := int_of (d + i) in
      let? s1 := product3 cy CX H W in
      let? s2 := product2 cx H W in
      let? s := int_of (s1 + s2) in
      let? s := int_of (s + i) in
      tail_loop n' (i + 1) src (store dst d (src s)) CX CY cx cy H W
  end.

(** The body of the loop over the channels. *)
Definition channel_body (src dst : buffer) (C H W G c : Z) : option buffer :=
  let? CX := idiv C G in
  let CY := G in
  let? cy := irem c G in
  let? cx := idiv c G in
  let? s1 := product3 cy CX H W in
  let? s2 := product2 cx H W in
  let? d1 := product3 cx CY H W in
  let? d2 := product2 cy H W in
  let? WH := int_of (W * H) in
  let? n := idiv WH 8 in
  let dst := vector_loop (Z.to_nat n) 0 src dst (s1 + s2) (d1 + d2) in
  let? i0 := int_of (n * 8) in
  tail_loop (Z.to_nat (WH - i0)) i0 src dst CX CY cx cy H W.

(** [for (int c = start; c < end; c++)], [n] rounds from [c]. *)
Fixpoint channel_loop (n : nat) (c : Z) (src dst : buffer) (C H W G : Z) : option buffer :=
  match n with
  | O => Some dst
  | S n' =>
      let? dst := channel_body src dst C H W G c in
      channel_loop n' (c + 1) src dst C H W G
  end.

(** [ShuffleChannel]: what lane [shave_id] leaves in [dst_data]. *)
Definition ShuffleChannel (src_data dst_data : buffer) (C H W G shave_id : Z)
  : option buffer :=
  let? range := lane_range C shave_id in
  channel_loop (Z.to_nat (snd range - fst range)) (fst range) src_data dst_data C H W G.

End Kernel.

(** The source plane that destination plane [c] is copied from. *)
Definition source_plane (C G c : Z) : Z := (c mod G) * (C / G) + c / G.

End ShuffleChannels.

(* ================================================================== *)
(** ** The error monad *)

Lemma bind_OK_inv {A B : Type} (r : result A) (k : A -> result B) (b : B) :
  bind r k = OK b -> exists a, r = OK a /\ k a = OK b.
Proof.
  destruct r as [a | e]; simpl; intros H.
  - exists a; split; [reflexivity | exact H].
  - discriminate H.
Qed.

Lemma fails_with_Throw {A : Type} (e : exception) (k : ErrorKind) :
  kind_of e = k -> fails_with (@Throw A e) k.
Proof. intros H; exists e; split; [reflexivity | exact H]. Qed.

(** Inversion of one successful [bind] in hypothesis [H]. *)
Tactic Notation "bind_inv" hyp(H) "as" simple_intropattern(x) simple_intropattern(Hx) :=
  apply bind_OK_inv in H; destruct H as (x & Hx & H).

(* ================================================================== *)
(** ** parseSizeRule *)

Lemma read_until_length (delim : ascii) (s line rest : string) :
  read_until delim s = (line, Some rest) ->
  (String.length rest < String.length s)%nat.
Proof.
  revert line rest; induction s as [| c s IH]; simpl; intros line rest H.
  - discriminate H.
  - destruct (Ascii.eqb c delim).
    + inversion H; subst; lia.
    + destruct (read_until delim s) as [l r] eqn:E.
      inversion H; subst.
      specialize (IH l rest eq_refl); lia.
Qed.

Lemma split_on_commas_spec_nonempty (s : string) : split_on_commas_spec s <> [].
Proof.
  destruct s as [| c s]; simpl; [discriminate |].
  destruct (Ascii.eqb c ","%char); [discriminate |].
  destruct (split_on_commas_spec s); discriminate.
Qed.

(** The split of the specification, read off one extraction. *)
Lemma split_on_commas_spec_read_until (s : string) :
  split_on_commas_spec s =
  match read_until ","%char s with
  | (line, Some rest) => line :: split_on_commas_spec rest
  | (line, None) => [line]
  end.
Proof.
  induction s as [| c s IH]; simpl; [reflexivity |].
  destruct (Ascii.eqb c ","%char); [reflexivity |].
  rewrite IH.
  destruct (read_until ","%char s) as [line [rest |]]; reflexivity.
Qed.

Lemma read_until_None_empty (delim : ascii) (s : string) :
  read_until delim s = (EmptyString, None) -> s = EmptyString.
Proof.
  destruct s as [| c s]; simpl; [reflexivity |].
  destruct (Ascii.eqb c delim); [discriminate |].
  destruct (read_until delim s); discriminate.
Qed.

(** What the loop appends to [result], for any fuel that is enough. *)
Lemma parseSizeRule_loop_spec (fuel : nat) :
  forall (s : string) (result : list string),
    (String.length s + 2 <= fuel)%nat ->
    parseSizeRule_loop fuel (mkIstream s false false) result
    = (result ++ drop_empty_tail (split_on_commas_spec s))%list.
Proof.
  induction fuel as [| fuel IH]; intros s result Hfuel; [lia |].
  rewrite split_on_commas_spec_read_until.
  cbn [parseSizeRule_loop getline eofbit failbit pending orb].
  destruct (read_until ","%char s) as [line [rest |]] eqn:E.
  - cbn [failbit].
    pose proof (read_until_length _ _ _ _ E) as Hlen.
    rewrite IH by lia.
    rewrite <- app_assoc. simpl.
    destruct (split_on_commas_spec rest) eqn:Es.
    + exfalso; exact (split_on_commas_spec_nonempty rest Es).
    + reflexivity.
  - cbn [failbit].
    destruct line as [| c line].
    + simpl. rewrite app_nil_r. reflexivity.
    + simpl. destruct fuel as [| fuel]; [lia |].
      reflexivity.
Qed.

(** The fuel of [parseSizeRule] is enough: more of it changes nothing. *)
Lemma parseSizeRule_loop_fuel (fuel : nat) (size : string) :
  (String.length size + 2 <= fuel)%nat ->
  parseSizeRule_loop fuel (mkIstream size false false) [] = parseSizeRule size.
Proof.
  intros H. unfold parseSizeRule.
  rewrite !parseSizeRule_loop_spec by lia. reflexivity.
Qed.

Lemma parseSizeRule_drop_empty_tail (size : string) :
  parseSizeRule size = drop_empty_tail (split_on_commas_spec size).
Proof.
  unfold parseSizeRule. rewrite parseSizeRule_loop_spec by lia. reflexivity.
Qed.

(** Joining the components of the specification's split with commas gives
    the text back: the components are the text's own characters. *)
Lemma concat_split_on_commas_spec (s : string) :
  String.concat "," (split_on_commas_spec s) = s.
Proof.
  induction s as [| c s IH]; [reflexivity |].
  simpl split_on_commas_spec.
  destruct (Ascii.eqb c ","%char) eqn:Ec.
  - apply Ascii.eqb_eq in Ec; subst c.
    pose proof (split_on_commas_spec_nonempty s) as Hne.
    destruct (split_on_commas_spec s) as [| p ps] eqn:E; [contradiction |].
    cbn [String.concat]. cbn [String.concat] in IH.
    destruct ps; simpl in *; rewrite IH; reflexivity.
  - pose proof (split_on_commas_spec_nonempty s) as Hne.
    destruct (split_on_commas_spec s) as [| p ps] eqn:E; [contradiction |].
    cbn [String.concat] in *.
    destruct ps; simpl in *; rewrite IH; reflexivity.
Qed.

(** C2 as the specification words it fails on a text that ends in a comma:
    [std::getline] reports no component after the last comma. *)
Lemma parseSizeRule_trailing_comma_dropped :
  parseSizeRule "a," = ["a"]
  /\ split_on_commas_spec "a," = ["a"; ""]
  /\ ~ (forall size : string, parseSizeRule size = split_on_commas_spec size).
Proof.
  split; [reflexivity | split; [reflexivity |]].
  intros H. specialize (H "a,"). vm_compute in H. discriminate H.
Qed.

(** C2 (amended): [parseSizeRule] yields, in order and verbatim, the
    components of the comma split of its argument, empty components at the
    front and in the middle included, but it leaves out the last component
    when that one is empty (the text is empty or ends in a comma); and
    [parseSizeRule "1,H,W" = ["1"; "H"; "W"]], [parseSizeRule "X" = ["X"]]. *)
Theorem parseSizeRule_split :
  (forall size : string,
      parseSizeRule size = drop_empty_tail (split_on_commas_spec size))
  /\ parseSizeRule "1,H,W" = ["1"; "H"; "W"]
  /\ parseSizeRule "X" = ["X"]
  /\ parseSizeRule ",a,,b" = [""; "a"; ""; "b"]
  /\ parseSizeRule " a , b" = [" a "; " b"]
  /\ parseSizeRule "" = [].
Proof.
  split; [exact parseSizeRule_drop_empty_tail |].
  repeat split; reflexivity.
Qed.

(* ================================================================== *)
(** ** Case-insensitive comparison *)

Lemma ascii_eqb_nat (x y : ascii) :
  Ascii.eqb x y = (nat_of_ascii x =? nat_of_ascii y)%nat.
Proof.
  destruct (Ascii.eqb_spec x y) as [-> | Hne].
  - symmetry; apply Nat.eqb_refl.
  - symmetry; apply Nat.eqb_neq. intros H; apply Hne.
    rewrite <- (ascii_nat_embedding x), <- (ascii_nat_embedding y), H.
    reflexivity.
Qed.

Lemma lower_length (s : string) : String.length (lower s) = String.length s.
Proof. induction s as [| c s IH]; simpl; [reflexivity | now rewrite IH]. Qed.

Lemma std_equal_tolower_lower (a b : string) :
  String.length a = String.length b ->
  std_equal_tolower a b = String.eqb (lower a) (lower b).
Proof.
  revert b; induction a as [| x a IH]; intros [| y b] Hlen; simpl in *;
    try reflexivity; try discriminate.
  rewrite IH by lia. reflexivity.
Qed.

(** [CaselessEq] compares the lower-cased texts. *)
Lemma CaselessEq_lower (a b : string) :
  CaselessEq a b = String.eqb (lower a) (lower b).
Proof.
  unfold CaselessEq.
  destruct (Nat.eqb_spec (String.length a) (String.length b)) as [Hlen | Hlen]; simpl.
  - apply std_equal_tolower_lower; exact Hlen.
  - symmetry; apply String.eqb_neq. intros H; apply Hlen.
    rewrite <- (lower_length a), <- (lower_length b), H. reflexivity.
Qed.

Lemma CaselessEq_true (a b : string) : CaselessEq a b = true <-> lower a = lower b.
Proof. rewrite CaselessEq_lower. apply String.eqb_eq. Qed.

Lemma CaselessEq_false (a b : string) : CaselessEq a b = false <-> lower a <> lower b.
Proof. rewrite CaselessEq_lower. apply String.eqb_neq. Qed.

Lemma CaselessEq_length (a b : string) :
  CaselessEq a b = true -> String.length a = String.length b.
Proof.
  unfold CaselessEq. intros H. apply andb_prop in H. destruct H as [H _].
  apply Nat.eqb_eq; exact H.
Qed.

(** Two keys are equivalent in the order of a [caseless_map] exactly when
    [CaselessEq] holds of them. *)
Lemma CaselessLess_equiv (a b : string) :
  negb (CaselessLess a b) && negb (CaselessLess b a) = CaselessEq a b.
Proof.
  rewrite CaselessEq_lower.
  revert b; induction a as [| x a IH]; intros [| y b]; simpl; try reflexivity.
  rewrite ascii_eqb_nat.
  destruct (Nat.ltb_spec (nat_of_ascii (tolower x)) (nat_of_ascii (tolower y))) as [H1 | H1];
    destruct (Nat.ltb_spec (nat_of_ascii (tolower y)) (nat_of_ascii (tolower x))) as [H2 | H2];
    destruct (Nat.eqb_spec (nat_of_ascii (tolower x)) (nat_of_ascii (tolower y))) as [H3 | H3];
    simpl; try lia; try reflexivity.
  apply IH.
Qed.

Lemma caseless_map_find_lower {V : Type} (m : list (string * V)) (k k' : string) :
  lower k = lower k' -> caseless_map_find m k = caseless_map_find m k'.
Proof.
  intros H. induction m as [| [key v] m IH]; simpl; [reflexivity |].
  rewrite !CaselessLess_equiv, !CaselessEq_lower, H, IH. reflexivity.
Qed.

Lemma caseless_map_find_Some {V : Type} (m : list (string * V)) (k : string) (v : V) :
  caseless_map_find m k = Some v ->
  exists key, In (key, v) m /\ CaselessEq k key = true.
Proof.
  induction m as [| [key v'] m IH]; simpl; [discriminate |].
  rewrite CaselessLess_equiv.
  destruct (CaselessEq key k) eqn:E.
  - intros H; inversion H; subst. exists key. split; [now left |].
    apply CaselessEq_true. symmetry. apply CaselessEq_true. exact E.
  - intros H. destruct (IH H) as (key' & Hin & Heq).
    exists key'. split; [now right | exact Heq].
Qed.

Lemma caseless_map_find_None {V : Type} (m : list (string * V)) (k : string) :
  (forall key v, In (key, v) m -> CaselessEq k key = false) ->
  caseless_map_find m k = None.
Proof.
  induction m as [| [key v'] m IH]; simpl; intros H; [reflexivity |].
  rewrite CaselessLess_equiv.
  assert (E : CaselessEq key k = false).
  { apply CaselessEq_false. intros Heq.
    specialize (H key v' (or_introl eq_refl)).
    apply CaselessEq_false in H. apply H. symmetry; exact Heq. }
  rewrite E. apply IH. intros key' v Hin. apply (H key' v). now right.
Qed.

(* ================================================================== *)
(** ** formatFromString *)

Lemma formatFromString_table (str name : string) (f : CustomDataFormat.t) :
  In (name, f) FormatNameToType -> CaselessEq str name = true ->
  formatFromString str = OK f.
Proof.
  intros Hin Heq. apply CaselessEq_true in Heq.
  unfold formatFromString. rewrite (caseless_map_find_lower _ _ _ Heq).
  simpl in Hin.
  repeat (destruct Hin as [Hin | Hin]; [inversion Hin; subst; reflexivity |]).
  contradiction.
Qed.

Lemma formatFromString_OK_inv (str : string) (f : CustomDataFormat.t) :
  formatFromString str = OK f ->
  exists name, In (name, f) FormatNameToType /\ CaselessEq str name = true.
Proof.
  unfold formatFromString.
  destruct (caseless_map_find FormatNameToType str) as [f' |] eqn:E; [| discriminate].
  intros H; inversion H; subst. apply caseless_map_find_Some; exact E.
Qed.

Lemma formatFromString_unmatched (str : string) :
  (forall name f, In (name, f) FormatNameToType -> CaselessEq str name = false) ->
  formatFromString str = Throw (InvalidFormat str).
Proof.
  intros H. unfold formatFromString.
  rewrite (caseless_map_find_None _ _ H). reflexivity.
Qed.

(* ================================================================== *)
(** ** The loop bodies of processParametersNode *)

Lemma GetStrAttr_OK (h : xml_handle) (str v : string) :
  GetStrAttr h str = OK v <-> attribute h str = Some v.
Proof.
  unfold GetStrAttr. destruct (attribute h str) as [w |]; split; intros H;
    inversion H; subst; reflexivity.
Qed.

Section Bodies.

Variable attr_to_int : string -> result Z.

(** What a successful run of the [Tensor] body has read and stored. *)
Lemma parseTensor_OK_inv (tensor : xml_node) (kp : KernelParam) :
  parseTensor attr_to_int tensor = OK kp ->
  exists typeStr fmt name port,
    attribute (Some tensor) "type" = Some typeStr
    /\ formatFromString (GetStrAttr_def (Some tensor) "format" "BFYX") = OK fmt
    /\ attribute (Some tensor) "arg-name" = Some name
    /\ GetIntAttr attr_to_int (Some tensor) "port-index" = OK port
    /\ format kp = fmt /\ argName kp = name /\ portIndex kp = port
    /\ irSource kp = ""
    /\ ((((lower typeStr = "input" /\ type kp = CustomParamType.Input)
          \/ (lower typeStr = "output" /\ type kp = CustomParamType.Output)
          \/ (lower typeStr = "data" /\ type kp = CustomParamType.Data))
         /\ bufferSizeRule kp = "" /\ dimSource kp = None /\ dimIdx kp = -1)
        \/ (((lower typeStr = "input_buffer" /\ type kp = CustomParamType.InputBuffer)
             \/ (lower typeStr = "output_buffer" /\ type kp = CustomParamType.OutputBuffer))
            /\ exists sizeRule dimString d,
                attribute (Some tensor) "size" = Some sizeRule
                /\ nth_error (parseSizeRule sizeRule) 0 = Some (bufferSizeRule kp)
                /\ attribute (Some tensor) "dim" = Some dimString
                /\ parseDimSource dimString = OK d
                /\ dimSource kp = Some (fst d) /\ dimIdx kp = snd d)).
Proof.
  unfold parseTensor. intros H.
  bind_inv H as typeStr Htype.
  apply GetStrAttr_OK in Htype.
  bind_inv H as kp1 Hkp1.
  bind_inv H as kp2 Hkp2.
  bind_inv H as fmt Hfmt.
  bind_inv H as name Hname.
  apply GetStrAttr_OK in Hname.
  bind_inv H as port Hport.
  inversion H; subst kp; clear H.
  exists typeStr, fmt, name, port.
  repeat (split; [first [assumption | reflexivity] |]).
  cbn [irSource bufferSizeRule dimSource dimIdx type set_portIndex set_argName set_format].
  destruct (CaselessEq typeStr "input") eqn:E1;
    [| destruct (CaselessEq typeStr "output") eqn:E2;
       [| destruct (CaselessEq typeStr "input_buffer") eqn:E3;
          [| destruct (CaselessEq typeStr "output_buffer") eqn:E4;
             [| destruct (CaselessEq typeStr "data") eqn:E5; [| discriminate Hkp1]]]]];
    inversion Hkp1; subst kp1; clear Hkp1; cbn in Hkp2.
  - inversion Hkp2; subst kp2. apply CaselessEq_true in E1.
    split; [reflexivity |]. left. cbn. tauto.
  - inversion Hkp2; subst kp2. apply CaselessEq_true in E2.
    split; [reflexivity |]. left. cbn. tauto.
  - apply CaselessEq_true in E3.
    bind_inv Hkp2 as sizeRule Hsize.
    apply GetStrAttr_OK in Hsize.
    bind_inv Hkp2 as first Hfirst.
    bind_inv Hkp2 as dimString Hdim.
    apply GetStrAttr_OK in Hdim.
    bind_inv Hkp2 as d Hd.
    inversion Hkp2; subst kp2; clear Hkp2.
    split; [reflexivity |]. right. split; [left; split; [exact E3 | reflexivity] |].
    exists sizeRule, dimString, d. cbn.
    unfold vector_at in Hfirst.
    destruct (nth_error (parseSizeRule sizeRule) 0) eqn:En; [| discriminate].
    inversion Hfirst; subst. tauto.
  - apply CaselessEq_true in E4.
    bind_inv Hkp2 as sizeRule Hsize.
    apply GetStrAttr_OK in Hsize.
    bind_inv Hkp2 as first Hfirst.
    bind_inv Hkp2 as dimString Hdim.
    apply GetStrAttr_OK in Hdim.
    bind_inv Hkp2 as d Hd.
    inversion Hkp2; subst kp2; clear Hkp2.
    split; [reflexivity |]. right. split; [right; split; [exact E4 | reflexivity] |].
    exists sizeRule, dimString, d. cbn.
    unfold vector_at in Hfirst.
    destruct (nth_error (parseSizeRule sizeRule) 0) eqn:En; [| discriminate].
    inversion Hfirst; subst. tauto.
  - inversion Hkp2; subst kp2. apply CaselessEq_true in E5.
    split; [reflexivity |]. left. cbn. tauto.
Qed.

End Bodies.

(** What a successful run of the [Data] body has read and stored. *)
Lemma parseData_OK_inv (data : xml_node) (kp : KernelParam) :
  parseData data = OK kp ->
  let source := GetStrAttr_def (Some data) "source" "" in
  let dimString := GetStrAttr_def (Some data) "dim" "" in
  exists typeStr name,
    attribute (Some data) "type" = Some typeStr
    /\ attribute (Some data) "arg-name" = Some name
    /\ argName kp = name /\ irSource kp = source
    /\ format kp = CustomDataFormat.Any /\ portIndex kp = -1
    /\ ((source <> "" /\ dimString = "") \/ (source = "" /\ dimString <> ""))
    /\ ((lower typeStr = "data" /\ type kp = CustomParamType.Data
         /\ bufferSizeRule kp = "" /\ dimSource kp = None /\ dimIdx kp = -1)
        \/ (lower typeStr = "local_data" /\ type kp = CustomParamType.LocalData
            /\ bufferSizeRule kp = GetStrAttr_def (Some data) "size" ""
            /\ ((dimString = "" /\ dimSource kp = None /\ dimIdx kp = -1)
                \/ (dimString <> ""
                    /\ exists d, parseDimSource dimString = OK d
                                 /\ dimSource kp = Some (fst d) /\ dimIdx kp = snd d)))).
Proof.
  intros H source dimString. unfold parseData in H.
  bind_inv H as typeStr Htype.
  apply GetStrAttr_OK in Htype.
  bind_inv H as kp1 Hkp1.
  bind_inv H as name Hname.
  apply GetStrAttr_OK in Hname.
  fold source dimString in H.
  cbn [irSource set_irSource] in H.
  exists typeStr, name.
  destruct (String.eqb_spec source "") as [Hs | Hs];
    destruct (String.eqb_spec dimString "") as [Hd | Hd];
    cbn [andb negb] in H; try discriminate H.
  - (* dim only *)
    destruct (CaselessEq typeStr "data") eqn:E1;
      [| destruct (CaselessEq typeStr "local_data") eqn:E2; [| discriminate Hkp1]];
      inversion Hkp1; subst kp1; clear Hkp1; cbn in H.
    + inversion H; subst kp; clear H. apply CaselessEq_true in E1. cbn.
      repeat (split; [first [assumption | reflexivity] |]).
      split; [right; split; assumption |]. left. tauto.
    + bind_inv H as d Hdim.
      inversion H; subst kp; clear H. apply CaselessEq_true in E2. cbn.
      repeat (split; [first [assumption | reflexivity] |]).
      split; [right; split; assumption |]. right.
      repeat (split; [first [assumption | reflexivity] |]).
      right. split; [assumption |]. exists d. tauto.
  - (* source only *)
    destruct (CaselessEq typeStr "data") eqn:E1;
      [| destruct (CaselessEq typeStr "local_data") eqn:E2; [| discriminate Hkp1]];
      inversion Hkp1; subst kp1; clear Hkp1; cbn in H;
      inversion H; subst kp; clear H; cbn.
    + apply CaselessEq_true in E1.
      repeat (split; [first [assumption | reflexivity] |]).
      split; [left; split; assumption |]. left. tauto.
    + apply CaselessEq_true in E2.
      repeat (split; [first [assumption | reflexivity] |]).
      split; [left; split; assumption |]. right.
      repeat (split; [first [assumption | reflexivity] |]).
      left. tauto.
Qed.

(* ================================================================== *)
(** ** The loops of processParametersNode *)

Lemma parse_all_OK_iff (parse : xml_node -> result KernelParam)
    (l : list xml_node) (kps : list KernelParam) :
  parse_all parse l = OK kps <-> Forall2 (fun x kp => parse x = OK kp) l kps.
Proof.
  revert kps; induction l as [| x l IH]; intros kps; simpl.
  - split; intros H.
    + inversion H; constructor.
    + inversion H; reflexivity.
  - split; intros H.
    + bind_inv H as kp Hkp.
      apply bind_OK_inv in H. destruct H as (kps' & Hkps & H).
      inversion H; subst. constructor; [exact Hkp | apply IH; exact Hkps].
    + inversion H as [| x' kp l' kps' Hkp Hrest]; subst.
      rewrite Hkp. simpl. apply IH in Hrest. rewrite Hrest. reflexivity.
Qed.

Lemma parse_all_length (parse : xml_node -> result KernelParam)
    (l : list xml_node) (kps : list KernelParam) :
  parse_all parse l = OK kps -> List.length kps = List.length l.
Proof.
  intros H. apply parse_all_OK_iff in H.
  induction H; simpl; [reflexivity | now f_equal].
Qed.

Lemma parse_all_app (parse : xml_node -> result KernelParam) (l1 l2 : list xml_node) :
  parse_all parse (l1 ++ l2) =
  (a <- parse_all parse l1 ;; b <- parse_all parse l2 ;; OK (a ++ b)%list).
Proof.
  induction l1 as [| x l1 IH]; simpl.
  - destruct (parse_all parse l2); reflexivity.
  - destruct (parse x) as [kp | e]; simpl; [| reflexivity].
    rewrite IH.
    destruct (parse_all parse l1) as [a | e]; simpl; [| reflexivity].
    destruct (parse_all parse l2) as [b | e]; reflexivity.
Qed.

Lemma parse_all_ext (parse parse' : xml_node -> result KernelParam) (l : list xml_node) :
  (forall x, In x l -> parse x = parse' x) ->
  parse_all parse l = parse_all parse' l.
Proof.
  induction l as [| x l IH]; intros H; simpl; [reflexivity |].
  rewrite (H x (or_introl eq_refl)), IH; [reflexivity |].
  intros y Hy; apply H; now right.
Qed.

(** An element that throws makes the whole run throw. *)
Lemma parse_all_Throw (parse : xml_node -> result KernelParam)
    (l : list xml_node) (x : xml_node) (e : exception) :
  In x l -> parse x = Throw e -> exists e', parse_all parse l = Throw e'.
Proof.
  induction l as [| y l IH]; intros Hin Hx; [contradiction |]. simpl.
  destruct (parse y) as [kp | e1] eqn:Ey; simpl; [| now exists e1].
  destruct Hin as [-> | Hin]; [congruence |].
  destruct (IH Hin Hx) as (e' & He'). rewrite He'. now exists e'.
Qed.

(** The first element that throws decides the exception. *)
Lemma parse_all_first_Throw (parse : xml_node -> result KernelParam)
    (pre post : list xml_node) (x : xml_node) (e : exception) :
  Forall (fun y => succeeds (parse y) = true) pre -> parse x = Throw e ->
  parse_all parse (pre ++ x :: post) = Throw e.
Proof.
  intros Hpre Hx. induction Hpre as [| y pre Hy Hpre IH]; simpl.
  - rewrite Hx. reflexivity.
  - destruct (parse y) as [kp | e1]; [| discriminate Hy]. simpl.
    rewrite IH. reflexivity.
Qed.

Lemma set_kernelParams_twice (this : CustomKernel) (l1 l2 : list KernelParam) :
  set_kernelParams (set_kernelParams this l1) l2 = set_kernelParams this l2.
Proof. reflexivity. Qed.

(** A loop over the elements called [name] is one run of the body over
    them in document order, the parameters being appended. *)
Lemma for_each_named_push (parse : xml_node -> result KernelParam) (name : string)
    (siblings : list xml_node) :
  forall this : CustomKernel,
    for_each_named name siblings (push_param parse) this =
    (kps <- parse_all parse (children_named name siblings) ;;
     OK (set_kernelParams this (_kernelParams this ++ kps))).
Proof.
  induction siblings as [| x rest IH]; intros this; simpl.
  - destruct this; unfold set_kernelParams; simpl. rewrite app_nil_r. reflexivity.
  - destruct (String.eqb (node_name x) name); [| apply IH]. simpl.
    unfold push_param at 1.
    destruct (parse x) as [kp | e]; simpl; [| reflexivity].
    rewrite IH.
    destruct (parse_all parse (children_named name rest)) as [kps | e]; simpl;
      [| reflexivity].
    rewrite <- app_assoc. reflexivity.
Qed.

Lemma children_named_name (name : string) (siblings : list xml_node) (x : xml_node) :
  In x (children_named name siblings) -> node_name x = name.
Proof.
  unfold children_named. intros H. apply filter_In in H.
  destruct H as [_ H]. apply String.eqb_eq; exact H.
Qed.

Section Loops.

Variable attr_to_int : string -> result Z.

(** [processParametersNode] is three runs, over the tensors, the data
    elements and the scalars, whose parameters are appended in turn. *)
Lemma processParametersNode_groups (node : xml_node) (this : CustomKernel) :
  processParametersNode attr_to_int node this =
  (pt <- parse_all (parseTensor attr_to_int) (parameter_elements "Tensor" node) ;;
   pd <- parse_all parseData (parameter_elements "Data" node) ;;
   ps <- parse_all (parseScalar attr_to_int) (parameter_elements "Scalar" node) ;;
   OK (set_kernelParams this (_kernelParams this ++ pt ++ pd ++ ps))).
Proof.
  unfold processParametersNode, parameter_elements.
  rewrite for_each_named_push.
  destruct (parse_all (parseTensor attr_to_int) _) as [pt | e]; simpl; [| reflexivity].
  rewrite for_each_named_push.
  destruct (parse_all parseData _) as [pd | e]; simpl; [| reflexivity].
  rewrite for_each_named_push.
  destruct (parse_all (parseScalar attr_to_int) _) as [ps | e]; simpl; [| reflexivity].
  rewrite <- !app_assoc. reflexivity.
Qed.

Lemma parse_element_group (name : string) (node : xml_node)
    (parse : xml_node -> result KernelParam) :
  (forall x, node_name x = name -> parse_element attr_to_int x = parse x) ->
  parse_all parse (parameter_elements name node)
  = parse_all (parse_element attr_to_int) (parameter_elements name node).
Proof.
  intros H. apply parse_all_ext. intros x Hx. symmetry. apply H.
  apply (children_named_name _ _ _ Hx).
Qed.

(** The same, as one run over the elements in visiting order. *)
Lemma processParametersNode_sequence (node : xml_node) (this : CustomKernel) :
  processParametersNode attr_to_int node this =
  (kps <- parse_all (parse_element attr_to_int) (parameter_sequence node) ;;
   OK (set_kernelParams this (_kernelParams this ++ kps))).
Proof.
  rewrite processParametersNode_groups. unfold parameter_sequence.
  rewrite !parse_all_app.
  rewrite (parse_element_group "Tensor" node (parseTensor attr_to_int))
    by (intros x Hx; unfold parse_element; rewrite Hx; reflexivity).
  rewrite (parse_element_group "Data" node parseData)
    by (intros x Hx; unfold parse_element; rewrite Hx; reflexivity).
  rewrite (parse_element_group "Scalar" node (parseScalar attr_to_int))
    by (intros x Hx; unfold parse_element; rewrite Hx; reflexivity).
  destruct (parse_all _ (parameter_elements "Tensor" node)) as [pt | e]; simpl;
    [| reflexivity].
  destruct (parse_all _ (parameter_elements "Data" node)) as [pd | e]; simpl;
    [| reflexivity].
  destruct (parse_all _ (parameter_elements "Scalar" node)) as [ps | e]; simpl;
    reflexivity.
Qed.

Lemma processParametersNode_OK_inv (node : xml_node) (this this' : CustomKernel) :
  processParametersNode attr_to_int node this = OK this' ->
  exists pt pd ps,
    this' = set_kernelParams this (_kernelParams this ++ pt ++ pd ++ ps)
    /\ Forall2 (fun x kp => parseTensor attr_to_int x = OK kp)
               (parameter_elements "Tensor" node) pt
    /\ Forall2 (fun x kp => parseData x = OK kp) (parameter_elements "Data" node) pd
    /\ Forall2 (fun x kp => parseScalar attr_to_int x = OK kp)
               (parameter_elements "Scalar" node) ps.
Proof.
  rewrite processParametersNode_groups. intros H.
  bind_inv H as pt Hpt.
  bind_inv H as pd Hpd.
  bind_inv H as ps Hps.
  inversion H; subst this'.
  exists pt, pd, ps. split; [reflexivity |].
  repeat split; apply parse_all_OK_iff; assumption.
Qed.

(** An element whose type token is not one of its kind's throws
    [InvalidNodeType], naming the kind and the token. *)
Lemma parse_element_unrecognized (node x : xml_node) (typeStr : string) :
  In x (parameter_sequence node) -> unrecognized_type x typeStr ->
  parse_element attr_to_int x = Throw (InvalidNodeType (node_name x) typeStr).
Proof.
  unfold parameter_sequence, parameter_elements. intros Hin [Hattr Htok].
  apply in_app_or in Hin. destruct Hin as [Hin | Hin];
    [| apply in_app_or in Hin; destruct Hin as [Hin | Hin]];
    apply children_named_name in Hin; unfold parse_element; rewrite Hin in *;
    cbn in Htok; cbn [String.eqb Ascii.eqb Bool.eqb];
    repeat (apply andb_prop in Htok; destruct Htok as [?H Htok]);
    repeat match goal with
           | H : negb _ = true |- _ => apply negb_true_iff in H
           end.
  - unfold parseTensor, GetStrAttr. rewrite Hattr. cbn [bind].
    repeat match goal with H : CaselessEq _ _ = false |- _ => rewrite H; clear H end.
    reflexivity.
  - unfold parseData, GetStrAttr. rewrite Hattr. cbn [bind].
    repeat match goal with H : CaselessEq _ _ = false |- _ => rewrite H; clear H end.
    reflexivity.
  - unfold parseScalar, GetStrAttr. rewrite Hattr. cbn [bind].
    repeat match goal with H : CaselessEq _ _ = false |- _ => rewrite H; clear H end.
    reflexivity.
Qed.

End Loops.

(* ================================================================== *)
(** ** Claims on the Parameters block *)

Lemma Forall2_length_eq {A B : Type} (R : A -> B -> Prop) (l : list A) (l' : list B) :
  Forall2 R l l' -> List.length l' = List.length l.
Proof. intros H; induction H; simpl; [reflexivity | now f_equal]. Qed.

(** C7: a [Parameters] block that parses yields one parameter per [Tensor],
    [Data] and [Scalar] child, the tensors' first, then the data elements',
    then the scalars', each group in document order (and a block all of
    whose elements parse does parse); an element whose type token is not
    one of its kind's tokens throws an InvalidDescriptor error naming the
    kind and the token, so that the block does not parse, and this is the
    block's error when the elements visited before it parse. *)
Theorem processParametersNode_order :
  forall (attr_to_int : string -> result Z) (node : xml_node) (this : CustomKernel),
    (forall this',
        processParametersNode attr_to_int node this = OK this' ->
        exists pt pd ps,
          _kernelParams this' = (_kernelParams this ++ pt ++ pd ++ ps)%list
          /\ Forall2 (fun x kp => parseTensor attr_to_int x = OK kp)
                     (parameter_elements "Tensor" node) pt
          /\ Forall2 (fun x kp => parseData x = OK kp) (parameter_elements "Data" node) pd
          /\ Forall2 (fun x kp => parseScalar attr_to_int x = OK kp)
                     (parameter_elements "Scalar" node) ps
          /\ List.length (pt ++ pd ++ ps)
             = (List.length (parameter_elements "Tensor" node)
                + List.length (parameter_elements "Data" node)
                + List.length (parameter_elements "Scalar" node))%nat)
    /\ (forall pt pd ps,
           Forall2 (fun x kp => parseTensor attr_to_int x = OK kp)
                   (parameter_elements "Tensor" node) pt ->
           Forall2 (fun x kp => parseData x = OK kp) (parameter_elements "Data" node) pd ->
           Forall2 (fun x kp => parseScalar attr_to_int x = OK kp)
                   (parameter_elements "Scalar" node) ps ->
           processParametersNode attr_to_int node this
           = OK (set_kernelParams this (_kernelParams this ++ pt ++ pd ++ ps)))
    /\ (forall x typeStr,
           In x (parameter_sequence node) -> unrecognized_type x typeStr ->
           parse_element attr_to_int x = Throw (InvalidNodeType (node_name x) typeStr)
           /\ kind_of (InvalidNodeType (node_name x) typeStr) = InvalidDescriptor
           /\ succeeds (processParametersNode attr_to_int node this) = false)
    /\ (forall pre x post typeStr,
           parameter_sequence node = (pre ++ x :: post)%list ->
           Forall (fun y => succeeds (parse_element attr_to_int y) = true) pre ->
           unrecognized_type x typeStr ->
           processParametersNode attr_to_int node this
           = Throw (InvalidNodeType (node_name x) typeStr)).
Proof.
  intros attr_to_int node this. repeat split.
  - intros this' H.
    destruct (processParametersNode_OK_inv _ _ _ _ H) as (pt & pd & ps & -> & Ht & Hd & Hs).
    exists pt, pd, ps. repeat (split; [first [assumption | reflexivity] |]).
    rewrite !length_app.
    rewrite (Forall2_length_eq _ _ _ Ht), (Forall2_length_eq _ _ _ Hd),
      (Forall2_length_eq _ _ _ Hs). lia.
  - intros pt pd ps Ht Hd Hs.
    rewrite processParametersNode_groups.
    apply parse_all_OK_iff in Ht, Hd, Hs. rewrite Ht, Hd, Hs. reflexivity.
  - apply parse_element_unrecognized with (node := node); assumption.
  - pose proof (parse_element_unrecognized attr_to_int node x typeStr H H0) as Hx.
    rewrite processParametersNode_sequence.
    destruct (parse_all_Throw _ _ _ _ H Hx) as (e' & He'). rewrite He'. reflexivity.
  - intros pre x post typeStr Hseq Hpre Hun.
    assert (Hin : In x (parameter_sequence node)).
    { rewrite Hseq. apply in_or_app. right. now left. }
    pose proof (parse_element_unrecognized attr_to_int node x typeStr Hin Hun) as Hx.
    rewrite processParametersNode_sequence, Hseq.
    rewrite (parse_all_first_Throw _ _ _ _ _ Hpre Hx). reflexivity.
Qed.

Lemma processParametersNode_order_witness :
  exists this',
    processParametersNode Samples.attr_to_int Samples.mixed_parameters CustomKernel_init
    = OK this'
    /\ map argName (_kernelParams this') = ["dst"; "src"; "weights"; "buf"; "n"; "scale"]
    /\ exists pt pd ps,
        _kernelParams this' = (pt ++ pd ++ ps)%list
        /\ List.length pt = 2%nat /\ List.length pd = 2%nat /\ List.length ps = 2%nat.
Proof.
  eexists. split; [vm_compute; reflexivity |]. split; [reflexivity |].
  destruct (proj1 (processParametersNode_order Samples.attr_to_int
                     Samples.mixed_parameters CustomKernel_init) _ eq_refl)
    as (pt & pd & ps & Hparams & Ht & Hd & Hs & _).
  exists pt, pd, ps. split; [exact Hparams |].
  rewrite (Forall2_length_eq _ _ _ Ht), (Forall2_length_eq _ _ _ Hd),
    (Forall2_length_eq _ _ _ Hs).
  repeat split.
Defined.

(* ------------------------------------------------------------------ *)
(** *** Data elements: source or dim *)

Lemma parseData_source_and_dim (data : xml_node) :
  GetStrAttr_def (Some data) "source" "" <> "" ->
  GetStrAttr_def (Some data) "dim" "" <> "" ->
  fails_with (parseData data) InvalidDescriptor.
Proof.
  intros Hs Hd. unfold parseData, GetStrAttr.
  destruct (attribute (Some data) "type") as [typeStr |];
    [| apply fails_with_Throw; reflexivity].
  cbn [bind].
  destruct (CaselessEq typeStr "data");
    [| destruct (CaselessEq typeStr "local_data");
       [| apply fails_with_Throw; reflexivity]];
    cbn [bind];
    (destruct (attribute (Some data) "arg-name");
     [| apply fails_with_Throw; reflexivity]);
    cbn [bind irSource set_irSource];
    apply String.eqb_neq in Hs, Hd; rewrite Hs, Hd; cbn [andb negb];
    apply fails_with_Throw; reflexivity.
Qed.

Lemma parseData_no_source_no_dim (data : xml_node) :
  GetStrAttr_def (Some data) "source" "" = "" ->
  GetStrAttr_def (Some data) "dim" "" = "" ->
  fails_with (parseData data) InvalidDescriptor.
Proof.
  intros Hs Hd. unfold parseData, GetStrAttr.
  destruct (attribute (Some data) "type") as [typeStr |];
    [| apply fails_with_Throw; reflexivity].
  cbn [bind].
  destruct (CaselessEq typeStr "data");
    [| destruct (CaselessEq typeStr "local_data");
       [| apply fails_with_Throw; reflexivity]];
    cbn [bind];
    (destruct (attribute (Some data) "arg-name");
     [| apply fails_with_Throw; reflexivity]);
    cbn [bind irSource set_irSource];
    rewrite Hs, Hd; cbn [andb negb String.eqb];
    apply fails_with_Throw; reflexivity.
Qed.

(** C1 as the specification words it fails on a [Data] element of type
    [data] that names a [dim]: the block parses, and the parameter has
    neither an [irSource] nor a dimension source. *)
Lemma data_with_dim_has_neither :
  let node := XmlNode "CustomLayer" [] [XmlNode "Parameters" [] [Samples.data_with_dim]] in
  let kp := {| type := CustomParamType.Data; format := CustomDataFormat.Any;
               argName := "shape"; portIndex := -1; irSource := "";
               bufferSizeRule := ""; dimSource := None; dimIdx := -1 |} in
  GetStrAttr_def (Some Samples.data_with_dim) "source" "" = ""
  /\ GetStrAttr_def (Some Samples.data_with_dim) "dim" "" = "input,2"
  /\ processParametersNode Samples.attr_to_int node CustomKernel_init
     = OK (set_kernelParams CustomKernel_init [kp])
  /\ ~ (irSource kp <> "" \/ dimSource kp <> None).
Proof.
  cbv zeta. split; [reflexivity |]. split; [reflexivity |].
  split; [vm_compute; reflexivity |].
  cbn. intros [H | H]; apply H; reflexivity.
Qed.

(** C1 (amended): a [Data] element needs exactly one of [source] and [dim]
    to be a non-empty text, and fails with InvalidDescriptor when both are
    or neither is.  In a block that parses, the parameter of every [Data]
    element is of kind Data or LocalData and its [irSource] is the [source]
    text; with a [source] its dimension source stays unset; with a [dim],
    a parameter of kind LocalData has the dimension source and index that
    [parseDimSource] reads from the [dim] text. *)
Theorem data_parameter_source_or_dim :
  forall (attr_to_int : string -> result Z) (node : xml_node) (this this' : CustomKernel),
    processParametersNode attr_to_int node this = OK this' ->
    (exists pt pd ps,
        _kernelParams this' = (_kernelParams this ++ pt ++ pd ++ ps)%list
        /\ List.length pt = List.length (parameter_elements "Tensor" node)
        /\ Forall2
             (fun data kp =>
                let source := GetStrAttr_def (Some data) "source" "" in
                let dimString := GetStrAttr_def (Some data) "dim" "" in
                (type kp = CustomParamType.Data \/ type kp = CustomParamType.LocalData)
                /\ irSource kp = source
                /\ ((source <> "" /\ dimString = ""
                     /\ dimSource kp = None /\ dimIdx kp = -1)
                    \/ (source = "" /\ dimString <> ""
                        /\ (type kp = CustomParamType.LocalData ->
                            exists d, parseDimSource dimString = OK d
                                      /\ dimSource kp = Some (fst d)
                                      /\ dimIdx kp = snd d))))
             (parameter_elements "Data" node) pd)
    /\ (forall data,
           GetStrAttr_def (Some data) "source" "" <> "" ->
           GetStrAttr_def (Some data) "dim" "" <> "" ->
           fails_with (parseData data) InvalidDescriptor
           /\ ~ In data (parameter_elements "Data" node))
    /\ (forall data,
           GetStrAttr_def (Some data) "source" "" = "" ->
           GetStrAttr_def (Some data) "dim" "" = "" ->
           fails_with (parseData data) InvalidDescriptor
           /\ ~ In data (parameter_elements "Data" node)).
Proof.
  intros attr_to_int node this this' H.
  destruct (processParametersNode_OK_inv _ _ _ _ H) as (pt & pd & ps & -> & Ht & Hd & Hs).
  assert (Hparsed : forall data, In data (parameter_elements "Data" node) ->
                                 exists kp, parseData data = OK kp).
  { intros data Hin. clear - Hd Hin.
    induction Hd as [| x kp l l' Hx Hrest IH]; [contradiction |].
    destruct Hin as [-> | Hin]; [now exists kp | now apply IH]. }
  split; [| split].
  - exists pt, pd, ps. split; [reflexivity |].
    split; [apply (Forall2_length_eq _ _ _ Ht) |].
    clear - Hd. induction Hd as [| data kp l l' Hx Hrest IH]; constructor; [| exact IH].
    destruct (parseData_OK_inv data kp Hx)
      as (typeStr & name & _ & _ & _ & Hir & _ & _ & Hone & Hkind).
    cbv zeta.
    split; [destruct Hkind as [(_ & Hk & _) | (_ & Hk & _)]; tauto |].
    split; [exact Hir |].
    destruct Hone as [[Hs Hd] | [Hs Hd]].
    + left. split; [exact Hs |]. split; [exact Hd |].
      destruct Hkind as [(_ & _ & _ & Hds & Hdi) | (_ & _ & _ & [(_ & Hds & Hdi) | (Hne & _)])];
        try tauto.
    + right. split; [exact Hs |]. split; [exact Hd |].
      intros Hlocal.
      destruct Hkind as [(_ & Hk & _) | (_ & _ & _ & [(He & _) | (_ & Hdim)])].
      * rewrite Hk in Hlocal; discriminate.
      * contradiction.
      * exact Hdim.
  - intros data Hs1 Hd1.
    pose proof (parseData_source_and_dim data Hs1 Hd1) as Hfail.
    split; [exact Hfail |]. intros Hin.
    destruct (Hparsed data Hin) as (kp & Hkp).
    destruct Hfail as (e & He & _). congruence.
  - intros data Hs1 Hd1.
    pose proof (parseData_no_source_no_dim data Hs1 Hd1) as Hfail.
    split; [exact Hfail |]. intros Hin.
    destruct (Hparsed data Hin) as (kp & Hkp).
    destruct Hfail as (e & He & _). congruence.
Qed.

Lemma data_parameter_source_or_dim_witness :
  exists this',
    processParametersNode Samples.attr_to_int Samples.mixed_parameters CustomKernel_init
    = OK this'
    /\ exists pt pd ps,
        _kernelParams this' = (pt ++ pd ++ ps)%list
        /\ List.length pt = 2%nat /\ List.length pd = 2%nat.
Proof.
  eexists. split; [vm_compute; reflexivity |].
  destruct (proj1 (data_parameter_source_or_dim Samples.attr_to_int
                     Samples.mixed_parameters CustomKernel_init _ eq_refl))
    as (pt & pd & ps & Hparams & Hlen & Hd).
  exists pt, pd, ps. split; [exact Hparams |]. split; [exact Hlen |].
  rewrite (Forall2_length_eq _ _ _ Hd). reflexivity.
Defined.

(* ------------------------------------------------------------------ *)
(** *** Tensor elements: format and buffer size *)

(** C8: [formatFromString] looks its argument up, case-insensitively, in
    the table of the six names BFYX, BYXF, FYX, YXF, BF and ANY (so "bfyx"
    is BFYX, the channels-first 3D layout); a text that matches no name
    fails with InvalidDescriptor; a [Tensor] element without a [format]
    attribute gets BFYX. *)
Theorem formatFromString_lookup :
  (forall str name f,
      In (name, f) FormatNameToType -> CaselessEq str name = true ->
      formatFromString str = OK f)
  /\ (forall str f,
         formatFromString str = OK f ->
         exists name, In (name, f) FormatNameToType /\ lower str = lower name)
  /\ (forall str,
         (forall name f, In (name, f) FormatNameToType -> CaselessEq str name = false) ->
         formatFromString str = Throw (InvalidFormat str)
         /\ fails_with (formatFromString str) InvalidDescriptor)
  /\ map fst FormatNameToType = ["BFYX"; "BYXF"; "FYX"; "YXF"; "BF"; "ANY"]
  /\ formatFromString "bfyx" = OK CustomDataFormat.BFYX
  /\ fails_with (formatFromString "zzz") InvalidDescriptor
  /\ (forall (attr_to_int : string -> result Z) tensor kp,
         parseTensor attr_to_int tensor = OK kp ->
         formatFromString (GetStrAttr_def (Some tensor) "format" "BFYX") = OK (format kp)
         /\ (attribute (Some tensor) "format" = None ->
             format kp = CustomDataFormat.BFYX)).
Proof.
  split; [exact formatFromString_table |].
  split.
  { intros str f H. destruct (formatFromString_OK_inv str f H) as (name & Hin & Heq).
    exists name. split; [exact Hin | apply CaselessEq_true; exact Heq]. }
  split.
  { intros str H. rewrite (formatFromString_unmatched str H).
    split; [reflexivity | apply fails_with_Throw; reflexivity]. }
  split; [reflexivity |].
  split; [reflexivity |].
  split; [apply fails_with_Throw; reflexivity |].
  intros attr_to_int tensor kp H.
  destruct (parseTensor_OK_inv attr_to_int tensor kp H)
    as (typeStr & fmt & name & port & _ & Hfmt & _ & _ & Hf & _).
  subst fmt. split; [exact Hfmt |].
  intros Habsent. unfold GetStrAttr_def in Hfmt. rewrite Habsent in Hfmt.
  change (formatFromString "BFYX") with (OK CustomDataFormat.BFYX) in Hfmt.
  inversion Hfmt; reflexivity.
Qed.

Lemma formatFromString_lookup_witness :
  formatFromString "bYxF" = OK CustomDataFormat.BYXF
  /\ format {| type := CustomParamType.Input; format := CustomDataFormat.BFYX;
               argName := "A"; portIndex := 0; irSource := ""; bufferSizeRule := "";
               dimSource := None; dimIdx := -1 |} = CustomDataFormat.BFYX.
Proof.
  split.
  - apply (proj1 formatFromString_lookup "bYxF" "BYXF" CustomDataFormat.BYXF).
    + simpl; tauto.
    + reflexivity.
  - exact (proj2 (proj2 (proj2 (proj2 (proj2 (proj2 (proj2 formatFromString_lookup)))))
                    Samples.attr_to_int (Samples.tensor "input" "A" "0") _ eq_refl)
             eq_refl).
Defined.

Lemma split_on_commas_spec_head (s : string) :
  hd_error (split_on_commas_spec s) = Some (substr s 0 (find_first_of s ","%char)).
Proof.
  induction s as [| c s IH]; [reflexivity |].
  simpl split_on_commas_spec. simpl find_first_of.
  destruct (Ascii.eqb c ","%char); [reflexivity |].
  destruct (split_on_commas_spec s) as [| p ps]; [discriminate IH |].
  simpl in IH. inversion IH as [Hp]. simpl.
  destruct (find_first_of s ","%char) as [n |]; simpl in *.
  - reflexivity.
  - rewrite Nat.sub_0_r in *. reflexivity.
Qed.

(** On a non-empty text [parseSizeRule] has a first component, the one of
    the specification's split. *)
Lemma parseSizeRule_head (s : string) :
  s <> "" -> hd_error (parseSizeRule s) = hd_error (split_on_commas_spec s).
Proof.
  intros Hne. rewrite parseSizeRule_drop_empty_tail, split_on_commas_spec_read_until.
  destruct (read_until ","%char s) as [line [rest |]] eqn:E.
  - pose proof (split_on_commas_spec_nonempty rest) as Hrest.
    simpl. destruct (split_on_commas_spec rest); [contradiction | reflexivity].
  - destruct line as [| c line]; [| reflexivity].
    apply read_until_None_empty in E. contradiction.
Qed.

(** C10: for a [Tensor] element of kind InputBuffer or OutputBuffer the
    stored [bufferSizeRule] is the first comma-separated component of the
    [size] attribute and the further components are dropped; for an empty
    [size] text [parseSizeRule] yields the empty list and the access to its
    element 0 is out of bounds.  For a non-empty [size] the access is
    defined: the element parses whenever its [dim], [format], [arg-name]
    and [port-index] do, and only those reads can fail. *)
Theorem buffer_size_rule_first_component :
  forall (attr_to_int : string -> result Z) (tensor : xml_node) (typeStr sizeRule : string),
    attribute (Some tensor) "type" = Some typeStr ->
    lower typeStr = "input_buffer" \/ lower typeStr = "output_buffer" ->
    attribute (Some tensor) "size" = Some sizeRule ->
    (sizeRule = "" ->
     parseSizeRule sizeRule = []
     /\ parseTensor attr_to_int tensor = Throw VectorIndexOutOfRange
     /\ kind_of VectorIndexOutOfRange = UndefinedBehaviour)
    /\ (sizeRule <> "" ->
        parseSizeRule sizeRule <> []
        /\ (forall kp,
               parseTensor attr_to_int tensor = OK kp ->
               (type kp = CustomParamType.InputBuffer \/ type kp = CustomParamType.OutputBuffer)
               /\ bufferSizeRule kp = substr sizeRule 0 (find_first_of sizeRule ","%char)
               /\ hd_error (split_on_commas_spec sizeRule) = Some (bufferSizeRule kp))
        /\ parseTensor attr_to_int tensor
           = (dimString <- GetStrAttr (Some tensor) "dim" ;;
              d <- parseDimSource dimString ;;
              fmt <- formatFromString (GetStrAttr_def (Some tensor) "format" "BFYX") ;;
              name <- GetStrAttr (Some tensor) "arg-name" ;;
              port <- GetIntAttr attr_to_int (Some tensor) "port-index" ;;
              OK {| type := if String.eqb (lower typeStr) "input_buffer"
                            then CustomParamType.InputBuffer
                            else CustomParamType.OutputBuffer;
                    format := fmt;
                    argName := name;
                    portIndex := port;
                    irSource := "";
                    bufferSizeRule := substr sizeRule 0 (find_first_of sizeRule ","%char);
                    dimSource := Some (fst d);
                    dimIdx := snd d |})
        /\ (forall dimString d fmt name port,
               attribute (Some tensor) "dim" = Some dimString ->
               parseDimSource dimString = OK d ->
               formatFromString (GetStrAttr_def (Some tensor) "format" "BFYX") = OK fmt ->
               attribute (Some tensor) "arg-name" = Some name ->
               GetIntAttr attr_to_int (Some tensor) "port-index" = OK port ->
               exists kp,
                 parseTensor attr_to_int tensor = OK kp
                 /\ bufferSizeRule kp = substr sizeRule 0 (find_first_of sizeRule ","%char))).
Proof.
  intros attr_to_int tensor typeStr sizeRule Htype Hkind Hsize. split.
  - intros ->. split; [reflexivity |]. split; [| reflexivity].
    unfold parseTensor, GetStrAttr. rewrite Htype, Hsize. cbn [bind].
    rewrite !CaselessEq_lower.
    destruct Hkind as [-> | ->]; reflexivity.
  - intros Hne.
    pose proof (parseSizeRule_head sizeRule Hne) as Hhead.
    rewrite split_on_commas_spec_head in Hhead.
    assert (Hat : vector_at (parseSizeRule sizeRule) 0
                  = OK (substr sizeRule 0 (find_first_of sizeRule ","%char))).
    { unfold vector_at. destruct (parseSizeRule sizeRule) as [| p ps];
        [discriminate Hhead |].
      simpl in Hhead |- *. inversion Hhead. reflexivity. }
    assert (Heq : parseTensor attr_to_int tensor
           = (dimString <- GetStrAttr (Some tensor) "dim" ;;
              d <- parseDimSource dimString ;;
              fmt <- formatFromString (GetStrAttr_def (Some tensor) "format" "BFYX") ;;
              name <- GetStrAttr (Some tensor) "arg-name" ;;
              port <- GetIntAttr attr_to_int (Some tensor) "port-index" ;;
              OK {| type := if String.eqb (lower typeStr) "input_buffer"
                            then CustomParamType.InputBuffer
                            else CustomParamType.OutputBuffer;
                    format := fmt;
                    argName := name;
                    portIndex := port;
                    irSource := "";
                    bufferSizeRule := substr sizeRule 0 (find_first_of sizeRule ","%char);
                    dimSource := Some (fst d);
                    dimIdx := snd d |})).
    { unfold parseTensor, GetStrAttr at 1 2. rewrite Htype, Hsize. cbn [bind].
      rewrite !CaselessEq_lower.
      destruct Hkind as [-> | ->];
        change (lower "input") with "input"; change (lower "output") with "output";
        change (lower "input_buffer") with "input_buffer";
        change (lower "output_buffer") with "output_buffer";
        cbn [String.eqb Ascii.eqb Bool.eqb bind set_type type CustomParamType.eqb orb
               KernelParam_default];
        rewrite Hat; cbn [bind];
        (destruct (GetStrAttr (Some tensor) "dim") as [dimString |]; [| reflexivity]);
        cbn [bind];
        (destruct (parseDimSource dimString) as [d |]; [| reflexivity]); cbn [bind];
        (destruct (formatFromString _) as [fmt |]; [| reflexivity]); cbn [bind];
        (destruct (GetStrAttr (Some tensor) "arg-name") as [name |]; [| reflexivity]);
        cbn [bind];
        destruct (GetIntAttr attr_to_int (Some tensor) "port-index") as [port |];
        reflexivity. }
    split; [| split; [| split; [exact Heq |]]].
    + intros Hnil. rewrite Hnil in Hhead. discriminate Hhead.
    + intros kp H.
      destruct (parseTensor_OK_inv attr_to_int tensor kp H)
        as (typeStr' & fmt & name & port & Htype' & _ & _ & _ & _ & _ & _ & _ & Hcases).
      rewrite Htype in Htype'. inversion Htype'; subst typeStr'.
      destruct Hcases as [(Hplain & _) | (Hbuf & sizeRule' & dimString & d & Hsize' & Hnth & _)].
      * exfalso.
        destruct Hplain as [(Hl & _) | [(Hl & _) | (Hl & _)]];
          destruct Hkind as [Hk | Hk]; rewrite Hk in Hl; discriminate Hl.
      * rewrite Hsize in Hsize'. inversion Hsize'; subst sizeRule'.
        assert (Hfirst : bufferSizeRule kp = substr sizeRule 0 (find_first_of sizeRule ","%char)).
        { destruct (parseSizeRule sizeRule) as [| p ps]; [discriminate Hnth |].
          simpl in Hnth, Hhead. congruence. }
        split; [destruct Hbuf as [(_ & Hk) | (_ & Hk)]; tauto |].
        split; [exact Hfirst |].
        rewrite split_on_commas_spec_head, Hfirst. reflexivity.
    + intros dimString d fmt name port Hdim Hd Hfmt Hname Hport.
      eexists. split.
      * rewrite Heq. unfold GetStrAttr. rewrite Hdim, Hname. cbn [bind].
        rewrite Hd, Hfmt, Hport. cbn [bind]. reflexivity.
      * reflexivity.
Qed.

Lemma buffer_size_rule_first_component_witness :
  parseTensor Samples.attr_to_int (Samples.buffer_tensor "") = Throw VectorIndexOutOfRange
  /\ exists kp,
      parseTensor Samples.attr_to_int (Samples.buffer_tensor "a*b,c") = OK kp
      /\ bufferSizeRule kp = "a*b".
Proof.
  split.
  - apply (proj1 (buffer_size_rule_first_component Samples.attr_to_int
                    (Samples.buffer_tensor "") "input_buffer" ""
                    eq_refl (or_introl eq_refl) eq_refl) eq_refl).
  - exact (proj2 (proj2 (proj2 (proj2 (buffer_size_rule_first_component
                    Samples.attr_to_int (Samples.buffer_tensor "a*b,c") "input_buffer"
                    "a*b,c" eq_refl (or_introl eq_refl) eq_refl) ltac:(discriminate))))
             "output,0" (CustomDimSource.Output, 0) CustomDataFormat.BFYX "tmp" 1
             eq_refl eq_refl eq_refl eq_refl eq_refl).
Defined.

(* ================================================================== *)
(** ** parseDimSource *)

Lemma find_first_of_app (l r : string) (c : ascii) :
  find_first_of l c = None ->
  find_first_of (l ++ String c r) c = Some (String.length l).
Proof.
  induction l as [| a l IH]; simpl.
  - rewrite Ascii.eqb_refl. reflexivity.
  - destruct (Ascii.eqb a c); [discriminate |].
    destruct (find_first_of l c); [discriminate |].
    intros _. rewrite IH by reflexivity. reflexivity.
Qed.

Lemma substring_all (s : string) : substring 0 (String.length s) s = s.
Proof. induction s as [| a s IH]; simpl; [reflexivity | now rewrite IH]. Qed.

Lemma substring_prefix (l r : string) : substring 0 (String.length l) (l ++ r) = l.
Proof.
  induction l as [| a l IH]; simpl.
  - destruct r; reflexivity.
  - rewrite IH. reflexivity.
Qed.

Lemma substring_skip (l r : string) (n m : nat) :
  substring (String.length l + n) m (l ++ r) = substring n m r.
Proof. induction l as [| a l IH]; simpl; [reflexivity | exact IH]. Qed.

Lemma append_length (l r : string) :
  String.length (l ++ r) = (String.length l + String.length r)%nat.
Proof. induction l as [| a l IH]; simpl; [reflexivity | now rewrite IH]. Qed.

Lemma substr_after_comma (l r : string) :
  substr (l ++ String ","%char r) (String.length l + 1) None = r.
Proof.
  unfold substr. rewrite substring_skip, append_length. simpl.
  replace (String.length l + S (String.length r) - (String.length l + 1))%nat
    with (String.length r) by lia.
  apply substring_all.
Qed.

Lemma read_digits_nonneg (s : string) :
  forall acc seen, 0 <= acc -> 0 <= fst (read_digits s acc seen).
Proof.
  induction s as [| c s IH]; intros acc seen Hacc; cbn [read_digits]; [exact Hacc |].
  destruct (isdigit c) eqn:Ed; [| exact Hacc].
  apply IH. unfold isdigit in Ed. cbv zeta in Ed.
  apply andb_prop in Ed. destruct Ed as [Ed _].
  apply Nat.leb_le in Ed. lia.
Qed.

(** [std::stoi] answers an [int], and a negative one only for a text whose
    first character after the white space is a minus sign. *)
Lemma stoi_range (r : string) (idx : Z) :
  stoi r = OK idx ->
  INT_MIN <= idx <= INT_MAX
  /\ ((forall r', skip_spaces r <> String "-"%char r') -> 0 <= idx).
Proof.
  unfold stoi.
  destruct (skip_spaces r) as [| c s] eqn:Es.
  - simpl. discriminate.
  - destruct (Ascii.eqb c "-"%char) eqn:Eminus.
    + apply Ascii.eqb_eq in Eminus; subst c.
      destruct (read_digits s 0 false) as [v [|]]; [| discriminate].
      destruct ((INT_MIN <=? - v) && (- v <=? INT_MAX)) eqn:Er; [| discriminate].
      intros H; inversion H; subst idx. apply andb_prop in Er. destruct Er as [E1 E2].
      apply Z.leb_le in E1, E2.
      split; [lia |]. intros Hno. exfalso. apply (Hno s). reflexivity.
    + assert (Hgen : forall t, match read_digits t 0 false with
                               | (_, false) => Throw StoiInvalidArgument
                               | (v, true) =>
                                   if (INT_MIN <=? v) && (v <=? INT_MAX) then OK v
                                   else Throw StoiOutOfRange
                               end = OK idx ->
                               INT_MIN <= idx <= INT_MAX /\ 0 <= idx).
      { intros t. pose proof (read_digits_nonneg t 0 false ltac:(lia)) as Hnn.
        destruct (read_digits t 0 false) as [v [|]]; [| discriminate].
        destruct ((INT_MIN <=? v) && (v <=? INT_MAX)) eqn:Er; [| discriminate].
        intros H; inversion H; subst idx. apply andb_prop in Er. destruct Er as [E1 E2].
        apply Z.leb_le in E1, E2. simpl in Hnn. lia. }
      destruct (Ascii.eqb c "+"%char); intros H; apply Hgen in H; tauto.
Qed.

(** C5 as the specification words it fails on a negative index:
    [std::stoi] reads a sign. *)
Lemma parseDimSource_negative_index :
  parseDimSource "input,-3" = OK (CustomDimSource.Input, -3)
  /\ ~ (forall dims src idx,
           find_first_of dims ","%char <> None ->
           parseDimSource dims = OK (src, idx) -> 0 <= idx).
Proof.
  split; [reflexivity |].
  intros H.
  specialize (H "input,-3" CustomDimSource.Input (-3) ltac:(discriminate) eq_refl).
  lia.
Qed.

Lemma read_digits_seen (s : string) :
  forall acc, snd (read_digits s acc true) = true.
Proof.
  induction s as [| c s IH]; intros acc; cbn [read_digits]; [reflexivity |].
  destruct (isdigit c); [apply IH | reflexivity].
Qed.

Lemma read_digits_starts_with_digit (s : string) (acc : Z) :
  snd (read_digits s acc false) = starts_with_digit s.
Proof.
  destruct s as [| c s]; cbn [read_digits starts_with_digit]; [reflexivity |].
  destruct (isdigit c); [apply read_digits_seen | reflexivity].
Qed.

(** [std::stoi] in terms of the text after the white space and the sign. *)
Lemma stoi_after_sign (r : string) :
  stoi r
  = match read_digits (after_sign (skip_spaces r)) 0 false with
    | (_, false) => Throw StoiInvalidArgument
    | (v, true) =>
        let v := match skip_spaces r with
                 | String c _ => if Ascii.eqb c "-"%char then - v else v
                 | EmptyString => v
                 end in
        if (INT_MIN <=? v) && (v <=? INT_MAX) then OK v else Throw StoiOutOfRange
    end.
Proof.
  unfold stoi, after_sign.
  destruct (skip_spaces r) as [| c s]; [reflexivity |].
  destruct (Ascii.eqb c "-"%char); [reflexivity |].
  destruct (Ascii.eqb c "+"%char); reflexivity.
Qed.

Lemma stoi_sign (r : string) (idx : Z) :
  stoi r = OK idx ->
  (forall r', skip_spaces r = String "-"%char r' -> idx = - fst (read_digits r' 0 false))
  /\ (idx < 0 <->
      exists r', skip_spaces r = String "-"%char r' /\ 0 < fst (read_digits r' 0 false)).
Proof.
  intros H.
  assert (Hminus : forall r', skip_spaces r = String "-"%char r' ->
                              idx = - fst (read_digits r' 0 false)).
  { intros r' Es. rewrite stoi_after_sign, Es in H. cbn [after_sign] in H.
    rewrite Ascii.eqb_refl in H.
    destruct (read_digits r' 0 false) as [v [|]]; [| discriminate H].
    cbv zeta in H.
    destruct ((INT_MIN <=? - v) && (- v <=? INT_MAX)); [| discriminate H].
    inversion H. reflexivity. }
  split; [exact Hminus |].
  split.
  - intros Hneg.
    destruct (skip_spaces r) as [| c s] eqn:Es.
    + exfalso.
      assert (Hnn : 0 <= idx).
      { apply (proj2 (stoi_range r idx H)). intros r' E. rewrite Es in E.
        discriminate E. }
      lia.
    + destruct (Ascii.eqb c "-"%char) eqn:Ec.
      * apply Ascii.eqb_eq in Ec; subst c.
        exists s. split; [reflexivity |].
        specialize (Hminus s eq_refl). lia.
      * exfalso.
        assert (Hnn : 0 <= idx).
        { apply (proj2 (stoi_range r idx H)). intros r' E. rewrite Es in E.
          inversion E; subst c. rewrite Ascii.eqb_refl in Ec. discriminate Ec. }
        lia.
  - intros (r' & Es & Hpos). rewrite (Hminus r' Es). lia.
Qed.

Lemma stoi_Throw_inv (r : string) (e : exception) :
  stoi r = Throw e ->
  (e = StoiInvalidArgument \/ e = StoiOutOfRange)
  /\ (e = StoiInvalidArgument <-> starts_with_digit (after_sign (skip_spaces r)) = false).
Proof.
  rewrite stoi_after_sign.
  rewrite <- (read_digits_starts_with_digit (after_sign (skip_spaces r)) 0).
  destruct (read_digits (after_sign (skip_spaces r)) 0 false) as [v [|]]; cbv zeta.
  - match goal with |- (if ?b then _ else _) = _ -> _ => destruct b end;
      [discriminate |].
    intros H; inversion H; subst e.
    split; [right; reflexivity |]. split; [discriminate | discriminate].
  - intros H; inversion H; subst e.
    split; [left; reflexivity |]. split; reflexivity.
Qed.

Lemma stoi_no_digit (r : string) :
  starts_with_digit (after_sign (skip_spaces r)) = false ->
  stoi r = Throw StoiInvalidArgument.
Proof.
  intros H. rewrite stoi_after_sign.
  rewrite <- (read_digits_starts_with_digit _ 0) in H.
  destruct (read_digits (after_sign (skip_spaces r)) 0 false) as [v [|]];
    [discriminate H | reflexivity].
Qed.

(** C5 (amended): [parseDimSource] splits its argument at the first comma.
    The part before it must be "input" or "output" up to the case of the
    letters, else the call fails with InvalidDescriptor.  Without a comma
    the index is -1; with a comma the index is what [std::stoi] reads from
    the part after it: a decimal [int] with an optional sign after optional
    white space, what follows the digits being ignored.  The index is
    minus the digits' value when a minus sign leads them, so it is
    negative exactly when a minus sign leads digits whose value is not
    zero: "input,-3" is (Input, -3) and "input,-0" is (Input, 0).  The
    conversion fails with [std::invalid_argument] exactly when no digit
    follows the optional sign, and otherwise only with
    [std::out_of_range].  So "input,2" is (Input, 2), "output" is
    (Output, -1) and "bogus" fails. *)
Theorem parseDimSource_split :
  (forall (source : string) (index : option string),
      find_first_of source ","%char = None ->
      let dims := match index with
                  | Some r => source ++ String ","%char r
                  | None => source
                  end in
      let idx := match index with
                 | Some r => stoi r
                 | None => OK (-1)
                 end in
      (lower source = "input" ->
       parseDimSource dims = (i <- idx ;; OK (CustomDimSource.Input, i)))
      /\ (lower source = "output" ->
          parseDimSource dims = (i <- idx ;; OK (CustomDimSource.Output, i)))
      /\ (lower source <> "input" -> lower source <> "output" ->
          parseDimSource dims = Throw (InvalidDimSource source)
          /\ fails_with (parseDimSource dims) InvalidDescriptor))
  /\ (forall r idx,
         stoi r = OK idx ->
         INT_MIN <= idx <= INT_MAX
         /\ ((forall r', skip_spaces r <> String "-"%char r') -> 0 <= idx))
  /\ (forall r idx,
         stoi r = OK idx ->
         (forall r', skip_spaces r = String "-"%char r' ->
                     idx = - fst (read_digits r' 0 false))
         /\ (idx < 0 <->
             exists r', skip_spaces r = String "-"%char r'
                        /\ 0 < fst (read_digits r' 0 false)))
  /\ (forall r,
         (starts_with_digit (after_sign (skip_spaces r)) = false <->
          stoi r = Throw StoiInvalidArgument)
         /\ (forall e, stoi r = Throw e ->
                       (e = StoiInvalidArgument \/ e = StoiOutOfRange)
                       /\ kind_of e = NumericConversion))
  /\ parseDimSource "input,2" = OK (CustomDimSource.Input, 2)
  /\ parseDimSource "output" = OK (CustomDimSource.Output, -1)
  /\ fails_with (parseDimSource "bogus") InvalidDescriptor
  /\ parseDimSource "Input, +7th" = OK (CustomDimSource.Input, 7)
  /\ parseDimSource "input,-3" = OK (CustomDimSource.Input, -3)
  /\ parseDimSource "input,-0" = OK (CustomDimSource.Input, 0)
  /\ fails_with (parseDimSource "input,") NumericConversion.
Proof.
  split.
  { intros source index Hnc dims idx.
    assert (Hsrc : substr dims 0 (find_first_of dims ","%char) = source).
    { subst dims. destruct index as [r |].
      - rewrite (find_first_of_app _ _ _ Hnc). apply substring_prefix.
      - rewrite Hnc. unfold substr. rewrite Nat.sub_0_r. apply substring_all. }
    assert (Hidx : match find_first_of dims ","%char with
                   | None => OK (-1)
                   | Some p => stoi (substr dims (p + 1) None)
                   end = idx).
    { subst dims idx. destruct index as [r |].
      - rewrite (find_first_of_app _ _ _ Hnc), substr_after_comma. reflexivity.
      - rewrite Hnc. reflexivity. }
    unfold parseDimSource. rewrite Hsrc, Hidx, !CaselessEq_lower.
    split; [| split].
    - intros ->. reflexivity.
    - intros ->. reflexivity.
    - intros H1 H2.
      assert (E1 : String.eqb (lower source) (lower "input") = false)
        by (apply String.eqb_neq; exact H1).
      assert (E2 : String.eqb (lower source) (lower "output") = false)
        by (apply String.eqb_neq; exact H2).
      rewrite E1, E2. split; [reflexivity | apply fails_with_Throw; reflexivity]. }
  split; [exact stoi_range |].
  split; [exact stoi_sign |].
  split.
  { intros r. split.
    - split; [apply stoi_no_digit |].
      intros H. exact (proj1 (proj2 (stoi_Throw_inv r _ H)) eq_refl).
    - intros e H. destruct (stoi_Throw_inv r e H) as ([-> | ->] & _);
        (split; [tauto | reflexivity]). }
  split; [reflexivity |].
  split; [reflexivity |].
  split; [apply fails_with_Throw; reflexivity |].
  split; [reflexivity |].
  split; [reflexivity |].
  split; [reflexivity |].
  apply fails_with_Throw; reflexivity.
Qed.

Lemma parseDimSource_split_witness :
  parseDimSource "OutPut,12" = OK (CustomDimSource.Output, 12)
  /\ parseDimSource "inputs" = Throw (InvalidDimSource "inputs")
  /\ 0 <= 12
  /\ -3 < 0
  /\ stoi "+x" = Throw StoiInvalidArgument.
Proof.
  split; [| split; [| split; [| split]]].
  - exact (proj1 (proj2 (proj1 parseDimSource_split "OutPut" (Some "12") eq_refl)) eq_refl).
  - exact (proj1 (proj2 (proj2 (proj1 parseDimSource_split "inputs" None eq_refl))
                    ltac:(discriminate) ltac:(discriminate))).
  - exact (proj2 (proj1 (proj2 parseDimSource_split) "12" 12 eq_refl)
             ltac:(discriminate)).
  - apply (proj2 (proj1 (proj2 (proj2 parseDimSource_split)) "-3" (-3) eq_refl)).
    exists "3". split; [reflexivity | reflexivity].
  - exact (proj1 (proj1 (proj1 (proj2 (proj2 (proj2 parseDimSource_split))) "+x"))
             eq_refl).
Defined.

(* ================================================================== *)
(** ** loadKernelBinary *)

Lemma find_first_named (name : string) (before after : list xml_node) (x : xml_node) :
  Forall (fun c => node_name c <> name) before -> node_name x = name ->
  find (fun c => String.eqb (node_name c) name) (before ++ x :: after) = Some x.
Proof.
  intros Hb Hx. induction Hb as [| c before Hc Hb IH]; simpl.
  - apply String.eqb_eq in Hx. rewrite Hx. reflexivity.
  - apply String.eqb_neq in Hc. rewrite Hc. exact IH.
Qed.

Lemma find_none_named (name : string) (l : list xml_node) :
  Forall (fun c => node_name c <> name) l ->
  find (fun c => String.eqb (node_name c) name) l = None.
Proof.
  intros H. induction H as [| c l Hc H IH]; simpl; [reflexivity |].
  apply String.eqb_neq in Hc. rewrite Hc. exact IH.
Qed.

(** C6: [loadKernelBinary] answers the contents of the file
    [configDir + "/" + filename] of the first [Source] child in document
    order, whatever children follow it; it fails with FileNotFound when
    that file cannot be opened, and with InvalidDescriptor when the node
    has no [Source] child. *)
Theorem loadKernelBinary_first_source :
  forall (fs : string -> option string) (configDir : string),
    (forall name attrs before source after,
        Forall (fun c => node_name c <> "Source") before ->
        node_name source = "Source" ->
        let node := XmlNode name attrs (before ++ source :: after) in
        let fileName := configDir ++ "/" ++ GetStrAttr_def (Some source) "filename" "" in
        (forall content,
            fs fileName = Some content -> loadKernelBinary fs node configDir = OK content)
        /\ (fs fileName = None ->
            loadKernelBinary fs node configDir = Throw (KernelFileNotOpened fileName)
            /\ fails_with (loadKernelBinary fs node configDir) FileNotFound))
    /\ (forall node,
           Forall (fun c => node_name c <> "Source") (node_children node) ->
           loadKernelBinary fs node configDir = Throw KernelBinaryNotFound
           /\ fails_with (loadKernelBinary fs node configDir) InvalidDescriptor).
Proof.
  intros fs configDir. split.
  - intros name attrs before source after Hb Hs node fileName.
    unfold loadKernelBinary, child. subst node. cbn [node_children].
    rewrite (find_first_named _ _ _ _ Hb Hs). fold fileName.
    split.
    + intros content Hc. rewrite Hc. reflexivity.
    + intros Hc. rewrite Hc. split; [reflexivity | apply fails_with_Throw; reflexivity].
  - intros node Hn. unfold loadKernelBinary, child.
    rewrite (find_none_named _ _ Hn).
    split; [reflexivity | apply fails_with_Throw; reflexivity].
Qed.

Lemma loadKernelBinary_first_source_witness :
  loadKernelBinary Samples.fs
    (XmlNode "CustomLayer" []
       [ XmlNode "Parameters" [] [];
         XmlNode "Source" [("filename", "kernel.elf")] [];
         XmlNode "Source" [("filename", "missing.cl")] [] ]) "/cfg"
  = OK Samples.elf
  /\ fails_with
       (loadKernelBinary Samples.fs
          (XmlNode "CustomLayer" [] [XmlNode "Source" [("filename", "missing.cl")] []])
          "/cfg") FileNotFound
  /\ fails_with
       (loadKernelBinary Samples.fs (XmlNode "CustomLayer" [] [XmlNode "Parameters" [] []])
          "/cfg") InvalidDescriptor.
Proof.
  split; [| split].
  - apply (proj1 (proj1 (loadKernelBinary_first_source Samples.fs "/cfg")
                    "CustomLayer" [] [XmlNode "Parameters" [] []]
                    (XmlNode "Source" [("filename", "kernel.elf")] [])
                    [XmlNode "Source" [("filename", "missing.cl")] []]
                    ltac:(repeat constructor; discriminate) eq_refl)).
    reflexivity.
  - apply (proj2 (proj1 (loadKernelBinary_first_source Samples.fs "/cfg")
                    "CustomLayer" [] []
                    (XmlNode "Source" [("filename", "missing.cl")] []) []
                    ltac:(constructor) eq_refl)).
    reflexivity.
  - apply (proj2 (loadKernelBinary_first_source Samples.fs "/cfg")
             (XmlNode "CustomLayer" [] [XmlNode "Parameters" [] []])).
    repeat constructor; discriminate.
Defined.

(* ================================================================== *)
(** ** inputDataCount *)

Lemma count_of_type_cons (ty : CustomParamType.t) (p : KernelParam) (l : list KernelParam) :
  count_of_type ty (p :: l)
  = (if CustomParamType.eqb (type p) ty then 1 else 0) + count_of_type ty l.
Proof.
  unfold count_of_type. simpl.
  destruct (CustomParamType.eqb (type p) ty); simpl List.length; lia.
Qed.

(** The count of [isInputData] is the number of Input, InputBuffer and
    Data parameters. *)
Lemma count_if_isInputData (l : list KernelParam) :
  count_if isInputData l
  = count_of_type CustomParamType.Input l
    + count_of_type CustomParamType.InputBuffer l
    + count_of_type CustomParamType.Data l.
Proof.
  induction l as [| p l IH]; [reflexivity |].
  rewrite !count_of_type_cons. cbn [count_if]. rewrite IH.
  unfold isInputData. destruct (type p); cbn [CustomParamType.eqb orb]; lia.
Qed.

Lemma count_if_bounds {A : Type} (p : A -> bool) (l : list A) :
  0 <= count_if p l <= Z.of_nat (List.length l).
Proof.
  induction l as [| x l IH]; simpl List.length; cbn [count_if]; [lia |].
  destruct (p x); lia.
Qed.

Lemma to_int_small (z : Z) : - 2 ^ 31 <= z < 2 ^ 31 -> to_int z = z.
Proof. intros H. unfold to_int. rewrite Z.mod_small; lia. Qed.

Lemma input_data_counted_intro (attr_to_int : string -> result Z) (node : xml_node)
    (this0 this1 k : CustomKernel) :
  _kernelParams this0 = [] ->
  processParametersNode attr_to_int node this0 = OK this1 ->
  _kernelParams k = _kernelParams this1 ->
  _inputDataCount k = to_int (count_if isInputData (_kernelParams k)) ->
  input_data_counted attr_to_int node k.
Proof.
  intros H0 H1 Hk Hc. unfold input_data_counted.
  split; [exists this0, this1; auto |].
  rewrite <- count_if_isInputData. split; [exact Hc |].
  intros Hlen. rewrite Hc. apply to_int_small.
  pose proof (count_if_bounds isInputData (_kernelParams k)). lia.
Qed.

Section Constructors.

Variable attr_to_int : string -> result Z.
Variable fs : string -> option string.
Variable md_arg_flags_generated_prepost : Z.
Variable md_parser_new : string -> Z -> Z -> Z -> Z -> md_parser_t.
Variable allocates : Z -> bool.

Lemma CustomCppKernel_new_counted (node : xml_node) (configDir : string)
    (k : CustomKernel) :
  CustomCppKernel_new attr_to_int fs node configDir = OK k ->
  input_data_counted attr_to_int node k.
Proof.
  unfold CustomCppKernel_new. intros H.
  bind_inv H as maxShaves _.
  bind_inv H as binary _.
  bind_inv H as this1 Hparams.
  bind_inv H as this2 Hwork.
  inversion H; subst k; clear H.
  unfold CustomCppKernel_processWorkSizesNode in Hwork.
  bind_inv Hwork as dims _.
  bind_inv Hwork as d _.
  inversion Hwork; subst this2; clear Hwork.
  eapply input_data_counted_intro; [| exact Hparams | reflexivity | reflexivity].
  reflexivity.
Qed.

(** What the first part of the [CustomClKernel] constructor leaves. *)
Lemma CustomClKernel_read_inv (node : xml_node) (configDir : string)
    (this : CustomClKernel) (kernelEntryName : string) :
  CustomClKernel_read attr_to_int fs node configDir = OK (this, kernelEntryName) ->
  attribute (Some node) "entry" = Some kernelEntryName
  /\ loadKernelBinary fs node configDir = OK (_kernelBinary (base this))
  /\ _parameters (base this) = []
  /\ input_data_counted attr_to_int node (base this).
Proof.
  unfold CustomClKernel_read. intros H.
  bind_inv H as maxShaves _.
  bind_inv H as binary Hbin.
  bind_inv H as b Hparams.
  bind_inv H as this2 Hwork.
  bind_inv H as entry Hentry.
  apply GetStrAttr_OK in Hentry.
  inversion H; subst this kernelEntryName; clear H.
  unfold CustomClKernel_processWorkSizesNode in Hwork.
  bind_inv Hwork as dims _.
  bind_inv Hwork as d _.
  bind_inv Hwork as gwgs _.
  bind_inv Hwork as lwgs _.
  inversion Hwork; subst this2; clear Hwork.
  cbn [base set_base].
  destruct (processParametersNode_OK_inv _ _ _ _ Hparams)
    as (pt & pd & ps & Hb & _).
  split; [exact Hentry |].
  split; [rewrite Hbin, Hb; reflexivity |].
  split; [rewrite Hb; reflexivity |].
  eapply input_data_counted_intro; [| exact Hparams | reflexivity | reflexivity].
  reflexivity.
Qed.

(** What the last part of the constructor has checked and stored. *)
Lemma CustomClKernel_resolve_inv (this k : CustomClKernel) (kernelEntryName : string)
    (parser : md_parser_t) :
  CustomClKernel_resolve md_arg_flags_generated_prepost allocates this kernelEntryName parser = OK k ->
  get_kernel_id parser kernelEntryName <> -1
  /\ get_kernel_count parser = 1
  /\ exists names,
      deduceKernelParameters md_arg_flags_generated_prepost allocates parser
        (get_kernel_id parser kernelEntryName) = OK names
      /\ k = mkCustomClKernel (set_parameters (base this) names)
               (_globalGridSizeRules this) (_localGridSizeRules this)
               (get_kernel_id parser kernelEntryName).
Proof.
  unfold CustomClKernel_resolve. cbn [_kernelId].
  destruct (Z.eqb_spec (get_kernel_id parser kernelEntryName) (-1)) as [| Hid];
    [discriminate |].
  destruct (Z.eqb_spec (get_kernel_count parser) 1) as [Hc |]; [| discriminate].
  cbn [negb]. intros H.
  bind_inv H as names Hnames.
  inversion H; subst k; clear H.
  split; [exact Hid |]. split; [exact Hc |].
  exists names. split; [exact Hnames | reflexivity].
Qed.

End Constructors.

(** C9: in a descriptor of either variant that was constructed,
    [inputDataCount] is the number of parsed parameters of kind Input,
    InputBuffer or Data; the other kinds are not counted. *)
Theorem inputDataCount_counts_inputs :
  forall (attr_to_int : string -> result Z) (fs : string -> option string)
         (md_arg_flags_generated_prepost : Z)
         (md_parser_new : string -> Z -> Z -> Z -> Z -> md_parser_t)
         (allocates : Z -> bool)
         (node : xml_node) (configDir : string),
    (forall k,
        CustomCppKernel_new attr_to_int fs node configDir = OK k ->
        input_data_counted attr_to_int node k)
    /\ (forall k,
           CustomClKernel_new attr_to_int fs md_arg_flags_generated_prepost md_parser_new
      allocates
             node configDir = OK k ->
           input_data_counted attr_to_int node (base k)).
Proof.
  intros attr_to_int fs prepost md_parser_new allocates node configDir. split.
  - intros k H. exact (CustomCppKernel_new_counted _ _ _ _ _ H).
  - intros k H. unfold CustomClKernel_new in H.
    bind_inv H as [this entry] Hread.
    bind_inv H as parser _.
    destruct (CustomClKernel_read_inv _ _ _ _ _ _ Hread) as (_ & _ & _ & Hcount).
    destruct (CustomClKernel_resolve_inv _ _ _ _ _ _ H) as (_ & _ & names & _ & ->).
    exact Hcount.
Qed.

Lemma inputDataCount_counts_inputs_witness :
  exists k,
    CustomClKernel_new Samples.attr_to_int Samples.fs Samples.prepost Samples.md_parser_new
      Samples.allocates
      (Samples.descriptor "kernel.elf" "entry_kernel") "/cfg" = OK k
    /\ _inputDataCount (base k) = 1
    /\ input_data_counted Samples.attr_to_int
         (Samples.descriptor "kernel.elf" "entry_kernel") (base k).
Proof.
  eexists. split; [vm_compute; reflexivity |]. split; [reflexivity |].
  exact (proj2 (inputDataCount_counts_inputs Samples.attr_to_int Samples.fs
                  Samples.prepost Samples.md_parser_new
      Samples.allocates
                  (Samples.descriptor "kernel.elf" "entry_kernel") "/cfg")
           _ eq_refl).
Defined.

(* ================================================================== *)
(** ** Binary introspection *)

Section Introspection.

Variable md_arg_flags_generated_prepost : Z.
Variable parser : md_parser_t.
Variable kernelDesc : md_kernel_descriptor_t.

Lemma shifted_indices (i : Z) (n : nat) :
  map (fun j => get_argument parser kernelDesc (i + Z.of_nat j)) (seq 1 n)
  = map (fun j => get_argument parser kernelDesc (i + 1 + Z.of_nat j)) (seq 0 n).
Proof.
  rewrite <- seq_shift, map_map. apply map_ext.
  intros j. f_equal. lia.
Qed.

(** A loop that ends normally has met an argument at each index and
    appended the names of the visible ones, in order. *)
Lemma deduce_loop_sound (n : nat) :
  forall (i : Z) (arguments names : list string),
    deduce_loop md_arg_flags_generated_prepost parser kernelDesc n i arguments = OK names ->
    exists args,
      map (fun j => get_argument parser kernelDesc (i + Z.of_nat j)) (seq 0 n)
      = map Some args
      /\ names = (arguments ++ map (get_name parser) (filter (visible md_arg_flags_generated_prepost) args))%list.
Proof.
  induction n as [| n IH]; intros i arguments names H.
  - inversion H; subst. exists []. split; [reflexivity |].
    simpl. rewrite app_nil_r. reflexivity.
  - cbn [deduce_loop] in H.
    destruct (get_argument parser kernelDesc i) as [arg |] eqn:Earg; [| discriminate H].
    destruct (Z.land (flags arg) md_arg_flags_generated_prepost =? 0) eqn:Ev;
      cbn [negb] in H; apply IH in H; destruct H as (args & Hargs & Hnames);
      exists (arg :: args); cbn [seq map]; rewrite Z.add_0_r, Earg, shifted_indices, Hargs;
      (split; [reflexivity |]); unfold visible; cbn [filter]; rewrite Ev.
    + rewrite Hnames, <- app_assoc. reflexivity.
    + exact Hnames.
Qed.

(** A loop that meets an argument at each index ends normally. *)
Lemma deduce_loop_complete (n : nat) :
  forall (i : Z) (arguments : list string) (args : list md_kernel_argument_t),
    map (fun j => get_argument parser kernelDesc (i + Z.of_nat j)) (seq 0 n)
    = map Some args ->
    deduce_loop md_arg_flags_generated_prepost parser kernelDesc n i arguments
    = OK (arguments ++ map (get_name parser) (filter (visible md_arg_flags_generated_prepost) args))%list.
Proof.
  induction n as [| n IH]; intros i arguments args H.
  - destruct args; [| discriminate H].
    simpl. rewrite app_nil_r. reflexivity.
  - destruct args as [| arg args]; [discriminate H |].
    cbn [seq map] in H. rewrite Z.add_0_r, shifted_indices in H.
    inversion H as [[Harg Hrest]].
    cbn [deduce_loop]. rewrite Harg.
    unfold visible. cbn [filter].
    destruct (Z.land (flags arg) md_arg_flags_generated_prepost =? 0) eqn:Ev;
      cbn [negb]; rewrite (IH _ _ _ Hrest); unfold visible.
    + rewrite <- app_assoc. reflexivity.
    + reflexivity.
Qed.

End Introspection.

Lemma deduceKernelParameters_OK_inv (prepost : Z) (allocates : Z -> bool)
    (parser : md_parser_t) (kernelId : Z) (names : list string) :
  deduceKernelParameters prepost allocates parser kernelId = OK names ->
  exists kernelDesc args,
    get_kernel parser kernelId = Some kernelDesc
    /\ declared_arguments parser kernelDesc (Z.to_nat (argCount kernelDesc)) = map Some args
    /\ names = map (get_name parser) (filter (visible prepost) args).
Proof.
  unfold deduceKernelParameters.
  destruct (get_kernel parser kernelId) as [kernelDesc |]; [| discriminate].
  intros H. bind_inv H as u Hreserve. apply deduce_loop_sound in H. destruct H as (args & Hargs & Hnames).
  exists kernelDesc, args. split; [reflexivity |]. split; [| exact Hnames].
  unfold declared_arguments. rewrite <- Hargs. apply map_ext. intros j. reflexivity.
Qed.

(** [deduceKernelParameters] answers whenever the kernel exists, the room
    for the names is reserved and every index below [argCount] has an
    argument. *)
Lemma deduceKernelParameters_complete (prepost : Z) (allocates : Z -> bool)
    (parser : md_parser_t) (kernelId : Z)
    (kernelDesc : md_kernel_descriptor_t) (args : list md_kernel_argument_t) :
  get_kernel parser kernelId = Some kernelDesc ->
  reserve allocates (argCount kernelDesc) = OK tt ->
  declared_arguments parser kernelDesc (Z.to_nat (argCount kernelDesc)) = map Some args ->
  deduceKernelParameters prepost allocates parser kernelId
  = OK (map (get_name parser) (filter (visible prepost) args)).
Proof.
  intros Hk Hreserve Hargs. unfold deduceKernelParameters. rewrite Hk, Hreserve. cbn [bind].
  apply (deduce_loop_complete prepost parser kernelDesc _ 0 [] args).
  unfold declared_arguments in Hargs. rewrite <- Hargs. apply map_ext. intros j. reflexivity.
Qed.

Lemma argCount_minus_one (kernelDesc : md_kernel_descriptor_t) :
  1 <= arg_count kernelDesc < 2 ^ 32 -> argCount kernelDesc = arg_count kernelDesc - 1.
Proof. intros H. unfold argCount. apply Z.mod_small. lia. Qed.

(** C3: in a constructed [CustomClKernel] the argument names are those of
    the arguments the resolved kernel declares at the indices below its
    reported argument count minus one, without the arguments flagged as
    generated, in the order of the indices. *)
Theorem deduced_parameters_skip_hoisted :
  forall (attr_to_int : string -> result Z) (fs : string -> option string)
         (md_arg_flags_generated_prepost : Z)
         (md_parser_new : string -> Z -> Z -> Z -> Z -> md_parser_t)
         (allocates : Z -> bool)
         (node : xml_node) (configDir : string) (k : CustomClKernel),
    CustomClKernel_new attr_to_int fs md_arg_flags_generated_prepost md_parser_new
      allocates
      node configDir = OK k ->
    exists parser kernelDesc args,
      CustomClKernel_metadata md_parser_new (_kernelBinary (base k)) = OK parser
      /\ get_kernel parser (_kernelId k) = Some kernelDesc
      /\ declared_arguments parser kernelDesc (Z.to_nat (argCount kernelDesc))
         = map Some args
      /\ _parameters (base k)
         = map (get_name parser) (filter (visible md_arg_flags_generated_prepost) args)
      /\ (1 <= arg_count kernelDesc < 2 ^ 32 ->
          Z.of_nat (List.length args) = arg_count kernelDesc - 1).
Proof.
  intros attr_to_int fs prepost md_parser_new allocates node configDir k H.
  unfold CustomClKernel_new in H.
  bind_inv H as [this entry] Hread.
  bind_inv H as parser Hmeta.
  destruct (CustomClKernel_resolve_inv _ _ _ _ _ _ H) as (_ & _ & names & Hnames & ->).
  destruct (deduceKernelParameters_OK_inv _ _ _ _ _ Hnames)
    as (kernelDesc & args & Hkernel & Hargs & ->).
  exists parser, kernelDesc, args. cbn [base _kernelId].
  split; [exact Hmeta |]. split; [exact Hkernel |]. split; [exact Hargs |].
  split; [reflexivity |].
  intros Hcount.
  assert (Hlen : List.length (map Some args) = Z.to_nat (argCount kernelDesc)).
  { rewrite <- Hargs. unfold declared_arguments. rewrite length_map, length_seq. reflexivity. }
  rewrite length_map in Hlen. rewrite Hlen, argCount_minus_one by exact Hcount. lia.
Qed.

Lemma deduced_parameters_skip_hoisted_witness :
  exists k,
    CustomClKernel_new Samples.attr_to_int Samples.fs Samples.prepost Samples.md_parser_new
      Samples.allocates
      (Samples.descriptor "kernel.elf" "entry_kernel") "/cfg" = OK k
    /\ _parameters (base k) = ["A"; "B"]
    /\ exists parser kernelDesc args,
        get_kernel parser (_kernelId k) = Some kernelDesc
        /\ declared_arguments parser kernelDesc (Z.to_nat (argCount kernelDesc))
           = map Some args
        /\ _parameters (base k)
           = map (get_name parser) (filter (visible Samples.prepost) args).
Proof.
  eexists. split; [vm_compute; reflexivity |]. split; [reflexivity |].
  destruct (deduced_parameters_skip_hoisted Samples.attr_to_int Samples.fs
              Samples.prepost Samples.md_parser_new
      Samples.allocates
              (Samples.descriptor "kernel.elf" "entry_kernel") "/cfg" _ eq_refl)
    as (parser & kernelDesc & args & _ & Hkernel & Hargs & Hnames & _).
  exists parser, kernelDesc, args.
  split; [exact Hkernel |]. split; [exact Hargs | exact Hnames].
Defined.

(** C4: once the descriptor is read and both metadata sections are
    located, the constructor fails with BinaryMismatch when the binary has
    no kernel of the entry name; otherwise it fails with BinaryMismatch,
    reporting the count, when the binary does not hold exactly one kernel;
    otherwise, and only then, the argument names are deduced. *)
Theorem kernel_resolved_before_deduction :
  forall (attr_to_int : string -> result Z) (fs : string -> option string)
         (md_arg_flags_generated_prepost : Z)
         (md_parser_new : string -> Z -> Z -> Z -> Z -> md_parser_t)
         (allocates : Z -> bool)
         (node : xml_node) (configDir : string)
         (this : CustomClKernel) (kernelEntryName : string) (parser : md_parser_t),
    CustomClKernel_read attr_to_int fs node configDir = OK (this, kernelEntryName) ->
    CustomClKernel_metadata md_parser_new (_kernelBinary (base this)) = OK parser ->
    let r := CustomClKernel_new attr_to_int fs md_arg_flags_generated_prepost md_parser_new
      allocates
               node configDir in
    let kernelId := get_kernel_id parser kernelEntryName in
    (kernelId = -1 ->
     r = Throw (KernelNameNotFound kernelEntryName) /\ fails_with r BinaryMismatch)
    /\ (kernelId <> -1 -> get_kernel_count parser <> 1 ->
        r = Throw (KernelCountNotOne kernelEntryName (get_kernel_count parser))
        /\ fails_with r BinaryMismatch)
    /\ (kernelId <> -1 -> get_kernel_count parser = 1 ->
        r = (names <- deduceKernelParameters md_arg_flags_generated_prepost allocates
                        parser kernelId ;;
             OK (mkCustomClKernel (set_parameters (base this) names)
                   (_globalGridSizeRules this) (_localGridSizeRules this) kernelId)))
    /\ _parameters (base this) = [].
Proof.
  intros attr_to_int fs prepost md_parser_new allocates node configDir this entry parser
         Hread Hmeta r kernelId.
  assert (Hr : r = CustomClKernel_resolve prepost allocates this entry parser).
  { subst r. unfold CustomClKernel_new. rewrite Hread. cbn [bind].
    rewrite Hmeta. reflexivity. }
  unfold CustomClKernel_resolve in Hr. cbn [_kernelId] in Hr. fold kernelId in Hr.
  split; [| split; [| split]].
  - intros Hid. rewrite Hid in Hr. cbn in Hr. rewrite Hr.
    split; [reflexivity | apply fails_with_Throw; reflexivity].
  - intros Hid Hcount.
    apply Z.eqb_neq in Hid, Hcount. rewrite Hid, Hcount in Hr. cbn [negb] in Hr.
    rewrite Hr. split; [reflexivity | apply fails_with_Throw; reflexivity].
  - intros Hid Hcount.
    apply Z.eqb_neq in Hid. apply Z.eqb_eq in Hcount.
    rewrite Hid, Hcount in Hr. cbn [negb] in Hr. exact Hr.
  - destruct (CustomClKernel_read_inv _ _ _ _ _ _ Hread) as (_ & _ & Hp & _). exact Hp.
Qed.

Lemma kernel_resolved_before_deduction_witness :
  CustomClKernel_new Samples.attr_to_int Samples.fs Samples.prepost Samples.md_parser_new
      Samples.allocates
    (Samples.descriptor "two.elf" "entry_kernel") "/cfg"
  = Throw (KernelCountNotOne "entry_kernel" 2)
  /\ CustomClKernel_new Samples.attr_to_int Samples.fs Samples.prepost Samples.md_parser_new
      Samples.allocates
       (Samples.descriptor "kernel.elf" "no_such_kernel") "/cfg"
     = Throw (KernelNameNotFound "no_such_kernel").
Proof.
  split.
  - refine (proj1 (proj1 (proj2 (kernel_resolved_before_deduction
                    Samples.attr_to_int Samples.fs Samples.prepost Samples.md_parser_new
      Samples.allocates
                    (Samples.descriptor "two.elf" "entry_kernel") "/cfg"
                    _ _ _ eq_refl eq_refl)) _ _)).
    + vm_compute. discriminate.
    + vm_compute. discriminate.
  - refine (proj1 (proj1 (kernel_resolved_before_deduction
                    Samples.attr_to_int Samples.fs Samples.prepost Samples.md_parser_new
      Samples.allocates
                    (Samples.descriptor "kernel.elf" "no_such_kernel") "/cfg"
                    _ _ _ eq_refl eq_refl) _)).
    vm_compute. reflexivity.
Defined.

(* ================================================================== *)
(** * Further properties of the sources *)
(* ================================================================== *)
(** ** Further properties of parseSizeRule *)

Lemma split_on_commas_spec_no_comma (s : string) :
  Forall (fun p => find_first_of p ","%char = None) (split_on_commas_spec s).
Proof.
  induction s as [| c s IH]; simpl.
  - constructor; [reflexivity | constructor].
  - destruct (Ascii.eqb c ","%char) eqn:Ec.
    + constructor; [reflexivity | exact IH].
    + destruct (split_on_commas_spec s) as [| p ps].
      * constructor; [simpl; rewrite Ec; reflexivity | constructor].
      * inversion IH as [| ? ? Hp Hps]; subst.
        constructor; [simpl; rewrite Ec, Hp; reflexivity | exact Hps].
Qed.

Lemma split_on_commas_spec_length (s : string) :
  List.length (split_on_commas_spec s) = (count_char ","%char s + 1)%nat.
Proof.
  induction s as [| c s IH]; simpl; [reflexivity |].
  destruct (Ascii.eqb c ","%char); simpl.
  - rewrite IH. reflexivity.
  - destruct (split_on_commas_spec s) as [| p ps]; simpl in *; lia.
Qed.

Lemma drop_empty_tail_length (l : list string) :
  (List.length l - 1 <= List.length (drop_empty_tail l) <= List.length l)%nat.
Proof.
  induction l as [| x l IH]; simpl; [lia |].
  destruct l as [| y l].
  - destruct (String.eqb x ""); simpl; lia.
  - simpl List.length in *. lia.
Qed.

Lemma drop_empty_tail_Forall (P : string -> Prop) (l : list string) :
  Forall P l -> Forall P (drop_empty_tail l).
Proof.
  induction l as [| x l IH]; intros H; simpl; [constructor |].
  inversion H as [| ? ? Hx Hl]; subst.
  destruct l as [| y l].
  - destruct (String.eqb x ""); [constructor | constructor; [exact Hx | constructor]].
  - constructor; [exact Hx | apply IH; exact Hl].
Qed.

(** X1: [parseSizeRule] never pushes more components than the capacity it
    reserved, one more than the number of commas, and never fewer than the
    number of commas; no component contains a comma. *)
Theorem parseSizeRule_within_reserve :
  forall size : string,
    (count_char ","%char size <= List.length (parseSizeRule size)
     <= parseSizeRule_reserved size)%nat
    /\ Forall (fun p => find_first_of p ","%char = None) (parseSizeRule size).
Proof.
  intros size. rewrite parseSizeRule_drop_empty_tail. unfold parseSizeRule_reserved.
  pose proof (drop_empty_tail_length (split_on_commas_spec size)) as Hlen.
  rewrite split_on_commas_spec_length in Hlen.
  split; [lia |].
  apply drop_empty_tail_Forall, split_on_commas_spec_no_comma.
Qed.

Lemma drop_empty_tail_split_nil (s : string) :
  drop_empty_tail (split_on_commas_spec s) = [] -> s = "".
Proof.
  destruct s as [| c s]; [reflexivity |]. simpl.
  destruct (Ascii.eqb c ","%char).
  - pose proof (split_on_commas_spec_nonempty s) as Hne.
    destruct (split_on_commas_spec s); [contradiction | discriminate].
  - destruct (split_on_commas_spec s) as [| p [| q qs]]; simpl; discriminate.
Qed.

Lemma concat_cons_char (c : ascii) (p : string) (R : list string) :
  String.concat "," (String c p :: R) = String c (String.concat "," (p :: R)).
Proof. destruct R; reflexivity. Qed.

Lemma concat_empty_cons (L : list string) :
  L <> [] -> String.concat "," ("" :: L) = String ","%char (String.concat "," L).
Proof. destruct L; [contradiction | reflexivity]. Qed.

(** X2: joining the components of [parseSizeRule] with commas gives the
    text back, less one comma at its end if it has one. *)
Theorem parseSizeRule_join :
  forall size : string,
    String.concat "," (parseSizeRule size) = chop_comma size.
Proof.
  intros size. rewrite parseSizeRule_drop_empty_tail.
  induction size as [| c s IH]; [reflexivity |].
  simpl split_on_commas_spec.
  pose proof (split_on_commas_spec_nonempty s) as Hne.
  destruct (Ascii.eqb c ","%char) eqn:Ec.
  - apply Ascii.eqb_eq in Ec; subst c.
    destruct (split_on_commas_spec s) as [| p ps] eqn:Es; [contradiction |].
    change (drop_empty_tail ("" :: p :: ps)) with ("" :: drop_empty_tail (p :: ps)).
    destruct s as [| c' s'].
    + simpl in Es. inversion Es; subst. reflexivity.
    + assert (Hd : drop_empty_tail (p :: ps) <> []).
      { intros Ed. rewrite <- Es in Ed. apply drop_empty_tail_split_nil in Ed.
        discriminate Ed. }
      rewrite concat_empty_cons by exact Hd. rewrite IH. reflexivity.
  - destruct (split_on_commas_spec s) as [| p ps] eqn:Es; [contradiction |].
    destruct ps as [| q qs].
    + cbn [drop_empty_tail String.eqb String.concat].
      destruct s as [| c' s'].
      * simpl in Es. inversion Es; subst. simpl. rewrite Ec. reflexivity.
      * change (chop_comma (String c (String c' s')))
          with (String c (chop_comma (String c' s'))).
        rewrite <- IH. cbn [drop_empty_tail].
        destruct (String.eqb_spec p "") as [-> | Hp]; [reflexivity | reflexivity].
    + change (drop_empty_tail (String c p :: q :: qs))
        with (String c p :: drop_empty_tail (q :: qs)).
      change (drop_empty_tail (p :: q :: qs)) with (p :: drop_empty_tail (q :: qs)) in IH.
      rewrite concat_cons_char, IH.
      destruct s as [| c' s']; [discriminate Es | reflexivity].
Qed.

(* ================================================================== *)
(** ** The ELF walk *)

Lemma get_None_length (s : string) (n : nat) :
  (String.length s <= n)%nat -> String.get n s = None.
Proof.
  revert n; induction s as [| c s IH]; intros n H; simpl in *.
  - destruct n; reflexivity.
  - destruct n as [| n]; [lia |]. apply IH. lia.
Qed.

Lemma get_Some_length (s : string) (n : nat) (c : ascii) :
  String.get n s = Some c -> (n < String.length s)%nat.
Proof.
  revert n; induction s as [| a s IH]; intros n H; simpl in *.
  - destruct n; discriminate H.
  - destruct n as [| n]; [lia |]. apply IH in H. lia.
Qed.

(** A byte is read only inside the buffer or at its terminating zero. *)
Lemma load_u8_OK_inv (elf_data : string) (addr b : Z) :
  load_u8 elf_data addr = OK b ->
  0 <= addr <= Z.of_nat (String.length elf_data) /\ 0 <= b < 256.
Proof.
  unfold load_u8. destruct (Z.ltb_spec addr 0) as [Hneg | Hpos]; [discriminate |].
  destruct (String.get (Z.to_nat addr) elf_data) as [c |] eqn:Eg.
  - intros H; inversion H; subst b. apply get_Some_length in Eg.
    pose proof (N_ascii_bounded c) as Hc. lia.
  - destruct (Z.eqb_spec addr (Z.of_nat (String.length elf_data))); [| discriminate].
    intros H; inversion H; subst. lia.
Qed.

Lemma load_u8_Throw_inv (elf_data : string) (addr : Z) (e : exception) :
  load_u8 elf_data addr = Throw e -> e = MemoryReadOutOfRange.
Proof.
  unfold load_u8. destruct (addr <? 0); [intros H; inversion H; reflexivity |].
  destruct (String.get (Z.to_nat addr) elf_data); [discriminate |].
  destruct (addr =? Z.of_nat (String.length elf_data)); [discriminate |].
  intros H; inversion H; reflexivity.
Qed.

Lemma load_u8_beyond (elf_data : string) (addr : Z) :
  Z.of_nat (String.length elf_data) < addr ->
  load_u8 elf_data addr = Throw MemoryReadOutOfRange.
Proof.
  intros H. destruct (load_u8 elf_data addr) as [b | e] eqn:E.
  - apply load_u8_OK_inv in E. lia.
  - apply load_u8_Throw_inv in E. subst e. reflexivity.
Qed.

Lemma load_u32_beyond (elf_data : string) (addr : Z) :
  Z.of_nat (String.length elf_data) < addr + 3 ->
  load_u32 elf_data addr = Throw MemoryReadOutOfRange.
Proof.
  intros H. unfold load_u32.
  destruct (load_u8 elf_data addr) as [b0 | e] eqn:E0; cbn [bind];
    [| apply load_u8_Throw_inv in E0; subst e; reflexivity].
  destruct (load_u8 elf_data (addr + 1)) as [b1 | e] eqn:E1; cbn [bind];
    [| apply load_u8_Throw_inv in E1; subst e; reflexivity].
  destruct (load_u8 elf_data (addr + 2)) as [b2 | e] eqn:E2; cbn [bind];
    [| apply load_u8_Throw_inv in E2; subst e; reflexivity].
  rewrite load_u8_beyond by exact H. reflexivity.
Qed.

(** [strcmp] answers zero exactly on the string it is compared with. *)
Lemma strcmp_eq_true (elf_data : string) (name : string) :
  forall addr, strcmp_eq elf_data addr name = OK true <-> c_string_at elf_data addr name.
Proof.
  induction name as [| c rest IH]; intros addr; cbn [strcmp_eq c_string_at].
  - destruct (load_u8 elf_data addr) as [b | e]; cbn [bind].
    + split; intros H.
      * inversion H as [Hb]. apply Z.eqb_eq in Hb. subst b. reflexivity.
      * inversion H; subst. reflexivity.
    + split; intros H; discriminate H.
  - destruct (load_u8 elf_data addr) as [b | e]; cbn [bind].
    + destruct (Z.eqb_spec b (Z.of_N (N_of_ascii c))) as [-> | Hne].
      * rewrite IH. split; [intros H; split; [reflexivity | exact H] | intros [_ H]; exact H].
      * split; [discriminate |]. intros [H _]. inversion H. contradiction.
    + split; [discriminate | intros [H _]; discriminate H].
Qed.

Section Walk.

Variable elf_data : string.
Variable shdr firstStr : Z.
Variable section_name : string.

Lemma section_loop_step_named (i : Z) (shName : Z) :
  load_u32 elf_data (shdr + sizeof_Elf32Shdr * i + Elf32Shdr_shName) = OK shName ->
  strcmp_eq elf_data (firstStr + shName) section_name = OK false ->
  ~ section_named elf_data shdr firstStr i section_name.
Proof.
  intros Hload Hcmp (shName' & Hload' & Hstr).
  rewrite Hload in Hload'. inversion Hload'; subst shName'.
  apply strcmp_eq_true in Hstr. rewrite Hstr in Hcmp. discriminate Hcmp.
Qed.

(** The loop stops at the first section of the wanted name. *)
Lemma section_loop_found (n : nat) :
  forall (i0 entry : Z),
    section_loop elf_data shdr firstStr section_name n i0 = OK (Some entry) ->
    exists k : nat,
      (k < n)%nat
      /\ entry = shdr + sizeof_Elf32Shdr * (i0 + Z.of_nat k)
      /\ section_named elf_data shdr firstStr (i0 + Z.of_nat k) section_name
      /\ forall j : nat,
          (j < k)%nat ->
          ~ section_named elf_data shdr firstStr (i0 + Z.of_nat j) section_name.
Proof.
  induction n as [| n IH]; intros i0 entry H; [discriminate H |].
  cbn [section_loop] in H.
  bind_inv H as shName Hload. bind_inv H as same Hcmp.
  destruct same.
  - inversion H; subst entry. exists O. rewrite Z.add_0_r.
    split; [lia |]. split; [reflexivity |].
    split; [| intros j Hj; lia].
    exists shName. split; [exact Hload | apply strcmp_eq_true; exact Hcmp].
  - apply IH in H. destruct H as (k & Hk & Hentry & Hnamed & Hfirst).
    exists (S k). replace (i0 + Z.of_nat (S k)) with (i0 + 1 + Z.of_nat k) by lia.
    split; [lia |]. split; [exact Hentry |]. split; [exact Hnamed |].
    intros [| j] Hj.
    + rewrite Z.add_0_r. exact (section_loop_step_named i0 shName Hload Hcmp).
    + replace (i0 + Z.of_nat (S j)) with (i0 + 1 + Z.of_nat j) by lia.
      apply Hfirst. lia.
Qed.

(** The loop answers [nullptr] only when no section has the name. *)
Lemma section_loop_null (n : nat) :
  forall i0 : Z,
    section_loop elf_data shdr firstStr section_name n i0 = OK None ->
    forall j : nat,
      (j < n)%nat ->
      ~ section_named elf_data shdr firstStr (i0 + Z.of_nat j) section_name.
Proof.
  induction n as [| n IH]; intros i0 H j Hj; [lia |].
  cbn [section_loop] in H.
  bind_inv H as shName Hload. bind_inv H as same Hcmp.
  destruct same; [discriminate H |].
  destruct j as [| j].
  - rewrite Z.add_0_r. exact (section_loop_step_named i0 shName Hload Hcmp).
  - replace (i0 + Z.of_nat (S j)) with (i0 + 1 + Z.of_nat j) by lia.
    apply (IH _ H). lia.
Qed.

End Walk.

Lemma load_u16_nonneg (elf_data : string) (addr v : Z) :
  load_u16 elf_data addr = OK v -> 0 <= v.
Proof.
  unfold load_u16. intros H. bind_inv H as b0 H0. bind_inv H as b1 H1.
  injection H as Hv. subst v. apply load_u8_OK_inv in H0, H1.
  change (0 <= Z.lor b0 (Z.shiftl b1 8)).
  rewrite Z.lor_nonneg, Z.shiftl_nonneg. lia.
Qed.

(** What a call that returns has read of the header. *)
Lemma get_elf_section_with_name_OK_inv (elf_data section_name : string) (r : option Z) :
  get_elf_section_with_name elf_data section_name = OK r ->
  exists shdr firstStr eShnum,
    section_table elf_data shdr firstStr eShnum
    /\ shdr <> 0 /\ 0 <= eShnum
    /\ section_loop elf_data shdr firstStr section_name (Z.to_nat eShnum) 0 = OK r.
Proof.
  unfold get_elf_section_with_name. intros H.
  bind_inv H as eShoff Hshoff.
  destruct (Z.eqb_spec eShoff 0) as [| Hnz]; [discriminate H |].
  bind_inv H as ePhoff Hphoff.
  destruct (Z.eqb_spec ePhoff 0) as [| Hpnz]; [discriminate H |].
  bind_inv H as eShstrndx Hstrndx.
  bind_inv H as firstStr Hfirst.
  bind_inv H as eShnum Hnum.
  exists eShoff, firstStr, eShnum.
  split; [split; [exact Hshoff | split; [exists eShstrndx; split; assumption | exact Hnum]] |].
  split; [exact Hnz |]. split; [exact (load_u16_nonneg _ _ _ Hnum) | exact H].
Qed.

(** X3: the section header [get_elf_section_with_name] returns is the
    first one, among the [eShnum] headers of the table at [eShoff], whose
    name in the section-name string table is the wanted name followed by a
    zero byte. *)
Theorem get_elf_section_with_name_found :
  forall (elf_data section_name : string) (entry : Z),
    get_elf_section_with_name elf_data section_name = OK (Some entry) ->
    exists shdr firstStr eShnum i,
      section_table elf_data shdr firstStr eShnum
      /\ shdr <> 0
      /\ 0 <= i < eShnum
      /\ entry = shdr + sizeof_Elf32Shdr * i
      /\ section_named elf_data shdr firstStr i section_name
      /\ forall j, 0 <= j < i -> ~ section_named elf_data shdr firstStr j section_name.
Proof.
  intros elf_data section_name entry H.
  destruct (get_elf_section_with_name_OK_inv _ _ _ H)
    as (shdr & firstStr & eShnum & Htable & Hnz & Hnum & Hloop).
  destruct (section_loop_found _ _ _ _ _ _ _ Hloop) as (k & Hk & Hentry & Hnamed & Hfirst).
  exists shdr, firstStr, eShnum, (Z.of_nat k). rewrite Z.add_0_l in *.
  split; [exact Htable |]. split; [exact Hnz |]. split; [lia |].
  split; [exact Hentry |]. split; [exact Hnamed |].
  intros j Hj. specialize (Hfirst (Z.to_nat j) ltac:(lia)).
  rewrite Z.add_0_l, Z2Nat.id in Hfirst by lia. exact Hfirst.
Qed.

Lemma get_elf_section_with_name_found_witness :
  exists shdr firstStr eShnum i,
    section_table Samples.elf shdr firstStr eShnum
    /\ 0 <= i < eShnum
    /\ 132 = shdr + sizeof_Elf32Shdr * i
    /\ section_named Samples.elf shdr firstStr i ".neo_metadata.str".
Proof.
  destruct (get_elf_section_with_name_found Samples.elf ".neo_metadata.str" 132 eq_refl)
    as (shdr & firstStr & eShnum & i & Htable & _ & Hi & Hentry & Hnamed & _).
  exists shdr, firstStr, eShnum, i.
  split; [exact Htable |]. split; [exact Hi |]. split; [exact Hentry | exact Hnamed].
Defined.

(** X4: [get_elf_section_with_name] answers [nullptr] only for a binary
    none of whose [eShnum] section headers has the wanted name. *)
Theorem get_elf_section_with_name_null :
  forall (elf_data section_name : string),
    get_elf_section_with_name elf_data section_name = OK None ->
    exists shdr firstStr eShnum,
      section_table elf_data shdr firstStr eShnum
      /\ forall i, 0 <= i < eShnum -> ~ section_named elf_data shdr firstStr i section_name.
Proof.
  intros elf_data section_name H.
  destruct (get_elf_section_with_name_OK_inv _ _ _ H)
    as (shdr & firstStr & eShnum & Htable & Hnz & Hnum & Hloop).
  exists shdr, firstStr, eShnum. split; [exact Htable |].
  intros i Hi.
  pose proof (section_loop_null _ _ _ _ _ _ Hloop (Z.to_nat i) ltac:(lia)) as Hno.
  rewrite Z.add_0_l, Z2Nat.id in Hno by lia. exact Hno.
Qed.

Lemma get_elf_section_with_name_null_witness :
  exists shdr firstStr eShnum,
    section_table Samples.elf_no_metadata shdr firstStr eShnum
    /\ forall i, 0 <= i < eShnum ->
                 ~ section_named Samples.elf_no_metadata shdr firstStr i ".neo_metadata".
Proof.
  exact (get_elf_section_with_name_null Samples.elf_no_metadata ".neo_metadata" eq_refl).
Defined.

(** X5: the section walk does not check the size of the binary: on one
    shorter than 35 bytes its first header read is outside the buffer, and
    so is that of the [CustomClKernel] constructor once the descriptor is
    read. *)
Theorem get_elf_section_with_name_truncated :
  forall (elf_data section_name : string),
    (String.length elf_data < 35)%nat ->
    get_elf_section_with_name elf_data section_name = Throw MemoryReadOutOfRange
    /\ forall (attr_to_int : string -> result Z) (fs : string -> option string)
              (md_arg_flags_generated_prepost : Z)
              (md_parser_new : string -> Z -> Z -> Z -> Z -> md_parser_t)
         (allocates : Z -> bool)
              (node : xml_node) (configDir : string)
              (this : CustomClKernel) (kernelEntryName : string),
        CustomClKernel_read attr_to_int fs node configDir = OK (this, kernelEntryName) ->
        _kernelBinary (base this) = elf_data ->
        CustomClKernel_new attr_to_int fs md_arg_flags_generated_prepost md_parser_new
      allocates
          node configDir = Throw MemoryReadOutOfRange.
Proof.
  intros elf_data section_name Hlen.
  assert (Hwalk : forall name,
             get_elf_section_with_name elf_data name = Throw MemoryReadOutOfRange).
  { intros name. unfold get_elf_section_with_name.
    rewrite load_u32_beyond; [reflexivity |]. unfold Elf32Ehdr_eShoff. lia. }
  split; [apply Hwalk |].
  intros attr_to_int fs prepost md_parser_new allocates node configDir this entry Hread Hbin.
  unfold CustomClKernel_new. rewrite Hread. cbn [bind].
  unfold CustomClKernel_metadata. rewrite Hbin, Hwalk. reflexivity.
Qed.

Lemma get_elf_section_with_name_truncated_witness :
  get_elf_section_with_name "ELF" ".neo_metadata" = Throw MemoryReadOutOfRange.
Proof.
  exact (proj1 (get_elf_section_with_name_truncated "ELF" ".neo_metadata"
                  ltac:(simpl; lia))).
Defined.

(* ================================================================== *)
(** ** The constructors, end to end *)

Lemma set_kernelParams_same (this : CustomKernel) :
  set_kernelParams this (_kernelParams this ++ []) = this.
Proof. destruct this; unfold set_kernelParams; simpl. rewrite app_nil_r. reflexivity. Qed.

Section EndToEnd.

Variable attr_to_int : string -> result Z.
Variable fs : string -> option string.
Variable md_arg_flags_generated_prepost : Z.
Variable md_parser_new : string -> Z -> Z -> Z -> Z -> md_parser_t.
Variable allocates : Z -> bool.

(** The [CustomCppKernel] constructor as one chain of its five reads. *)
Lemma CustomCppKernel_new_chain (node : xml_node) (configDir : string) :
  CustomCppKernel_new attr_to_int fs node configDir =
  (maxShaves <- GetIntAttr_def attr_to_int (Some node) "max-shaves" 0 ;;
   binary <- loadKernelBinary fs node configDir ;;
   kps <- parse_all (parse_element attr_to_int) (parameter_sequence node) ;;
   dims <- GetStrAttr (child (Some node) "WorkSizes") "dim" ;;
   d <- parseDimSource dims ;;
   OK (mkCustomKernel binary kps (map argName kps) (fst d) (snd d) maxShaves
         (to_int (count_if isInputData kps)))).
Proof.
  unfold CustomCppKernel_new.
  destruct (GetIntAttr_def attr_to_int (Some node) "max-shaves" 0) as [m | e];
    cbn [bind]; [| reflexivity].
  destruct (loadKernelBinary fs node configDir) as [binary | e]; cbn [bind]; [| reflexivity].
  rewrite processParametersNode_sequence.
  destruct (parse_all (parse_element attr_to_int) (parameter_sequence node)) as [kps | e];
    cbn [bind]; [| reflexivity].
  unfold CustomCppKernel_processWorkSizesNode.
  destruct (GetStrAttr (child (Some node) "WorkSizes") "dim") as [dims | e];
    cbn [bind]; [| reflexivity].
  destruct (parseDimSource dims) as [d | e]; cbn [bind]; reflexivity.
Qed.

(** The first part of the [CustomClKernel] constructor as one chain. *)
Lemma CustomClKernel_read_chain (node : xml_node) (configDir : string) :
  CustomClKernel_read attr_to_int fs node configDir =
  (maxShaves <- GetIntAttr_def attr_to_int (Some node) "max-shaves" 0 ;;
   binary <- loadKernelBinary fs node configDir ;;
   kps <- parse_all (parse_element attr_to_int) (parameter_sequence node) ;;
   dims <- GetStrAttr (child (Some node) "WorkSizes") "dim" ;;
   d <- parseDimSource dims ;;
   gwgs <- GetStrAttr (child (Some node) "WorkSizes") "global" ;;
   lwgs <- GetStrAttr (child (Some node) "WorkSizes") "local" ;;
   kernelEntryName <- GetStrAttr (Some node) "entry" ;;
   OK (mkCustomClKernel
         (mkCustomKernel binary kps [] (fst d) (snd d) maxShaves
            (to_int (count_if isInputData kps)))
         (parseSizeRule gwgs) (parseSizeRule lwgs) 0,
       kernelEntryName)).
Proof.
  unfold CustomClKernel_read.
  destruct (GetIntAttr_def attr_to_int (Some node) "max-shaves" 0) as [m | e];
    cbn [bind]; [| reflexivity].
  destruct (loadKernelBinary fs node configDir) as [binary | e]; cbn [bind]; [| reflexivity].
  rewrite processParametersNode_sequence.
  destruct (parse_all (parse_element attr_to_int) (parameter_sequence node)) as [kps | e];
    cbn [bind]; [| reflexivity].
  unfold CustomClKernel_processWorkSizesNode.
  destruct (GetStrAttr (child (Some node) "WorkSizes") "dim") as [dims | e];
    cbn [bind]; [| reflexivity].
  destruct (parseDimSource dims) as [d | e]; cbn [bind]; [| reflexivity].
  destruct (GetStrAttr (child (Some node) "WorkSizes") "global") as [gwgs | e];
    cbn [bind]; [| reflexivity].
  destruct (GetStrAttr (child (Some node) "WorkSizes") "local") as [lwgs | e];
    cbn [bind]; [| reflexivity].
  destruct (GetStrAttr (Some node) "entry") as [entry | e]; cbn [bind]; reflexivity.
Qed.

End EndToEnd.

Lemma GetIntAttr_def_absent (attr_to_int : string -> result Z) (h : xml_handle)
    (str : string) (def v : Z) :
  attribute h str = None -> GetIntAttr_def attr_to_int h str def = OK v -> v = def.
Proof.
  unfold GetIntAttr_def. intros ->. intros H; inversion H; reflexivity.
Qed.

(** What a successful run of the [Scalar] body has read and stored. *)
Lemma parseScalar_OK_inv (attr_to_int : string -> result Z) (scalar : xml_node)
    (kp : KernelParam) :
  parseScalar attr_to_int scalar = OK kp ->
  exists typeStr name,
    attribute (Some scalar) "type" = Some typeStr
    /\ ((lower typeStr = "int" /\ type kp = CustomParamType.Int)
        \/ (lower typeStr = "float" /\ type kp = CustomParamType.Float))
    /\ attribute (Some scalar) "arg-name" = Some name /\ argName kp = name
    /\ GetIntAttr_def attr_to_int (Some scalar) "port-index" (-1) = OK (portIndex kp)
    /\ irSource kp = GetStrAttr_def (Some scalar) "source" ""
    /\ format kp = CustomDataFormat.Any
    /\ bufferSizeRule kp = "" /\ dimSource kp = None /\ dimIdx kp = -1.
Proof.
  unfold parseScalar. intros H.
  bind_inv H as typeStr Htype. apply GetStrAttr_OK in Htype.
  bind_inv H as kp1 Hkp1.
  bind_inv H as name Hname. apply GetStrAttr_OK in Hname.
  bind_inv H as port Hport.
  inversion H; subst kp; clear H.
  exists typeStr, name.
  split; [exact Htype |].
  destruct (CaselessEq typeStr "int") eqn:E1;
    [| destruct (CaselessEq typeStr "float") eqn:E2; [| discriminate Hkp1]];
    inversion Hkp1; subst kp1; clear Hkp1; cbn.
  - apply CaselessEq_true in E1. repeat (split; [first [assumption | tauto | reflexivity] |]).
    reflexivity.
  - apply CaselessEq_true in E2. repeat (split; [first [assumption | tauto | reflexivity] |]).
    reflexivity.
Qed.

(** Every body stores the element's [arg-name]. *)
Lemma parse_element_argName (attr_to_int : string -> result Z) (x : xml_node)
    (kp : KernelParam) :
  parse_element attr_to_int x = OK kp ->
  attribute (Some x) "arg-name" = Some (argName kp).
Proof.
  unfold parse_element.
  destruct (String.eqb (node_name x) "Tensor");
    [| destruct (String.eqb (node_name x) "Data")]; intros H.
  - destruct (parseTensor_OK_inv _ _ _ H)
      as (typeStr & fmt & name & port & _ & _ & Hname & _ & _ & Harg & _).
    rewrite Hname, Harg. reflexivity.
  - destruct (parseData_OK_inv _ _ H) as (typeStr & name & _ & Hname & Harg & _).
    rewrite Hname, Harg. reflexivity.
  - destruct (parseScalar_OK_inv _ _ _ H) as (typeStr & name & _ & _ & Hname & Harg & _).
    rewrite Hname, Harg. reflexivity.
Qed.

Lemma parse_all_argNames (attr_to_int : string -> result Z) (l : list xml_node)
    (kps : list KernelParam) :
  parse_all (parse_element attr_to_int) l = OK kps ->
  map (fun x => attribute (Some x) "arg-name") l = map Some (map argName kps).
Proof.
  intros H. apply parse_all_OK_iff in H.
  induction H as [| x kp l kps Hx Hrest IH]; [reflexivity |].
  cbn [map]. rewrite (parse_element_argName _ _ _ Hx), IH. reflexivity.
Qed.

(** X6: the argument names of a constructed native kernel are the
    [arg-name] attributes of the [Tensor], then the [Data], then the
    [Scalar] elements of its [Parameters] block, each group in document
    order: the names of its parameters, one for one. *)
Theorem CustomCppKernel_parameters_are_arg_names :
  forall (attr_to_int : string -> result Z) (fs : string -> option string)
         (node : xml_node) (configDir : string) (k : CustomKernel),
    CustomCppKernel_new attr_to_int fs node configDir = OK k ->
    _parameters k = map argName (_kernelParams k)
    /\ map Some (_parameters k)
       = map (fun x => attribute (Some x) "arg-name") (parameter_sequence node)
    /\ List.length (_parameters k) = List.length (parameter_sequence node).
Proof.
  intros attr_to_int fs node configDir k H.
  rewrite CustomCppKernel_new_chain in H.
  bind_inv H as maxShaves Hmax. bind_inv H as binary Hbin. bind_inv H as kps Hkps.
  bind_inv H as dims Hdims. bind_inv H as d Hd.
  inversion H; subst k; clear H. cbn [_parameters _kernelParams].
  split; [reflexivity |].
  split; [symmetry; apply (parse_all_argNames attr_to_int); exact Hkps |].
  rewrite length_map. apply (parse_all_length _ _ _ Hkps).
Qed.

Lemma CustomCppKernel_parameters_are_arg_names_witness :
  exists k,
    CustomCppKernel_new Samples.attr_to_int Samples.fs MoreSamples.native "/cfg" = OK k
    /\ _parameters k = ["src"; "dst"; "buf"; "G"]
    /\ _parameters k = map argName (_kernelParams k).
Proof.
  eexists. split; [vm_compute; reflexivity |]. split; [reflexivity |].
  exact (proj1 (CustomCppKernel_parameters_are_arg_names Samples.attr_to_int Samples.fs
                  MoreSamples.native "/cfg" _ eq_refl)).
Defined.

(** X7: a constructed descriptor of either variant carries the
    [max-shaves] attribute (0 when the attribute is absent), the contents
    of the kernel file, and the work-group dimension that [parseDimSource]
    reads from the [dim] attribute of the first [WorkSizes] child; the
    compiled variant also carries the components of the [global] and
    [local] attributes, which the native variant does not need. *)
Theorem constructed_descriptor_reflects_xml :
  forall (attr_to_int : string -> result Z) (fs : string -> option string)
         (md_arg_flags_generated_prepost : Z)
         (md_parser_new : string -> Z -> Z -> Z -> Z -> md_parser_t)
         (allocates : Z -> bool)
         (node : xml_node) (configDir : string),
    let workSizes := child (Some node) "WorkSizes" in
    let reflects (k : CustomKernel) :=
      GetIntAttr_def attr_to_int (Some node) "max-shaves" 0 = OK (_maxShaves k)
      /\ (attribute (Some node) "max-shaves" = None -> _maxShaves k = 0)
      /\ loadKernelBinary fs node configDir = OK (_kernelBinary k)
      /\ exists dims,
          attribute workSizes "dim" = Some dims
          /\ parseDimSource dims = OK (_wgDimSource k, _wgDimIdx k) in
    (forall k,
        CustomCppKernel_new attr_to_int fs node configDir = OK k -> reflects k)
    /\ (forall k,
           CustomClKernel_new attr_to_int fs md_arg_flags_generated_prepost md_parser_new
      allocates
             node configDir = OK k ->
           reflects (base k)
           /\ exists gwgs lwgs,
               attribute workSizes "global" = Some gwgs
               /\ attribute workSizes "local" = Some lwgs
               /\ _globalGridSizeRules k = parseSizeRule gwgs
               /\ _localGridSizeRules k = parseSizeRule lwgs).
Proof.
  intros attr_to_int fs prepost md_parser_new allocates node configDir workSizes reflects.
  split.
  - intros k H. rewrite CustomCppKernel_new_chain in H.
    bind_inv H as maxShaves Hmax. bind_inv H as binary Hbin. bind_inv H as kps Hkps.
    bind_inv H as dims Hdims. bind_inv H as d Hd. apply GetStrAttr_OK in Hdims.
    inversion H; subst k; clear H. unfold reflects.
    cbn [_maxShaves _kernelBinary _wgDimSource _wgDimIdx base set_parameters
         _globalGridSizeRules _localGridSizeRules].
    split; [exact Hmax |].
    split; [intros Habs; exact (GetIntAttr_def_absent _ _ _ _ _ Habs Hmax) |].
    split; [exact Hbin |].
    exists dims. split; [exact Hdims |]. rewrite Hd. destruct d; reflexivity.
  - intros k H. unfold CustomClKernel_new in H.
    bind_inv H as pair Hread. destruct pair as [this entry].
    bind_inv H as parser Hmeta.
    destruct (CustomClKernel_resolve_inv _ _ _ _ _ _ H) as (_ & _ & names & _ & ->).
    rewrite CustomClKernel_read_chain in Hread.
    bind_inv Hread as maxShaves Hmax. bind_inv Hread as binary Hbin.
    bind_inv Hread as kps Hkps.
    bind_inv Hread as dims Hdims. bind_inv Hread as d Hd. apply GetStrAttr_OK in Hdims.
    bind_inv Hread as gwgs Hg. apply GetStrAttr_OK in Hg.
    bind_inv Hread as lwgs Hl. apply GetStrAttr_OK in Hl.
    bind_inv Hread as entry' Hentry.
    inversion Hread; subst this entry'; clear Hread. unfold reflects.
    cbn [_maxShaves _kernelBinary _wgDimSource _wgDimIdx base set_parameters
         _globalGridSizeRules _localGridSizeRules].
    split.
    + split; [exact Hmax |].
      split; [intros Habs; exact (GetIntAttr_def_absent _ _ _ _ _ Habs Hmax) |].
      split; [exact Hbin |].
      exists dims. split; [exact Hdims |]. rewrite Hd. destruct d; reflexivity.
    + exists gwgs, lwgs. repeat split; assumption.
Qed.

Lemma constructed_descriptor_reflects_xml_witness :
  exists k,
    CustomCppKernel_new Samples.attr_to_int Samples.fs MoreSamples.native "/cfg" = OK k
    /\ _maxShaves k = 4
    /\ (_wgDimSource k, _wgDimIdx k) = (CustomDimSource.Output, 1)
    /\ exists dims,
        attribute (child (Some MoreSamples.native) "WorkSizes") "dim" = Some dims
        /\ parseDimSource dims = OK (_wgDimSource k, _wgDimIdx k).
Proof.
  eexists. split; [vm_compute; reflexivity |]. split; [reflexivity |].
  split; [reflexivity |].
  exact (proj2 (proj2 (proj2 (proj1 (constructed_descriptor_reflects_xml
                  Samples.attr_to_int Samples.fs Samples.prepost Samples.md_parser_new
      Samples.allocates
                  MoreSamples.native "/cfg") _ eq_refl)))).
Defined.

(** X8: the constructors read in a fixed order and stop at the first
    failure: a [max-shaves] that does not convert is reported whatever
    else is wrong; then a kernel file that is missing, whatever the
    [Parameters] block and the [WorkSizes] hold; then the first element of
    the [Parameters] block that does not parse, before [WorkSizes] is
    looked at. *)
Theorem constructors_fail_in_reading_order :
  forall (attr_to_int : string -> result Z) (fs : string -> option string)
         (md_arg_flags_generated_prepost : Z)
         (md_parser_new : string -> Z -> Z -> Z -> Z -> md_parser_t)
         (allocates : Z -> bool)
         (node : xml_node) (configDir : string) (e : exception),
    let cpp := CustomCppKernel_new attr_to_int fs node configDir in
    let cl := CustomClKernel_new attr_to_int fs md_arg_flags_generated_prepost
                md_parser_new allocates node configDir in
    let maxShaves := GetIntAttr_def attr_to_int (Some node) "max-shaves" 0 in
    (maxShaves = Throw e -> cpp = Throw e /\ cl = Throw e)
    /\ (succeeds maxShaves = true ->
        loadKernelBinary fs node configDir = Throw e -> cpp = Throw e /\ cl = Throw e)
    /\ (succeeds maxShaves = true ->
        succeeds (loadKernelBinary fs node configDir) = true ->
        parse_all (parse_element attr_to_int) (parameter_sequence node) = Throw e ->
        cpp = Throw e /\ cl = Throw e).
Proof.
  intros attr_to_int fs prepost md_parser_new allocates node configDir e cpp cl maxShaves.
  subst cpp cl maxShaves. unfold CustomClKernel_new.
  rewrite CustomCppKernel_new_chain, CustomClKernel_read_chain.
  destruct (GetIntAttr_def attr_to_int (Some node) "max-shaves" 0) as [m | e1];
    cbn [bind succeeds].
  - split; [intros H; discriminate H |].
    destruct (loadKernelBinary fs node configDir) as [binary | e2]; cbn [bind succeeds].
    + split; [intros _ H; discriminate H |].
      intros _ _ H. rewrite H. cbn [bind]. split; reflexivity.
    + split; [intros _ H; inversion H; subst; split; reflexivity |].
      intros _ H; discriminate H.
  - split; [intros H; inversion H; subst; split; reflexivity |].
    split; [intros H; discriminate H | intros H; discriminate H].
Qed.

Lemma constructors_fail_in_reading_order_witness :
  CustomCppKernel_new Samples.attr_to_int Samples.fs MoreSamples.missing_file "/cfg"
  = Throw (KernelFileNotOpened "/cfg/missing.cl")
  /\ CustomClKernel_new Samples.attr_to_int Samples.fs Samples.prepost
       Samples.md_parser_new Samples.allocates MoreSamples.missing_file "/cfg"
     = Throw (KernelFileNotOpened "/cfg/missing.cl").
Proof.
  exact (proj1 (proj2 (constructors_fail_in_reading_order Samples.attr_to_int Samples.fs
                         Samples.prepost Samples.md_parser_new Samples.allocates MoreSamples.missing_file
                         "/cfg" (KernelFileNotOpened "/cfg/missing.cl")))
           eq_refl eq_refl).
Defined.

(** X9: the native-kernel constructor reads of the descriptor only the
    [max-shaves] attribute, the first [Source] and [Parameters] children
    and the [dim] attribute of the first [WorkSizes] child: two
    descriptors that agree on these are constructed alike, whatever their
    [entry], [global] and [local] attributes and their other children. *)
Theorem CustomCppKernel_new_reads_only :
  forall (attr_to_int : string -> result Z) (fs : string -> option string)
         (node node' : xml_node) (configDir : string),
    attribute (Some node) "max-shaves" = attribute (Some node') "max-shaves" ->
    child (Some node) "Source" = child (Some node') "Source" ->
    child (Some node) "Parameters" = child (Some node') "Parameters" ->
    handle_name (child (Some node) "WorkSizes")
    = handle_name (child (Some node') "WorkSizes") ->
    attribute (child (Some node) "WorkSizes") "dim"
    = attribute (child (Some node') "WorkSizes") "dim" ->
    CustomCppKernel_new attr_to_int fs node configDir
    = CustomCppKernel_new attr_to_int fs node' configDir.
Proof.
  intros attr_to_int fs node node' configDir Hmax Hsrc Hpar Hname Hdim.
  rewrite !CustomCppKernel_new_chain.
  unfold GetIntAttr_def, GetIntAttr, loadKernelBinary, parameter_sequence,
    parameter_elements, GetStrAttr.
  rewrite Hmax, Hsrc, Hpar, Hname, Hdim.
  destruct (attribute (Some node') "max-shaves"); reflexivity.
Qed.

Lemma CustomCppKernel_new_reads_only_witness :
  CustomCppKernel_new Samples.attr_to_int Samples.fs
    (Samples.descriptor "kernel.elf" "entry_kernel") "/cfg"
  = CustomCppKernel_new Samples.attr_to_int Samples.fs
      (XmlNode "CustomLayer" []
         [ XmlNode "Source" [("filename", "kernel.elf")] [];
           XmlNode "Parameters" []
             [ Samples.tensor "input" "A" "0"; Samples.tensor "output" "B" "0" ];
           XmlNode "WorkSizes" [("dim", "input,0")] [] ]) "/cfg".
Proof.
  exact (CustomCppKernel_new_reads_only Samples.attr_to_int Samples.fs _ _ "/cfg"
           eq_refl eq_refl eq_refl eq_refl eq_refl).
Defined.

(** X10: once the descriptor is read, a binary in which the section walk
    finds no [.neo_metadata] header makes the [CustomClKernel] constructor
    fail with MalformedBinary, and so does one with that section but
    without [.neo_metadata.str]; no metadata-query object is built. *)
Theorem CustomClKernel_missing_section :
  forall (attr_to_int : string -> result Z) (fs : string -> option string)
         (md_arg_flags_generated_prepost : Z)
         (md_parser_new : string -> Z -> Z -> Z -> Z -> md_parser_t)
         (allocates : Z -> bool)
         (node : xml_node) (configDir : string)
         (this : CustomClKernel) (kernelEntryName : string),
    CustomClKernel_read attr_to_int fs node configDir = OK (this, kernelEntryName) ->
    let elf := _kernelBinary (base this) in
    let r := CustomClKernel_new attr_to_int fs md_arg_flags_generated_prepost
               md_parser_new allocates node configDir in
    (get_elf_section_with_name elf ".neo_metadata" = OK None ->
     r = Throw (SectionNotFound ".neo_metadata") /\ fails_with r MalformedBinary)
    /\ (forall shdr range,
           get_elf_section_with_name elf ".neo_metadata" = OK (Some shdr) ->
           section_range elf shdr = OK range ->
           get_elf_section_with_name elf ".neo_metadata.str" = OK None ->
           r = Throw (SectionNotFound ".neo_metadata.str")
           /\ fails_with r MalformedBinary).
Proof.
  intros attr_to_int fs prepost md_parser_new allocates node configDir this entry Hread elf r.
  assert (Hr : r = (parser <- CustomClKernel_metadata md_parser_new elf ;;
                    CustomClKernel_resolve prepost allocates this entry parser)).
  { subst r. unfold CustomClKernel_new. rewrite Hread. reflexivity. }
  unfold CustomClKernel_metadata in Hr. split.
  - intros Hnone. rewrite Hnone in Hr. cbn [bind] in Hr. rewrite Hr.
    split; [reflexivity | apply fails_with_Throw; reflexivity].
  - intros shdr [off size] Hsome Hrange Hnone.
    rewrite Hsome in Hr. cbn [bind] in Hr. rewrite Hrange in Hr. cbn [bind] in Hr.
    rewrite Hnone in Hr. cbn [bind] in Hr. rewrite Hr.
    split; [reflexivity | apply fails_with_Throw; reflexivity].
Qed.

Lemma CustomClKernel_missing_section_witness :
  CustomClKernel_new Samples.attr_to_int Samples.fs Samples.prepost Samples.md_parser_new
      Samples.allocates
    (Samples.descriptor "bare.elf" "entry_kernel") "/cfg"
  = Throw (SectionNotFound ".neo_metadata").
Proof.
  exact (proj1 (proj1 (CustomClKernel_missing_section Samples.attr_to_int Samples.fs
                         Samples.prepost Samples.md_parser_new
      Samples.allocates
                         (Samples.descriptor "bare.elf" "entry_kernel") "/cfg"
                         _ _ eq_refl) eq_refl)).
Defined.

(* ================================================================== *)
(** ** Further properties of the Parameters block *)

Lemma processParametersNode_child (attr_to_int : string -> result Z)
    (node node' : xml_node) (this : CustomKernel) :
  child (Some node) "Parameters" = child (Some node') "Parameters" ->
  processParametersNode attr_to_int node this
  = processParametersNode attr_to_int node' this.
Proof. intros H. unfold processParametersNode. rewrite H. reflexivity. Qed.

(** X11: only the first [Parameters] child of a descriptor is read: the
    children before it and after it, further [Parameters] blocks
    included, do not matter; and a descriptor without a [Parameters] child
    parses to no parameters, without an error. *)
Theorem processParametersNode_first_block :
  forall (attr_to_int : string -> result Z) (this : CustomKernel),
    (forall name attrs before block after,
        Forall (fun c => node_name c <> "Parameters") before ->
        node_name block = "Parameters" ->
        processParametersNode attr_to_int (XmlNode name attrs (before ++ block :: after)) this
        = processParametersNode attr_to_int (XmlNode name attrs [block]) this)
    /\ (forall node,
           Forall (fun c => node_name c <> "Parameters") (node_children node) ->
           processParametersNode attr_to_int node this = OK this).
Proof.
  intros attr_to_int this. split.
  - intros name attrs before block after Hb Hn.
    apply processParametersNode_child. unfold child. cbn [node_children].
    rewrite (find_first_named _ _ _ _ Hb Hn).
    cbn [find]. apply String.eqb_eq in Hn. rewrite Hn. reflexivity.
  - intros node Hn. rewrite processParametersNode_sequence.
    unfold parameter_sequence, parameter_elements, child.
    rewrite (find_none_named _ _ Hn). cbn [children_of children_named filter app parse_all bind].
    rewrite set_kernelParams_same. reflexivity.
Qed.

Lemma processParametersNode_first_block_witness :
  processParametersNode Samples.attr_to_int MoreSamples.two_blocks CustomKernel_init
  = processParametersNode Samples.attr_to_int
      (XmlNode "CustomLayer" [] [XmlNode "Parameters" [] [Samples.tensor "input" "src" "0"]])
      CustomKernel_init
  /\ processParametersNode Samples.attr_to_int (XmlNode "CustomLayer" [] []) CustomKernel_init
     = OK CustomKernel_init.
Proof.
  split.
  - exact (proj1 (processParametersNode_first_block Samples.attr_to_int CustomKernel_init)
             "CustomLayer" [] []
             (XmlNode "Parameters" [] [Samples.tensor "input" "src" "0"])
             [XmlNode "Parameters" [] [Samples.tensor "bogus" "A" "0"]]
             (Forall_nil _) eq_refl).
  - exact (proj2 (processParametersNode_first_block Samples.attr_to_int CustomKernel_init)
             (XmlNode "CustomLayer" [] []) (Forall_nil _)).
Defined.

(** X12: a [Scalar] element that parses yields a parameter of kind Int or
    Float, by its type token whatever the case of the letters, with the
    element's [arg-name], the converted [port-index] or -1 when the
    attribute is absent, and the [source] text or the empty text as
    [irSource]; its format stays [Any] and it has neither a buffer size
    rule nor a dimension source. *)
Theorem parseScalar_fields :
  forall (attr_to_int : string -> result Z) (scalar : xml_node) (kp : KernelParam),
    parseScalar attr_to_int scalar = OK kp ->
    (exists typeStr,
        attribute (Some scalar) "type" = Some typeStr
        /\ ((lower typeStr = "int" /\ type kp = CustomParamType.Int)
            \/ (lower typeStr = "float" /\ type kp = CustomParamType.Float)))
    /\ attribute (Some scalar) "arg-name" = Some (argName kp)
    /\ match attribute (Some scalar) "port-index" with
       | Some v => attr_to_int v = OK (portIndex kp)
       | None => portIndex kp = -1
       end
    /\ match attribute (Some scalar) "source" with
       | Some v => irSource kp = v
       | None => irSource kp = ""
       end
    /\ format kp = CustomDataFormat.Any
    /\ bufferSizeRule kp = "" /\ dimSource kp = None /\ dimIdx kp = -1.
Proof.
  intros attr_to_int scalar kp H.
  destruct (parseScalar_OK_inv _ _ _ H)
    as (typeStr & name & Htype & Hkind & Hname & Harg & Hport & Hsrc & Hrest).
  split; [exists typeStr; split; assumption |].
  split; [rewrite Hname, Harg; reflexivity |].
  split.
  { unfold GetIntAttr_def, GetIntAttr in Hport.
    destruct (attribute (Some scalar) "port-index") as [v |]; [exact Hport |].
    inversion Hport; reflexivity. }
  split; [| exact Hrest].
  unfold GetStrAttr_def in Hsrc.
  destruct (attribute (Some scalar) "source"); exact Hsrc.
Qed.

Lemma parseScalar_fields_witness :
  exists kp,
    parseScalar Samples.attr_to_int MoreSamples.scalar_default = OK kp
    /\ type kp = CustomParamType.Float /\ portIndex kp = -1 /\ irSource kp = "".
Proof.
  eexists. split; [reflexivity |]. split; [reflexivity |].
  pose proof (parseScalar_fields Samples.attr_to_int MoreSamples.scalar_default _ eq_refl)
    as (_ & _ & Hport & Hsrc & _).
  split; [exact Hport | exact Hsrc].
Defined.

(* ------------------------------------------------------------------ *)
(** *** Invariants of the parsed parameters *)

Lemma parseSizeRule_no_comma (size : string) :
  Forall (fun p => find_first_of p ","%char = None) (parseSizeRule size).
Proof.
  rewrite parseSizeRule_drop_empty_tail.
  apply drop_empty_tail_Forall, split_on_commas_spec_no_comma.
Qed.

Lemma parseDimSource_index_range (dims : string) (d : CustomDimSource.t * Z) :
  parseDimSource dims = OK d -> INT_MIN <= snd d <= INT_MAX.
Proof.
  unfold parseDimSource. intros H.
  bind_inv H as src Hsrc. bind_inv H as idx Hidx.
  inversion H; subst d; clear H. cbn [snd].
  destruct (find_first_of dims ","%char) as [p |].
  - apply stoi_range in Hidx. tauto.
  - inversion Hidx; subst idx. unfold INT_MIN, INT_MAX. lia.
Qed.

Lemma minus_one_is_int : INT_MIN <= -1 <= INT_MAX.
Proof. unfold INT_MIN, INT_MAX. lia. Qed.

Lemma formatFromString_not_None (str : string) (f : CustomDataFormat.t) :
  formatFromString str = OK f -> f <> CustomDataFormat.None.
Proof.
  intros H. destruct (formatFromString_OK_inv _ _ H) as (name & Hin & _).
  simpl in Hin.
  repeat (destruct Hin as [Hin | Hin]; [inversion Hin; discriminate |]).
  contradiction.
Qed.

Lemma parse_element_invariants (attr_to_int : string -> result Z) (x : xml_node)
    (kp : KernelParam) :
  parse_element attr_to_int x = OK kp ->
  dimension_consistent kp /\ buffer_complete kp.
Proof.
  unfold parse_element, dimension_consistent, buffer_complete, is_buffer.
  pose proof minus_one_is_int as Hm1.
  destruct (String.eqb (node_name x) "Tensor");
    [| destruct (String.eqb (node_name x) "Data")]; intros H.
  - destruct (parseTensor_OK_inv _ _ _ H)
      as (typeStr & fmt & name & port & _ & Hfmt & _ & _ & Hf & _ & _ & Hir & Hcases).
    subst fmt. apply formatFromString_not_None in Hfmt.
    destruct Hcases
      as [(Hkind & Hb & Hds & Hdi)
         | (Hkind & sizeRule & dimString & d & _ & Hnth & _ & Hd & Hds & Hdi)].
    + rewrite Hir, Hb, Hds, Hdi.
      assert (Hnb : CustomParamType.eqb (type kp) CustomParamType.InputBuffer
                    || CustomParamType.eqb (type kp) CustomParamType.OutputBuffer = false).
      { destruct Hkind as [(_ & ->) | [(_ & ->) | (_ & ->)]]; reflexivity. }
      rewrite Hnb.
      repeat split; try tauto; try discriminate; try congruence;
        intros [? | ?]; congruence.
    + apply parseDimSource_index_range in Hd.
      rewrite Hir, Hds, Hdi.
      assert (Hb : CustomParamType.eqb (type kp) CustomParamType.InputBuffer
                   || CustomParamType.eqb (type kp) CustomParamType.OutputBuffer = true).
      { destruct Hkind as [(_ & ->) | (_ & ->)]; reflexivity. }
      rewrite Hb.
      assert (Hnc : find_first_of (bufferSizeRule kp) ","%char = None).
      { pose proof (parseSizeRule_no_comma sizeRule) as Hall.
        destruct (parseSizeRule sizeRule) as [| p ps]; [discriminate Hnth |].
        inversion Hall; subst. simpl in Hnth. inversion Hnth; subst. assumption. }
      repeat split; try tauto; try discriminate; try congruence.
  - destruct (parseData_OK_inv _ _ H)
      as (typeStr & name & _ & _ & _ & Hir & Hfmt & _ & Hone & Hkind).
    cbv zeta in *. rewrite Hfmt.
    destruct Hkind
      as [(_ & Hty & Hb & Hds & Hdi)
         | (_ & Hty & Hb & [(Hdim & Hds & Hdi) | (Hdim & d & Hd & Hds & Hdi)])];
      rewrite Hty; cbn [CustomParamType.eqb orb].
    + rewrite Hds, Hdi, Hb.
      repeat split; try tauto; try discriminate; try congruence;
        intros [? | ?]; congruence.
    + rewrite Hds, Hdi.
      repeat split; try tauto; try discriminate; try congruence.
    + apply parseDimSource_index_range in Hd. rewrite Hds, Hdi.
      repeat split; try tauto; try discriminate; try congruence.
      intros Hsrc. exfalso. rewrite Hir in Hsrc.
      destruct Hone as [[_ He] | [He _]]; [contradiction | contradiction].
  - destruct (parseScalar_OK_inv _ _ _ H)
      as (typeStr & name & _ & Hkind & _ & _ & _ & _ & Hfmt & Hb & Hds & Hdi).
    rewrite Hfmt, Hb, Hds, Hdi.
    assert (Hnb : CustomParamType.eqb (type kp) CustomParamType.InputBuffer
                  || CustomParamType.eqb (type kp) CustomParamType.OutputBuffer = false).
    { destruct Hkind as [(_ & ->) | (_ & ->)]; reflexivity. }
    rewrite Hnb.
    repeat split; try tauto; try discriminate; try congruence;
      intros [? | ?]; congruence.
Qed.

Lemma parse_all_Forall (attr_to_int : string -> result Z) (P : KernelParam -> Prop)
    (l : list xml_node) (kps : list KernelParam) :
  (forall x kp, parse_element attr_to_int x = OK kp -> P kp) ->
  parse_all (parse_element attr_to_int) l = OK kps -> Forall P kps.
Proof.
  intros HP H. apply parse_all_OK_iff in H.
  induction H as [| x kp l kps Hx Hrest IH]; constructor; [exact (HP _ _ Hx) | exact IH].
Qed.

Lemma processParametersNode_Forall (attr_to_int : string -> result Z)
    (P : KernelParam -> Prop) (node : xml_node) (this this' : CustomKernel) :
  (forall x kp, parse_element attr_to_int x = OK kp -> P kp) ->
  processParametersNode attr_to_int node this = OK this' ->
  Forall P (_kernelParams this) -> Forall P (_kernelParams this').
Proof.
  intros HP H Hold. rewrite processParametersNode_sequence in H.
  bind_inv H as kps Hkps. inversion H; subst this'. cbn [_kernelParams set_kernelParams].
  apply Forall_app. split; [exact Hold | exact (parse_all_Forall _ _ _ _ HP Hkps)].
Qed.

(** X13: [processParametersNode] keeps the parameters consistent in their
    sources: no parameter has both an [irSource] and a dimension source, a
    parameter without a dimension source has the index -1, every index is
    an [int], and only InputBuffer, OutputBuffer and LocalData parameters
    carry a dimension source or a buffer size rule.  So it is for the
    parameters of every constructed native kernel. *)
Theorem parameters_keep_dimension_consistent :
  forall (attr_to_int : string -> result Z) (node : xml_node),
    (forall this this',
        processParametersNode attr_to_int node this = OK this' ->
        Forall dimension_consistent (_kernelParams this) ->
        Forall dimension_consistent (_kernelParams this'))
    /\ (forall fs configDir k,
           CustomCppKernel_new attr_to_int fs node configDir = OK k ->
           Forall dimension_consistent (_kernelParams k)).
Proof.
  intros attr_to_int node.
  assert (HP : forall x kp, parse_element attr_to_int x = OK kp -> dimension_consistent kp)
    by (intros x kp H; exact (proj1 (parse_element_invariants _ _ _ H))).
  split.
  - intros this this'. exact (processParametersNode_Forall _ _ _ _ _ HP).
  - intros fs configDir k H. rewrite CustomCppKernel_new_chain in H.
    bind_inv H as maxShaves Hmax. bind_inv H as binary Hbin. bind_inv H as kps Hkps.
    bind_inv H as dims Hdims. bind_inv H as d Hd.
    inversion H; subst k. exact (parse_all_Forall _ _ _ _ HP Hkps).
Qed.

Lemma parameters_keep_dimension_consistent_witness :
  exists k,
    CustomCppKernel_new Samples.attr_to_int Samples.fs MoreSamples.native "/cfg" = OK k
    /\ Forall dimension_consistent (_kernelParams k).
Proof.
  eexists. split; [vm_compute; reflexivity |].
  exact (proj2 (parameters_keep_dimension_consistent Samples.attr_to_int MoreSamples.native)
           Samples.fs "/cfg" _ eq_refl).
Defined.

(** X14: [processParametersNode] never yields the format [None], and every
    InputBuffer or OutputBuffer parameter it yields has a dimension source,
    no [irSource], and a buffer size rule without a comma.  So it is for
    the parameters of every constructed native kernel. *)
Theorem parameters_keep_buffers_complete :
  forall (attr_to_int : string -> result Z) (node : xml_node),
    (forall this this',
        processParametersNode attr_to_int node this = OK this' ->
        Forall buffer_complete (_kernelParams this) ->
        Forall buffer_complete (_kernelParams this'))
    /\ (forall fs configDir k,
           CustomCppKernel_new attr_to_int fs node configDir = OK k ->
           Forall buffer_complete (_kernelParams k)).
Proof.
  intros attr_to_int node.
  assert (HP : forall x kp, parse_element attr_to_int x = OK kp -> buffer_complete kp)
    by (intros x kp H; exact (proj2 (parse_element_invariants _ _ _ H))).
  split.
  - intros this this'. exact (processParametersNode_Forall _ _ _ _ _ HP).
  - intros fs configDir k H. rewrite CustomCppKernel_new_chain in H.
    bind_inv H as maxShaves Hmax. bind_inv H as binary Hbin. bind_inv H as kps Hkps.
    bind_inv H as dims Hdims. bind_inv H as d Hd.
    inversion H; subst k. exact (parse_all_Forall _ _ _ _ HP Hkps).
Qed.

Lemma parameters_keep_buffers_complete_witness :
  exists this',
    processParametersNode Samples.attr_to_int
      (XmlNode "CustomLayer" [] [XmlNode "Parameters" [] [Samples.buffer_tensor "a*b,c"]])
      CustomKernel_init = OK this'
    /\ map bufferSizeRule (_kernelParams this') = ["a*b"]
    /\ Forall buffer_complete (_kernelParams this').
Proof.
  eexists. split; [vm_compute; reflexivity |]. split; [reflexivity |].
  exact (proj1 (parameters_keep_buffers_complete Samples.attr_to_int
                  (XmlNode "CustomLayer" []
                     [XmlNode "Parameters" [] [Samples.buffer_tensor "a*b,c"]]))
           CustomKernel_init _ eq_refl (Forall_nil _)).
Defined.

(* ================================================================== *)
(** ** Outcomes of deduceKernelParameters *)

Lemma deduce_loop_Throw_inv (prepost : Z) (parser : md_parser_t)
    (kernelDesc : md_kernel_descriptor_t) (n : nat) :
  forall i arguments e,
    deduce_loop prepost parser kernelDesc n i arguments = Throw e ->
    e = ArgumentParseError.
Proof.
  induction n as [| n IH]; intros i arguments e H; [discriminate H |].
  cbn [deduce_loop] in H.
  destruct (get_argument parser kernelDesc i) as [arg |];
    [| inversion H; reflexivity].
  destruct (negb (Z.land (flags arg) prepost =? 0)); exact (IH _ _ _ H).
Qed.

Lemma declared_arguments_all (parser : md_parser_t) (kernelDesc : md_kernel_descriptor_t)
    (n : nat) :
  (forall j, 0 <= j < Z.of_nat n -> get_argument parser kernelDesc j <> None) ->
  exists args, declared_arguments parser kernelDesc n = map Some args.
Proof.
  intros H. unfold declared_arguments.
  exists (map (fun j => match get_argument parser kernelDesc (Z.of_nat j) with
                        | Some arg => arg
                        | None => {| flags := 0; arg_ref := 0 |}
                        end) (seq 0 n)).
  rewrite map_map. apply map_ext_in. intros j Hj. apply in_seq in Hj.
  specialize (H (Z.of_nat j) ltac:(lia)).
  destruct (get_argument parser kernelDesc (Z.of_nat j)); [reflexivity | contradiction].
Qed.

Lemma declared_arguments_missing (parser : md_parser_t)
    (kernelDesc : md_kernel_descriptor_t) (n : nat) (j : Z)
    (args : list md_kernel_argument_t) :
  0 <= j < Z.of_nat n -> get_argument parser kernelDesc j = None ->
  declared_arguments parser kernelDesc n <> map Some args.
Proof.
  intros Hj Hnone Heq.
  assert (Hin : In (get_argument parser kernelDesc j) (declared_arguments parser kernelDesc n)).
  { unfold declared_arguments. apply in_map_iff. exists (Z.to_nat j).
    split; [rewrite Z2Nat.id by lia; reflexivity | apply in_seq; lia]. }
  rewrite Heq, Hnone in Hin. apply in_map_iff in Hin.
  destruct Hin as (arg & Harg & _). discriminate Harg.
Qed.

Lemma filter_length_le {A : Type} (p : A -> bool) (l : list A) :
  (List.length (filter p l) <= List.length l)%nat.
Proof. induction l as [| x l IH]; simpl; [lia | destruct (p x); simpl; lia]. Qed.

(** X15: [deduceKernelParameters] fails on an assertion when the kernel id
    has no descriptor.  Otherwise it first reserves room for
    [arg_count - 1] names (computed in unsigned 32 bits) and fails there,
    before it asks for any argument, when that number is not 0 and the
    allocator declines.  Once the room is reserved it answers at most that
    many names when every index below it has an argument, and fails with
    the metadata error as soon as one of them has none.  A reported
    argument count of 0 makes it ask for room for 4294967295 names. *)
Theorem deduceKernelParameters_outcomes :
  forall (md_arg_flags_generated_prepost : Z) (allocates : Z -> bool)
         (parser : md_parser_t) (kernelId : Z),
    let r := deduceKernelParameters md_arg_flags_generated_prepost allocates
               parser kernelId in
    (get_kernel parser kernelId = None -> fails_with r InternalAssertion)
    /\ (forall kernelDesc,
           get_kernel parser kernelId = Some kernelDesc ->
           argCount kernelDesc <> 0 ->
           allocates (argCount kernelDesc) = false ->
           r = Throw (ReserveFailed (argCount kernelDesc))
           /\ fails_with r AllocationFailure)
    /\ (forall kernelDesc,
           get_kernel parser kernelId = Some kernelDesc ->
           argCount kernelDesc = 0 \/ allocates (argCount kernelDesc) = true ->
           (forall j, 0 <= j < argCount kernelDesc ->
                      get_argument parser kernelDesc j <> None) ->
           exists names,
             r = OK names /\ Z.of_nat (List.length names) <= argCount kernelDesc)
    /\ (forall kernelDesc j,
           get_kernel parser kernelId = Some kernelDesc ->
           allocates (argCount kernelDesc) = true ->
           0 <= j < argCount kernelDesc ->
           get_argument parser kernelDesc j = None ->
           r = Throw ArgumentParseError /\ fails_with r MetadataParserFailure)
    /\ (forall kernelDesc,
           get_kernel parser kernelId = Some kernelDesc ->
           arg_count kernelDesc = 0 ->
           argCount kernelDesc = 4294967295
           /\ (allocates 4294967295 = false -> r = Throw (ReserveFailed 4294967295))).
Proof.
  intros prepost allocates parser kernelId r.
  assert (Hpos : forall kd, 0 <= argCount kd).
  { intros kd. unfold argCount. apply Z.mod_pos_bound. lia. }
  assert (Hdeclined : forall kd,
             get_kernel parser kernelId = Some kd ->
             argCount kd <> 0 -> allocates (argCount kd) = false ->
             r = Throw (ReserveFailed (argCount kd))).
  { intros kd Hk Hn Ha. subst r. unfold deduceKernelParameters, reserve.
    apply Z.eqb_neq in Hn. rewrite Hk, Hn, Ha. reflexivity. }
  assert (Hgranted : forall kd,
             argCount kd = 0 \/ allocates (argCount kd) = true ->
             reserve allocates (argCount kd) = OK tt).
  { intros kd [H0 | Ha]; unfold reserve.
    - rewrite H0. reflexivity.
    - rewrite Ha, orb_true_r. reflexivity. }
  split; [| split; [| split; [| split]]].
  - intros Hnone. subst r. unfold deduceKernelParameters. rewrite Hnone.
    apply fails_with_Throw. reflexivity.
  - intros kernelDesc Hk Hn Ha. rewrite (Hdeclined kernelDesc Hk Hn Ha).
    split; [reflexivity | apply fails_with_Throw; reflexivity].
  - intros kernelDesc Hk Hroom Hall.
    destruct (declared_arguments_all parser kernelDesc (Z.to_nat (argCount kernelDesc)))
      as (args & Hargs).
    { intros j Hj. apply Hall. specialize (Hpos kernelDesc). lia. }
    exists (map (get_name parser) (filter (visible prepost) args)).
    split;
      [exact (deduceKernelParameters_complete _ _ _ _ _ _ Hk (Hgranted _ Hroom) Hargs) |].
    assert (Hlen : List.length args = Z.to_nat (argCount kernelDesc)).
    { rewrite <- (length_map Some args), <- Hargs. unfold declared_arguments.
      rewrite length_map, length_seq. reflexivity. }
    rewrite length_map.
    pose proof (filter_length_le (visible prepost) args). specialize (Hpos kernelDesc). lia.
  - intros kernelDesc j Hk Ha Hj Hnone.
    assert (Hr : r = Throw ArgumentParseError).
    { destruct r as [names | e] eqn:Er; subst r.
      - destruct (deduceKernelParameters_OK_inv _ _ _ _ _ Er)
          as (kd & args & Hk' & Hargs & _).
        rewrite Hk in Hk'. inversion Hk'; subst kd.
        assert (Hj' : 0 <= j < Z.of_nat (Z.to_nat (argCount kernelDesc)))
          by (rewrite Z2Nat.id; [exact Hj | apply Hpos]).
        exfalso. exact (declared_arguments_missing _ _ _ j args Hj' Hnone Hargs).
      - unfold deduceKernelParameters in Er.
        rewrite Hk, (Hgranted kernelDesc (or_intror Ha)) in Er. cbn [bind] in Er.
        apply deduce_loop_Throw_inv in Er. subst e. reflexivity. }
    rewrite Hr. split; [reflexivity | apply fails_with_Throw; reflexivity].
  - intros kernelDesc Hk H0.
    assert (Hc : argCount kernelDesc = 4294967295).
    { unfold argCount. rewrite H0. reflexivity. }
    split; [exact Hc |].
    intros Ha. rewrite <- Hc in Ha |- *. apply (Hdeclined kernelDesc Hk); [| exact Ha].
    rewrite Hc. discriminate.
Qed.

Lemma deduceKernelParameters_outcomes_witness :
  deduceKernelParameters Samples.prepost Samples.allocates MoreSamples.parser_zero_args 0
  = Throw (ReserveFailed 4294967295)
  /\ (exists names,
         deduceKernelParameters Samples.prepost Samples.allocates (Samples.parser 1) 0
         = OK names
         /\ Z.of_nat (List.length names) <= 3).
Proof.
  split.
  - exact (proj2 (proj2 (proj2 (proj2 (proj2 (deduceKernelParameters_outcomes
                    Samples.prepost Samples.allocates MoreSamples.parser_zero_args 0))))
                    {| arg_count := 0; kernel_ref := 0 |} eq_refl eq_refl) eq_refl).
  - apply (proj1 (proj2 (proj2 (deduceKernelParameters_outcomes Samples.prepost
                    Samples.allocates (Samples.parser 1) 0)))
             {| arg_count := 4; kernel_ref := 0 |} eq_refl (or_intror eq_refl)).
    intros j Hj. change (argCount {| arg_count := 4; kernel_ref := 0 |}) with 3 in Hj.
    assert (Hcase : j = 0 \/ j = 1 \/ j = 2) by lia.
    destruct Hcase as [-> | [-> | ->]]; discriminate.
Defined.

(* ================================================================== *)
(** ** Decimal indices *)

Lemma read_digits_string_of_uint (d : Decimal.uint) :
  forall (a : nat) (seen : bool),
    read_digits (NilEmpty.string_of_uint d) (Z.of_nat a) seen
    = (Z.of_nat (Nat.of_uint_acc d a),
       match d with Decimal.Nil => seen | _ => true end).
Proof.
  induction d as [| d IH | d IH | d IH | d IH | d IH | d IH | d IH | d IH | d IH | d IH];
    intros a seen; [reflexivity | ..];
    cbn [NilEmpty.string_of_uint read_digits Nat.of_uint_acc];
    match goal with
    | |- context [isdigit ?c] => change (isdigit c) with true
    end;
    cbv iota;
    match goal with
    | |- read_digits _ ?acc true = (Z.of_nat (Nat.of_uint_acc d ?acc'), _) =>
        replace acc with (Z.of_nat acc')
          by (rewrite Nat.tail_mul_spec; cbn [nat_of_ascii]; vm_compute (nat_of_ascii _); lia)
    end;
    rewrite IH; destruct d; reflexivity.
Qed.

Lemma to_uint_not_Nil (n : nat) : Nat.to_uint n <> Decimal.Nil.
Proof.
  rewrite <- (Unsigned.of_to n) at 1. rewrite Unsigned.to_of.
  generalize (Nat.to_uint n). intros d.
  induction d; simpl; try discriminate. exact IHd.
Qed.

(** [std::stoi] reads a decimal numeral back. *)
Lemma stoi_decimal (n : nat) :
  Z.of_nat n <= INT_MAX -> stoi (decimal n) = OK (Z.of_nat n).
Proof.
  intros Hmax. unfold decimal, NilZero.string_of_uint.
  pose proof (to_uint_not_Nil n) as Hnn.
  pose proof (Unsigned.of_to n) as Hof. unfold Nat.of_uint in Hof.
  pose proof (read_digits_string_of_uint (Nat.to_uint n) 0 false) as Hread.
  rewrite Hof in Hread.
  assert (Hrange : (INT_MIN <=? Z.of_nat n) && (Z.of_nat n <=? INT_MAX) = true).
  { apply andb_true_intro. split; apply Z.leb_le; [unfold INT_MIN; lia | exact Hmax]. }
  destruct (Nat.to_uint n) as [| d | d | d | d | d | d | d | d | d | d];
    [contradiction | ..];
    unfold stoi; cbn [NilEmpty.string_of_uint skip_spaces];
    match goal with
    | |- context [isspace ?c] => change (isspace c) with false
    end;
    cbv iota;
    match goal with
    | |- context [Ascii.eqb ?c "-"%char] => change (Ascii.eqb c "-"%char) with false
    end;
    match goal with
    | |- context [Ascii.eqb ?c "+"%char] => change (Ascii.eqb c "+"%char) with false
    end;
    cbv iota;
    cbn [NilEmpty.string_of_uint] in Hread; change (Z.of_nat 0) with 0 in Hread;
    rewrite Hread, Hrange; reflexivity.
Qed.

(** X16: for every natural number [n] that is an [int], the text "input,"
    followed by the decimal numeral of [n] parses to (Input, n), and
    "output," followed by it to (Output, n). *)
Theorem parseDimSource_decimal_index :
  forall n : nat,
    Z.of_nat n <= INT_MAX ->
    parseDimSource ("input," ++ decimal n) = OK (CustomDimSource.Input, Z.of_nat n)
    /\ parseDimSource ("output," ++ decimal n) = OK (CustomDimSource.Output, Z.of_nat n).
Proof.
  intros n Hmax. pose proof (stoi_decimal n Hmax) as Hstoi.
  split.
  - unfold parseDimSource.
    change (find_first_of ("input," ++ decimal n) ","%char) with (Some 5%nat).
    change (substr ("input," ++ decimal n) 0 (Some 5%nat)) with "input".
    change (CaselessEq "input" "input") with true. cbv iota. cbn [bind].
    replace (substr ("input," ++ decimal n) (5 + 1) None) with (decimal n).
    + rewrite Hstoi. reflexivity.
    + unfold substr. cbn [append String.length Nat.sub Nat.add substring].
      rewrite ?Nat.sub_0_r. symmetry. apply substring_all.
  - unfold parseDimSource.
    change (find_first_of ("output," ++ decimal n) ","%char) with (Some 6%nat).
    change (substr ("output," ++ decimal n) 0 (Some 6%nat)) with "output".
    change (CaselessEq "output" "input") with false.
    change (CaselessEq "output" "output") with true. cbv iota. cbn [bind].
    replace (substr ("output," ++ decimal n) (6 + 1) None) with (decimal n).
    + rewrite Hstoi. reflexivity.
    + unfold substr. cbn [append String.length Nat.sub Nat.add substring].
      rewrite ?Nat.sub_0_r. symmetry. apply substring_all.
Qed.

Lemma parseDimSource_decimal_index_witness :
  parseDimSource ("input," ++ decimal 2019) = OK (CustomDimSource.Input, 2019).
Proof.
  exact (proj1 (parseDimSource_decimal_index 2019
                  ltac:(unfold INT_MAX; simpl; lia))).
Defined.

(* ================================================================== *)
(** ** The lanes of ShuffleChannel *)

Import ShuffleChannels.

Lemma int_of_fits (z : Z) : INT_MIN <= z <= INT_MAX -> int_of z = Some z.
Proof.
  intros [H1 H2]. unfold int_of.
  apply Z.leb_le in H1, H2. rewrite H1, H2. reflexivity.
Qed.

Lemma idiv_nonneg (a b : Z) :
  0 <= a <= INT_MAX -> 0 < b -> idiv a b = Some (a / b).
Proof.
  intros Ha Hb. unfold idiv.
  destruct (Z.eqb_spec b 0) as [| _]; [lia |].
  rewrite Z.quot_div_nonneg by lia. apply int_of_fits.
  assert (0 <= a / b <= a).
  { split; [apply Z.div_pos; lia | apply Z.div_le_upper_bound; nia]. }
  unfold INT_MIN, INT_MAX in *. lia.
Qed.

Lemma irem_nonneg (a b : Z) :
  0 <= a <= INT_MAX -> 0 < b -> irem a b = Some (a mod b).
Proof.
  intros Ha Hb. unfold irem.
  destruct (Z.eqb_spec b 0) as [| _]; [lia |].
  rewrite Z.quot_div_nonneg, Z.rem_mod_nonneg by lia.
  rewrite int_of_fits; [reflexivity |].
  assert (0 <= a / b <= a).
  { split; [apply Z.div_pos; lia | apply Z.div_le_upper_bound; nia]. }
  unfold INT_MIN, INT_MAX in *. lia.
Qed.

(** The range of a lane other than the last. *)
Lemma lane_range_inner (C shave_id : Z) :
  0 <= C <= INT_MAX -> 0 <= shave_id < 15 ->
  lane_range C shave_id = Some (shave_id * (C / 16), (shave_id + 1) * (C / 16)).
Proof.
  intros HC Hid. unfold lane_range, NUM_SHAVES.
  rewrite idiv_nonneg by lia. cbn [obind].
  destruct (Z.eqb_spec shave_id (16 - 1)) as [| _]; [lia |]. cbn [obind].
  pose proof (Z.div_pos C 16 ltac:(lia) ltac:(lia)) as Hq.
  pose proof (Z.mul_div_le C 16 ltac:(lia)) as Hle.
  rewrite int_of_fits by (unfold INT_MIN, INT_MAX in *; nia). cbn [obind].
  rewrite int_of_fits by (unfold INT_MIN, INT_MAX in *; nia). cbn [obind].
  f_equal. f_equal. lia.
Qed.

(** The range of the last lane. *)
Lemma lane_range_last (C : Z) :
  0 <= C -> 16 * (C / 16 + C mod 16) <= INT_MAX ->
  lane_range C 15
  = Some (15 * (C / 16 + C mod 16), 16 * (C / 16 + C mod 16)).
Proof.
  intros HC Hmax. unfold lane_range, NUM_SHAVES.
  pose proof (Z.div_pos C 16 ltac:(lia) ltac:(lia)) as Hq.
  pose proof (Z.mod_pos_bound C 16 ltac:(lia)) as Hr.
  pose proof (Z.div_mod C 16 ltac:(lia)) as Hdm.
  assert (HCmax : C <= INT_MAX) by lia.
  rewrite idiv_nonneg by lia. cbn [obind].
  change (15 =? 16 - 1) with true. cbv iota.
  rewrite irem_nonneg by lia. cbn [obind].
  rewrite int_of_fits by (unfold INT_MIN, INT_MAX in *; lia). cbn [obind].
  rewrite int_of_fits by (unfold INT_MIN, INT_MAX in *; lia). cbn [obind].
  rewrite int_of_fits by (unfold INT_MIN, INT_MAX in *; lia). cbn [obind].
  f_equal. f_equal. lia.
Qed.

(** X17: when the number of channels is a multiple of 16, the sixteen
    lanes work on the sixteen consecutive blocks of [C / 16] channels:
    every channel below [C] belongs to the range of exactly one lane, and
    no range goes beyond [C]. *)
Theorem lanes_partition_channels :
  forall C : Z,
    0 <= C <= INT_MAX -> C mod 16 = 0 ->
    (forall shave_id,
        0 <= shave_id < 16 ->
        lane_range C shave_id = Some (shave_id * (C / 16), (shave_id + 1) * (C / 16))
        /\ (shave_id + 1) * (C / 16) <= C)
    /\ (forall c,
           0 <= c < C ->
           exists shave_id,
             0 <= shave_id < 16
             /\ shave_id * (C / 16) <= c < (shave_id + 1) * (C / 16)
             /\ forall other,
                 0 <= other < 16 ->
                 other * (C / 16) <= c < (other + 1) * (C / 16) ->
                 other = shave_id).
Proof.
  intros C HC Hmod.
  pose proof (Z.div_mod C 16 ltac:(lia)) as Hdm. rewrite Hmod in Hdm.
  split.
  - intros shave_id Hid. split; [| nia].
    destruct (Z.eq_dec shave_id 15) as [-> | Hne].
    + rewrite lane_range_last by (rewrite ?Hmod; lia). rewrite Hmod.
      f_equal. f_equal; lia.
    + apply lane_range_inner; lia.
  - intros c Hc.
    assert (Hq : 0 < C / 16) by lia.
    exists (c / (C / 16)).
    pose proof (Z.div_mod c (C / 16) ltac:(lia)) as Hcdm.
    pose proof (Z.mod_pos_bound c (C / 16) Hq) as Hcm.
    assert (Hlt : c / (C / 16) < 16) by (apply Z.div_lt_upper_bound; lia).
    assert (Hge : 0 <= c / (C / 16)) by (apply Z.div_pos; lia).
    split; [lia |]. split; [nia |].
    intros other Ho Hrange. nia.
Qed.

Lemma lanes_partition_channels_witness :
  lane_range 48 15 = Some (45, 48)
  /\ exists shave_id, 0 <= shave_id < 16 /\ shave_id * (48 / 16) <= 20 < (shave_id + 1) * (48 / 16).
Proof.
  pose proof (lanes_partition_channels 48
                ltac:(unfold INT_MAX; lia) eq_refl) as [Hlanes Hcover].
  split.
  - exact (proj1 (Hlanes 15 ltac:(lia))).
  - destruct (Hcover 20 ltac:(lia)) as (shave_id & Hid & Hin & _).
    exists shave_id. split; assumption.
Defined.

(** X18: when the number of channels is not a multiple of 16, the last
    lane adds the remainder to its chunk before it computes its start:
    its range is [15 (q + r), 16 (q + r)) for [q = C / 16] and
    [r = C mod 16], which ends beyond [C], and the channel [15 q], which
    is below [C], is in the range of no lane. *)
Theorem lanes_with_remainder :
  forall C : Z,
    0 <= C -> C mod 16 <> 0 -> 16 * (C / 16 + C mod 16) <= INT_MAX ->
    lane_range C 15 = Some (15 * (C / 16 + C mod 16), 16 * (C / 16 + C mod 16))
    /\ C < 16 * (C / 16 + C mod 16)
    /\ 0 <= 15 * (C / 16) < C
    /\ forall shave_id s e,
        0 <= shave_id < 16 -> lane_range C shave_id = Some (s, e) ->
        ~ (s <= 15 * (C / 16) < e).
Proof.
  intros C HC Hmod Hmax.
  pose proof (Z.div_mod C 16 ltac:(lia)) as Hdm.
  pose proof (Z.mod_pos_bound C 16 ltac:(lia)) as Hr.
  pose proof (Z.div_pos C 16 ltac:(lia) ltac:(lia)) as Hq.
  split; [apply lane_range_last; assumption |].
  split; [lia |]. split; [lia |].
  intros shave_id s e Hid Hrange.
  destruct (Z.eq_dec shave_id 15) as [-> | Hne].
  - rewrite lane_range_last in Hrange by assumption.
    assert (Hs : s = 15 * (C / 16 + C mod 16)) by congruence.
    intros Hin. lia.
  - rewrite lane_range_inner in Hrange by lia.
    assert (Hs : s = shave_id * (C / 16)) by congruence.
    assert (He : e = (shave_id + 1) * (C / 16)) by congruence.
    intros Hin. nia.
Qed.

Lemma lanes_with_remainder_witness :
  lane_range 17 15 = Some (30, 32)
  /\ forall shave_id s e,
      0 <= shave_id < 16 -> lane_range 17 shave_id = Some (s, e) -> ~ (s <= 15 < e).
Proof.
  pose proof (lanes_with_remainder 17 ltac:(lia) ltac:(discriminate)
                ltac:(unfold INT_MAX; simpl; lia)) as (Hlast & _ & _ & Hnone).
  split; [exact Hlast | exact Hnone].
Defined.

(* ================================================================== *)
(** ** What a lane of ShuffleChannel writes *)

Section Effect.

Variable half : Type.
Variable src : buffer half.

Lemma copy_half8_spec (dst : buffer half) (soff doff i j : Z) :
  copy_half8 half src dst soff doff i j
  = if (doff + 8 * i <=? j) && (j <? doff + 8 * i + 8)
    then src (soff + (j - doff)) else dst j.
Proof.
  unfold copy_half8, store. cbn [fold_left].
  destruct (Z.leb_spec (doff + 8 * i) j), (Z.ltb_spec j (doff + 8 * i + 8));
    cbn [andb];
    repeat match goal with
           | |- context [j =? ?x] => destruct (Z.eqb_spec j x)
           end;
    try lia; try reflexivity; f_equal; lia.
Qed.

Lemma vector_loop_spec (soff doff : Z) (n : nat) :
  forall (i : Z) (dst : buffer half) (j : Z),
    0 <= i ->
    vector_loop half n i src dst soff doff j
    = if (doff + 8 * i <=? j) && (j <? doff + 8 * (i + Z.of_nat n))
      then src (soff + (j - doff)) else dst j.
Proof.
  induction n as [| n IH]; intros i dst j Hi; cbn [vector_loop].
  - destruct (Z.leb_spec (doff + 8 * i) j), (Z.ltb_spec j (doff + 8 * (i + Z.of_nat 0)));
      cbn [andb]; try reflexivity; lia.
  - rewrite IH by lia. rewrite copy_half8_spec.
    destruct (Z.leb_spec (doff + 8 * (i + 1)) j),
             (Z.ltb_spec j (doff + 8 * (i + 1 + Z.of_nat n))),
             (Z.leb_spec (doff + 8 * i) j),
             (Z.ltb_spec j (doff + 8 * i + 8)),
             (Z.ltb_spec j (doff + 8 * (i + Z.of_nat (S n))));
      cbn [andb]; try reflexivity; lia.
Qed.

Lemma tail_loop_spec (CX CY cx cy H W d1 d2 s1 s2 : Z) (n : nat) :
  product3 cx CY H W = Some d1 -> product2 cy H W = Some d2 ->
  product3 cy CX H W = Some s1 -> product2 cx H W = Some s2 ->
  0 <= d1 + d2 -> 0 <= s1 + s2 ->
  forall (i : Z) (dst : buffer half),
    0 <= i ->
    d1 + d2 + i + Z.of_nat n <= INT_MAX ->
    s1 + s2 + i + Z.of_nat n <= INT_MAX ->
    exists dst',
      tail_loop half n i src dst CX CY cx cy H W = Some dst'
      /\ forall j,
          dst' j
          = if (d1 + d2 + i <=? j) && (j <? d1 + d2 + i + Z.of_nat n)
            then src (s1 + s2 + (j - (d1 + d2))) else dst j.
Proof.
  intros Hd1 Hd2 Hs1 Hs2 Hd Hs.
  induction n as [| n IH]; intros i dst Hi Hdmax Hsmax; cbn [tail_loop].
  - exists dst. split; [reflexivity |]. intros j.
    destruct (Z.leb_spec (d1 + d2 + i) j), (Z.ltb_spec j (d1 + d2 + i + Z.of_nat 0));
      cbn [andb]; try reflexivity; lia.
  - rewrite Hd1, Hd2, Hs1, Hs2. cbn [obind].
    rewrite (int_of_fits (d1 + d2)) by (unfold INT_MIN; lia). cbn [obind].
    rewrite (int_of_fits (d1 + d2 + i)) by (unfold INT_MIN; lia). cbn [obind].
    rewrite (int_of_fits (s1 + s2)) by (unfold INT_MIN; lia). cbn [obind].
    rewrite (int_of_fits (s1 + s2 + i)) by (unfold INT_MIN; lia). cbn [obind].
    destruct (IH (i + 1) (store half dst (d1 + d2 + i) (src (s1 + s2 + i)))
                ltac:(lia) ltac:(lia) ltac:(lia)) as (dst' & Hrun & Hspec).
    exists dst'. split; [exact Hrun |].
    intros j. rewrite Hspec. unfold store.
    destruct (Z.eqb_spec j (d1 + d2 + i)) as [Heq | Hne];
      destruct (Z.leb_spec (d1 + d2 + (i + 1)) j),
               (Z.ltb_spec j (d1 + d2 + (i + 1) + Z.of_nat n)),
               (Z.leb_spec (d1 + d2 + i) j),
               (Z.ltb_spec j (d1 + d2 + i + Z.of_nat (S n)));
      cbn [andb]; try reflexivity; try lia; f_equal; lia.
Qed.

End Effect.

Lemma product3_fits (a b H W bound : Z) :
  0 <= a * b <= bound -> 0 <= H -> 0 <= W ->
  bound <= INT_MAX -> bound * H <= INT_MAX -> bound * (W * H) <= INT_MAX ->
  product3 a b H W = Some (a * b * H * W) /\ 0 <= a * b * H * W <= bound * (W * H).
Proof.
  intros Hab HH HW Hb HbH HbHW. unfold product3.
  assert (H1 : 0 <= a * b * H <= bound * H) by nia.
  assert (H2 : 0 <= a * b * H * W <= bound * (W * H)) by nia.
  rewrite (int_of_fits (a * b)) by (unfold INT_MIN; lia). cbn [obind].
  rewrite (int_of_fits (a * b * H)) by (unfold INT_MIN; lia). cbn [obind].
  rewrite (int_of_fits (a * b * H * W)) by (unfold INT_MIN; lia).
  split; [reflexivity | exact H2].
Qed.

Lemma product2_fits (a H W bound : Z) :
  0 <= a <= bound -> 0 <= H -> 0 <= W ->
  bound * H <= INT_MAX -> bound * (W * H) <= INT_MAX ->
  product2 a H W = Some (a * H * W) /\ 0 <= a * H * W <= bound * (W * H).
Proof.
  intros Ha HH HW HbH HbHW. unfold product2.
  assert (H1 : 0 <= a * H <= bound * H) by nia.
  assert (H2 : 0 <= a * H * W <= bound * (W * H)) by nia.
  rewrite (int_of_fits (a * H)) by (unfold INT_MIN; lia). cbn [obind].
  rewrite (int_of_fits (a * H * W)) by (unfold INT_MIN; lia).
  split; [reflexivity | exact H2].
Qed.

(** The planes of a shuffle: what the index arithmetic of one channel
    comes to. *)
Lemma channel_indices (C G c : Z) :
  0 < G -> 0 <= c < C ->
  0 <= (c mod G) * (C / G) <= C
  /\ 0 <= (c / G) * G <= C
  /\ 0 <= c mod G <= C
  /\ 0 <= c / G <= C
  /\ (c / G) * G + c mod G = c
  /\ 0 <= source_plane C G c <= C.
Proof.
  intros HG Hc. unfold source_plane.
  pose proof (Z.mod_pos_bound c G HG) as Hcy.
  pose proof (Z.div_pos c G ltac:(lia) HG) as Hcx.
  pose proof (Z.div_mod c G ltac:(lia)) as Hcdm.
  pose proof (Z.div_pos C G ltac:(lia) HG) as HCX.
  pose proof (Z.mul_div_le C G HG) as HCle.
  pose proof (Z.div_le_mono c C G HG ltac:(lia)) as Hmono.
  repeat split; try nia.
Qed.

Lemma plane_of_index (c P j : Z) :
  c * P <= j < (c + 1) * P -> 0 <= P -> j / P = c /\ j mod P = j - c * P.
Proof.
  intros Hj HP.
  assert (HPpos : 0 < P) by nia.
  assert (Hdiv : j / P = c).
  { symmetry. apply (Z.div_unique j P c (j - c * P)); [left; lia | lia]. }
  split; [exact Hdiv |].
  pose proof (Z.div_mod j P ltac:(lia)) as Hdm. rewrite Hdiv in Hdm. lia.
Qed.

Section Lane.

Variable half : Type.
Variable src : buffer half.

(** One round of the channel loop copies plane [source_plane C G c] of the
    source onto plane [c] of the destination. *)
Lemma channel_body_spec (dst : buffer half) (C H W G c : Z) :
  0 < G -> 0 <= H -> 0 <= W -> 0 <= c < C ->
  C <= INT_MAX -> C * H <= INT_MAX -> (C + 1) * (W * H) <= INT_MAX ->
  exists dst',
    channel_body half src dst C H W G c = Some dst'
    /\ forall j,
        dst' j
        = if (c * (W * H) <=? j) && (j <? (c + 1) * (W * H))
          then src (source_plane C G c * (W * H) + (j - c * (W * H)))
          else dst j.
Proof.
  intros HG HH HW Hc HC HCH HCWH.
  destruct (channel_indices C G c HG Hc) as (HA & HB & Hcy & Hcx & Hsum & Hsp).
  assert (HWH : 0 <= W * H) by nia.
  assert (HCWH' : C * (W * H) <= INT_MAX) by nia.
  assert (HWHmax : W * H <= INT_MAX) by nia.
  destruct (product3_fits (c mod G) (C / G) H W C HA HH HW HC HCH HCWH') as (Es1 & Hs1).
  destruct (product2_fits (c / G) H W C Hcx HH HW HCH HCWH') as (Es2 & Hs2).
  destruct (product3_fits (c / G) G H W C HB HH HW HC HCH HCWH') as (Ed1 & Hd1).
  destruct (product2_fits (c mod G) H W C Hcy HH HW HCH HCWH') as (Ed2 & Hd2).
  assert (Hd : c / G * G * H * W + c mod G * H * W = c * (W * H)).
  { rewrite <- Hsum at 3. ring. }
  assert (Hs : c mod G * (C / G) * H * W + c / G * H * W = source_plane C G c * (W * H)).
  { unfold source_plane. ring. }
  pose proof (Z.div_pos (W * H) 8 HWH ltac:(lia)) as Hn.
  pose proof (Z.mul_div_le (W * H) 8 ltac:(lia)) as Hn8.
  pose proof (Z.mod_pos_bound (W * H) 8 ltac:(lia)) as Hm8.
  pose proof (Z.div_mod (W * H) 8 ltac:(lia)) as Hdm8.
  unfold channel_body.
  rewrite (idiv_nonneg C G) by lia. cbn [obind].
  rewrite (irem_nonneg c G) by lia. cbn [obind].
  rewrite (idiv_nonneg c G) by lia. cbn [obind].
  rewrite Es1, Es2, Ed1, Ed2. cbn [obind].
  rewrite (int_of_fits (W * H)) by (unfold INT_MIN; lia). cbn [obind].
  rewrite (idiv_nonneg (W * H) 8) by lia. cbn [obind].
  rewrite (int_of_fits (W * H / 8 * 8)) by (unfold INT_MIN; lia). cbn [obind].
  destruct (tail_loop_spec half src (C / G) G (c / G) (c mod G) H W _ _ _ _
              (Z.to_nat (W * H - W * H / 8 * 8)) Ed1 Ed2 Es1 Es2
              ltac:(lia) ltac:(lia) (W * H / 8 * 8)
              (vector_loop half (Z.to_nat (W * H / 8)) 0 src dst
                 (c mod G * (C / G) * H * W + c / G * H * W)
                 (c / G * G * H * W + c mod G * H * W))
              ltac:(lia) ltac:(nia) ltac:(nia))
    as (dst' & Hrun & Hspec).
  exists dst'. split; [exact Hrun |].
  intros j. rewrite Hspec, vector_loop_spec by lia.
  rewrite !Z2Nat.id by lia. rewrite Hd, Hs.
  destruct (Z.leb_spec (c * (W * H) + W * H / 8 * 8) j),
           (Z.ltb_spec j (c * (W * H) + W * H / 8 * 8 + (W * H - W * H / 8 * 8))),
           (Z.leb_spec (c * (W * H) + 8 * 0) j),
           (Z.ltb_spec j (c * (W * H) + 8 * (0 + W * H / 8))),
           (Z.leb_spec (c * (W * H)) j),
           (Z.ltb_spec j ((c + 1) * (W * H)));
    cbn [andb]; try reflexivity; lia.
Qed.

(** [n] rounds of the channel loop from channel [c0]. *)
Lemma channel_loop_spec (C H W G : Z) (n : nat) :
  0 < G -> 0 <= H -> 0 <= W ->
  C <= INT_MAX -> C * H <= INT_MAX -> (C + 1) * (W * H) <= INT_MAX ->
  forall (c0 : Z) (dst : buffer half),
    0 <= c0 -> c0 + Z.of_nat n <= C ->
    exists dst',
      channel_loop half n c0 src dst C H W G = Some dst'
      /\ forall j,
          dst' j
          = if (c0 * (W * H) <=? j) && (j <? (c0 + Z.of_nat n) * (W * H))
            then src (source_plane C G (j / (W * H)) * (W * H) + j mod (W * H))
            else dst j.
Proof.
  intros HG HH HW HC HCH HCWH.
  assert (HWH : 0 <= W * H) by nia.
  induction n as [| n IH]; intros c0 dst Hc0 Hend; cbn [channel_loop].
  - exists dst. split; [reflexivity |]. intros j.
    destruct (Z.leb_spec (c0 * (W * H)) j),
             (Z.ltb_spec j ((c0 + Z.of_nat 0) * (W * H)));
      cbn [andb]; try reflexivity; lia.
  - destruct (channel_body_spec dst C H W G c0 HG HH HW ltac:(lia) HC HCH HCWH)
      as (dst1 & Hbody & Hspec1).
    rewrite Hbody. cbn [obind].
    destruct (IH (c0 + 1) dst1 ltac:(lia) ltac:(lia)) as (dst' & Hrun & Hspec).
    exists dst'. split; [exact Hrun |].
    intros j. rewrite Hspec, Hspec1.
    destruct (Z.leb_spec ((c0 + 1) * (W * H)) j),
             (Z.ltb_spec j ((c0 + 1 + Z.of_nat n) * (W * H))),
             (Z.leb_spec (c0 * (W * H)) j),
             (Z.ltb_spec j ((c0 + Z.of_nat (S n)) * (W * H))),
             (Z.ltb_spec j ((c0 + 1) * (W * H)));
      cbn [andb]; try reflexivity; try lia.
    destruct (plane_of_index c0 (W * H) j ltac:(lia) HWH) as (Hdiv & Hmod).
    rewrite Hdiv, Hmod. reflexivity.
Qed.

End Lane.

(** X19: a lane whose range [start, end) lies below [C] leaves the
    destination planes [start] to [end - 1] holding, element for element,
    the source planes [(c mod G) * (C / G) + c / G], and every other
    element of the destination as it was; the vector loop and the tail
    loop together move each of the [W * H] elements of a plane once.
    (For sizes whose products stay within [int].) *)
Theorem ShuffleChannel_lane_effect :
  forall (half : Type) (src_data dst_data : buffer half) (C H W G shave_id s e : Z),
    0 < G -> 0 <= H -> 0 <= W ->
    C <= INT_MAX -> C * H <= INT_MAX -> (C + 1) * (W * H) <= INT_MAX ->
    lane_range C shave_id = Some (s, e) -> 0 <= s <= e -> e <= C ->
    exists dst',
      ShuffleChannel half src_data dst_data C H W G shave_id = Some dst'
      /\ forall j,
          dst' j
          = if (s * (W * H) <=? j) && (j <? e * (W * H))
            then src_data (source_plane C G (j / (W * H)) * (W * H) + j mod (W * H))
            else dst_data j.
Proof.
  intros half src_data dst_data C H W G shave_id s e HG HH HW HC HCH HCWH Hrange Hse He.
  unfold ShuffleChannel. rewrite Hrange. cbn [obind fst snd].
  destruct (channel_loop_spec half src_data C H W G (Z.to_nat (e - s))
              HG HH HW HC HCH HCWH s dst_data ltac:(lia) ltac:(lia))
    as (dst' & Hrun & Hspec).
  exists dst'. split; [exact Hrun |].
  intros j. rewrite Hspec. rewrite Z2Nat.id by lia.
  replace (s + (e - s)) with e by lia. reflexivity.
Qed.

Lemma ShuffleChannel_lane_effect_witness :
  exists dst',
    ShuffleChannel Z (fun i => i) (fun _ => -1) 32 3 3 4 1 = Some dst'
    /\ dst' 17 = -1 /\ dst' 18 = 144 /\ dst' 35 = 224 /\ dst' 36 = -1.
Proof.
  destruct (ShuffleChannel_lane_effect Z (fun i => i) (fun _ => -1) 32 3 3 4 1 2 4
              ltac:(lia) ltac:(lia) ltac:(lia)
              ltac:(unfold INT_MAX; simpl; lia) ltac:(unfold INT_MAX; simpl; lia)
              ltac:(unfold INT_MAX; simpl; lia)
              eq_refl ltac:(lia) ltac:(lia))
    as (dst' & Hrun & Hspec).
  exists dst'. split; [exact Hrun |].
  rewrite !Hspec. repeat split; reflexivity.
Defined.

(** X20: when the group count divides the channel count, the plane a
    shuffle reads for a channel below [C] is itself below [C], and a
    shuffle into [C / G] groups undoes a shuffle into [G] groups: the
    planes are permuted. *)
Theorem source_plane_round_trip :
  forall C G c : Z,
    0 < G -> C mod G = 0 -> 0 <= c < C ->
    0 <= source_plane C G c < C
    /\ source_plane C (C / G) (source_plane C G c) = c.
Proof.
  intros C G c HG Hdiv Hc. unfold source_plane.
  pose proof (Z.div_mod C G ltac:(lia)) as HCdm. rewrite Hdiv in HCdm.
  assert (HCX : 0 < C / G) by nia.
  pose proof (Z.mod_pos_bound c G HG) as Hcy.
  pose proof (Z.div_mod c G ltac:(lia)) as Hcdm.
  assert (Hcx : 0 <= c / G < C / G).
  { split; [apply Z.div_pos; lia | apply Z.div_lt_upper_bound; nia]. }
  assert (HG' : C / (C / G) = G).
  { symmetry. apply (Z.div_unique C (C / G) G 0); [left; lia | nia]. }
  assert (Hq : (c mod G * (C / G) + c / G) / (C / G) = c mod G).
  { symmetry. apply (Z.div_unique _ (C / G) (c mod G) (c / G)); [left; lia | nia]. }
  assert (Hr : (c mod G * (C / G) + c / G) mod (C / G) = c / G).
  { symmetry. apply (Z.mod_unique _ (C / G) (c mod G) (c / G)); [left; lia | nia]. }
  split; [nia |].
  rewrite HG', Hq, Hr. nia.
Qed.

Lemma source_plane_round_trip_witness :
  0 <= source_plane 32 4 5 < 32
  /\ source_plane 32 (32 / 4) (source_plane 32 4 5) = 5.
Proof.
  exact (source_plane_round_trip 32 4 5 ltac:(lia) eq_refl ltac:(lia)).
Defined.

(* ================================================================== *)
(** ** Tensor elements *)

(** X21: a [Tensor] element parses only if it has the attributes [type],
    [arg-name] and [port-index]; the parameter has the kind its type token
    names, whatever the case of the letters, the element's [arg-name], the
    converted [port-index] and no [irSource].  For the kinds InputBuffer
    and OutputBuffer the element must also have a non-empty [size] and a
    [dim] that [parseDimSource] accepts, which give the dimension source;
    for the other kinds [size] and [dim] are not read: the buffer size
    rule and the dimension source stay unset. *)
Theorem parseTensor_fields :
  forall (attr_to_int : string -> result Z) (tensor : xml_node) (kp : KernelParam),
    parseTensor attr_to_int tensor = OK kp ->
    (exists typeStr,
        attribute (Some tensor) "type" = Some typeStr
        /\ ((lower typeStr = "input" /\ type kp = CustomParamType.Input)
            \/ (lower typeStr = "output" /\ type kp = CustomParamType.Output)
            \/ (lower typeStr = "input_buffer" /\ type kp = CustomParamType.InputBuffer)
            \/ (lower typeStr = "output_buffer" /\ type kp = CustomParamType.OutputBuffer)
            \/ (lower typeStr = "data" /\ type kp = CustomParamType.Data)))
    /\ attribute (Some tensor) "arg-name" = Some (argName kp)
    /\ (exists v,
           attribute (Some tensor) "port-index" = Some v
           /\ attr_to_int v = OK (portIndex kp))
    /\ irSource kp = ""
    /\ (is_buffer kp = true ->
        exists sizeRule dimString,
          attribute (Some tensor) "size" = Some sizeRule /\ sizeRule <> ""
          /\ attribute (Some tensor) "dim" = Some dimString
          /\ parseDimSource dimString = OK (match dimSource kp with
                                            | Some s => s
                                            | None => CustomDimSource.Input
                                            end, dimIdx kp)
          /\ dimSource kp <> None)
    /\ (is_buffer kp = false ->
        bufferSizeRule kp = "" /\ dimSource kp = None /\ dimIdx kp = -1).
Proof.
  intros attr_to_int tensor kp H.
  destruct (parseTensor_OK_inv _ _ _ H)
    as (typeStr & fmt & name & port & Htype & _ & Hname & Hport & _ & Harg & Hpi & Hir
        & Hcases).
  split.
  { exists typeStr. split; [exact Htype |].
    destruct Hcases as [([Hk | [Hk | Hk]] & _) | ([Hk | Hk] & _)]; tauto. }
  split; [rewrite Hname, Harg; reflexivity |].
  split.
  { unfold GetIntAttr in Hport.
    destruct (attribute (Some tensor) "port-index") as [v |]; [| discriminate Hport].
    exists v. split; [reflexivity |]. rewrite Hport, Hpi. reflexivity. }
  split; [exact Hir |].
  unfold is_buffer.
  destruct Hcases
    as [(Hkind & Hb & Hds & Hdi)
       | (Hkind & sizeRule & dimString & d & Hsize & Hnth & Hdim & Hd & Hds & Hdi)].
  - assert (Hnb : CustomParamType.eqb (type kp) CustomParamType.InputBuffer
                  || CustomParamType.eqb (type kp) CustomParamType.OutputBuffer = false).
    { destruct Hkind as [(_ & ->) | [(_ & ->) | (_ & ->)]]; reflexivity. }
    rewrite Hnb. split; [discriminate | intros _; tauto].
  - assert (Hb : CustomParamType.eqb (type kp) CustomParamType.InputBuffer
                 || CustomParamType.eqb (type kp) CustomParamType.OutputBuffer = true).
    { destruct Hkind as [(_ & ->) | (_ & ->)]; reflexivity. }
    rewrite Hb. split; [| discriminate].
    intros _. exists sizeRule, dimString.
    split; [exact Hsize |].
    split; [intros ->; discriminate Hnth |].
    split; [exact Hdim |].
    rewrite Hds, Hdi, Hd. split; [destruct d; reflexivity | discriminate].
Qed.

Lemma parseTensor_fields_witness :
  exists kp,
    parseTensor Samples.attr_to_int (Samples.buffer_tensor "a*b,c") = OK kp
    /\ is_buffer kp = true
    /\ exists sizeRule dimString,
        attribute (Some (Samples.buffer_tensor "a*b,c")) "size" = Some sizeRule
        /\ sizeRule <> ""
        /\ attribute (Some (Samples.buffer_tensor "a*b,c")) "dim" = Some dimString.
Proof.
  eexists. split; [reflexivity |]. split; [reflexivity |].
  destruct (proj1 (proj2 (proj2 (proj2 (proj2
              (parseTensor_fields Samples.attr_to_int (Samples.buffer_tensor "a*b,c")
                 _ eq_refl))))) eq_refl)
    as (sizeRule & dimString & Hsize & Hne & Hdim & _).
  exists sizeRule, dimString. split; [exact Hsize |]. split; [exact Hne | exact Hdim].
Defined.
